(** * Abstract Illicit Ecology Model (AIEM): the simulation engine

    A shallow embedding of [src/src/agents.py] and [src/src/model.py].

    - Python floats are modelled by exact rationals [Q]; every statement
      about a real-valued attribute is a statement of exact arithmetic.
    - Agent objects are referenced by their position in the registry
      ([self.model.agents], creation order); [unique_id] is a field.
    - The network is networkx's adjacency dictionary, as an association
      list from node to neighbour list.
    - [self.random] (the generator the constructor seeds) is a stream of
      unit-interval draws with a read position.  [random.shuffle] in
      [AIEMModel.step] reads the module-level generator of Python's
      [random] instead, which is a different object.
    - Exceptions are explicit: [neighbors] of an absent node raises
      [NetworkXError], [average_clustering] of the null graph divides by
      zero. *)

From Stdlib Require Import String.
From Stdlib Require Import List Arith Bool ZArith QArith Qround.
From Stdlib Require Import Lia Lqa Permutation.
Import ListNotations.

Local Open Scope Q_scope.

(** ** Comparisons and clamps on floats *)

Definition Qltb (a b : Q) : bool :=
  match a ?= b with Lt => true | _ => false end.

(** Python's [min(a, b)] returns [b] only when [b < a]. *)
Definition py_min (a b : Q) : Q := if Qltb b a then b else a.

(** Python's [max(a, b)] returns [b] only when [b > a]. *)
Definition py_max (a b : Q) : Q := if Qltb a b then b else a.

(** The unit interval. *)
Definition in01 (x : Q) : Prop := 0 <= x /\ x <= 1.

Definition Qsum (l : list Q) : Q := fold_right Qplus 0 l.

(** [np.mean] of a non-empty list. *)
Definition np_mean (l : list Q) : Q := Qsum l / inject_Z (Z.of_nat (length l)).

Definition Qnat (n : nat) : Q := inject_Z (Z.of_nat n).

(** ** Exceptions *)

Inductive Exn : Set := NetworkXError | ZeroDivisionError.

Inductive result (A : Type) : Type :=
| Ok (a : A)
| Raise (e : Exn).

Arguments Ok {A} a.
Arguments Raise {A} e.

Definition bind {A B : Type} (m : result A) (k : A -> result B) : result B :=
  match m with
  | Ok a => k a
  | Raise e => Raise e
  end.

Notation "x <- m ;; k" := (bind m (fun x => k))
  (at level 61, m at next level, right associativity).

(** A [for] loop over a list whose body may raise. *)
Fixpoint for_each {A S : Type} (l : list A) (body : A -> S -> result S) (s : S)
  : result S :=
  match l with
  | [] => Ok s
  | x :: t => s' <- body x s ;; for_each t body s'
  end.

(** In-place update of the object at position [i]. *)
Fixpoint upd {A : Type} (i : nat) (f : A -> A) (l : list A) : list A :=
  match l, i with
  | [], _ => []
  | x :: t, O => f x :: t
  | x :: t, S j => x :: upd j f t
  end.

(** ** Network Substrate *)

Module Network.

Definition Graph := list (nat * list nat).

Definition nodes (G : Graph) : list nat := map fst G.

(** [n in G] *)
Definition has_node (G : Graph) (n : nat) : bool :=
  existsb (fun p => fst p =? n)%nat G.

(** [G.neighbors(n)]; networkx raises when [n] is not a node. *)
Definition neighbors (G : Graph) (n : nat) : result (list nat) :=
  match find (fun p => fst p =? n)%nat G with
  | Some p => Ok (snd p)
  | None => Raise NetworkXError
  end.

(** [G.remove_node(n)]: the node and every incident edge; raises when
    [n] is not a node. *)
Definition remove_node (G : Graph) (n : nat) : result Graph :=
  if has_node G n then
    Ok (map (fun p => (fst p, filter (fun m => negb (m =? n)%nat) (snd p)))
            (filter (fun p => negb (fst p =? n)%nat) G))
  else Raise NetworkXError.

Definition degree_sum (G : Graph) : nat :=
  fold_right (fun p acc => (length (snd p) + acc)%nat) O G.

(** [nx.density]: [0] when there is no edge or at most one node, else
    [2m / (n (n - 1))]. *)
Definition density (G : Graph) : Q :=
  let n := length G in
  let m2 := degree_sum G in
  if ((m2 =? 0) || (n <=? 1))%nat then 0
  else Qnat m2 / (Qnat n * (Qnat n - 1)).

Definition adj (G : Graph) (n : nat) : list nat :=
  match find (fun p => fst p =? n)%nat G with
  | Some p => snd p
  | None => []
  end.

Definition common (l1 l2 : list nat) : nat :=
  length (filter (fun x => existsb (Nat.eqb x) l2) l1).

(** [nx.clustering] of one node: twice its triangle count over
    [d (d - 1)], and [0] when there is no triangle. *)
Definition clustering (G : Graph) (p : nat * list nat) : Q :=
  let d := length (snd p) in
  let t := fold_right (fun w acc => (common (snd p) (adj G w) + acc)%nat)
                      O (snd p) in
  if (t =? 0)%nat then 0 else Qnat t / (Qnat d * (Qnat d - 1)).

(** [nx.average_clustering]: [sum(c) / len(c)] over all nodes. *)
Definition average_clustering (G : Graph) : result Q :=
  match G with
  | [] => Raise ZeroDivisionError
  | _ => Ok (Qsum (map (clustering G) G) / Qnat (length G))
  end.

End Network.

Import Network.

(** ** Agents *)

Inductive Role : Set :=
| Leader | Operative | Broker | Facilitator | CommunityMember | Authority.

Definition Role_eqb (r1 r2 : Role) : bool :=
  match r1, r2 with
  | Leader, Leader | Operative, Operative | Broker, Broker
  | Facilitator, Facilitator | CommunityMember, CommunityMember
  | Authority, Authority => true
  | _, _ => false
  end.

(** The attributes each subclass adds to [AbstractAgent]. *)
Inductive Extra : Set :=
| LeaderX
| OperativeX (economic_stress : Q)
| BrokerX
| FacilitatorX
| CommunityMemberX (vulnerability reporting_propensity : Q)
| AuthorityX (monitoring_capacity intervention_resources : Q).

(** [specialty_vector] is drawn from numpy's own generator, stored and
    never read; it is left out. *)
Record Agent : Set := mkAgent {
  unique_id : nat;
  extra : Extra;
  resources : Q;
  legitimacy : Q;
  risk_tolerance : Q;
  social_capital : Q;
  detection_exposure : Q;
  active : bool;
  arrest_count : Z
}.

(** [agent.role], fixed by the class. *)
Definition role (a : Agent) : Role :=
  match extra a with
  | LeaderX => Leader
  | OperativeX _ => Operative
  | BrokerX => Broker
  | FacilitatorX => Facilitator
  | CommunityMemberX _ _ => CommunityMember
  | AuthorityX _ _ => Authority
  end.

(** [getattr(agent, name, None)] for the subclass attributes. *)
Definition economic_stress (a : Agent) : option Q :=
  match extra a with OperativeX e => Some e | _ => None end.

Definition monitoring_capacity (a : Agent) : option Q :=
  match extra a with AuthorityX m _ => Some m | _ => None end.

Definition intervention_resources (a : Agent) : option Q :=
  match extra a with AuthorityX _ r => Some r | _ => None end.

Definition vulnerability (a : Agent) : option Q :=
  match extra a with CommunityMemberX v _ => Some v | _ => None end.

Definition reporting_propensity (a : Agent) : option Q :=
  match extra a with CommunityMemberX _ r => Some r | _ => None end.

Definition set_extra (x : Extra) (a : Agent) : Agent :=
  mkAgent (unique_id a) x (resources a) (legitimacy a) (risk_tolerance a)
          (social_capital a) (detection_exposure a) (active a) (arrest_count a).

Definition set_resources (v : Q) (a : Agent) : Agent :=
  mkAgent (unique_id a) (extra a) v (legitimacy a) (risk_tolerance a)
          (social_capital a) (detection_exposure a) (active a) (arrest_count a).

Definition set_legitimacy (v : Q) (a : Agent) : Agent :=
  mkAgent (unique_id a) (extra a) (resources a) v (risk_tolerance a)
          (social_capital a) (detection_exposure a) (active a) (arrest_count a).

Definition set_risk_tolerance (v : Q) (a : Agent) : Agent :=
  mkAgent (unique_id a) (extra a) (resources a) (legitimacy a) v
          (social_capital a) (detection_exposure a) (active a) (arrest_count a).

Definition set_social_capital (v : Q) (a : Agent) : Agent :=
  mkAgent (unique_id a) (extra a) (resources a) (legitimacy a)
          (risk_tolerance a) v (detection_exposure a) (active a)
          (arrest_count a).

Definition set_detection_exposure (v : Q) (a : Agent) : Agent :=
  mkAgent (unique_id a) (extra a) (resources a) (legitimacy a)
          (risk_tolerance a) (social_capital a) v (active a) (arrest_count a).

Definition set_active (v : bool) (a : Agent) : Agent :=
  mkAgent (unique_id a) (extra a) (resources a) (legitimacy a)
          (risk_tolerance a) (social_capital a) (detection_exposure a) v
          (arrest_count a).

Definition set_arrest_count (v : Z) (a : Agent) : Agent :=
  mkAgent (unique_id a) (extra a) (resources a) (legitimacy a)
          (risk_tolerance a) (social_capital a) (detection_exposure a)
          (active a) v.

(** ** The seeded generator *)

Record Random : Type := mkRandom {
  draws : nat -> Q;
  pos : nat
}.

(** [rng.random()] *)
Definition random_random (r : Random) : Q * Random :=
  (draws r (pos r), mkRandom (draws r) (S (pos r))).

(** [rng.uniform(a, b)] is [a + (b - a) * rng.random()]. *)
Definition random_uniform (a b : Q) (r : Random) : Q * Random :=
  let (u, r') := random_random r in (a + (b - a) * u, r').

(** ** Metrics Recorder *)

Record MetricsRow : Set := mkRow {
  ActiveLeaders : nat;
  ActiveOperatives : nat;
  ActiveBrokers : nat;
  ActiveFacilitators : nat;
  TotalResources : Q;
  AverageDetectionExposure : Q;
  ArrestsThisStep : Z;
  ReportsThisStep : Z;
  NetworkDensity : Q;
  AverageClustering : Q
}.

(** ** Simulation Engine *)

(** [intervene_calls] is a ghost field: it counts the calls of
    [intervene_agent] since the last reset in [step] and is read by no
    code. *)
Record AIEMModel : Type := mkModel {
  agents : list Agent;
  network : Graph;
  arrests_this_step : Z;
  recent_arrest_rate : Q;
  reports_this_step : Z;
  running : bool;
  random : Random;
  datacollector : list MetricsRow;
  intervene_calls : Z
}.

Definition set_agents (v : list Agent) (m : AIEMModel) : AIEMModel :=
  mkModel v (network m) (arrests_this_step m) (recent_arrest_rate m)
          (reports_this_step m) (running m) (random m) (datacollector m)
          (intervene_calls m).

Definition set_network (v : Graph) (m : AIEMModel) : AIEMModel :=
  mkModel (agents m) v (arrests_this_step m) (recent_arrest_rate m)
          (reports_this_step m) (running m) (random m) (datacollector m)
          (intervene_calls m).

Definition set_arrests_this_step (v : Z) (m : AIEMModel) : AIEMModel :=
  mkModel (agents m) (network m) v (recent_arrest_rate m)
          (reports_this_step m) (running m) (random m) (datacollector m)
          (intervene_calls m).

Definition set_recent_arrest_rate (v : Q) (m : AIEMModel) : AIEMModel :=
  mkModel (agents m) (network m) (arrests_this_step m) v
          (reports_this_step m) (running m) (random m) (datacollector m)
          (intervene_calls m).

Definition set_reports_this_step (v : Z) (m : AIEMModel) : AIEMModel :=
  mkModel (agents m) (network m) (arrests_this_step m) (recent_arrest_rate m)
          v (running m) (random m) (datacollector m) (intervene_calls m).

Definition set_running (v : bool) (m : AIEMModel) : AIEMModel :=
  mkModel (agents m) (network m) (arrests_this_step m) (recent_arrest_rate m)
          (reports_this_step m) v (random m) (datacollector m)
          (intervene_calls m).

Definition set_random (v : Random) (m : AIEMModel) : AIEMModel :=
  mkModel (agents m) (network m) (arrests_this_step m) (recent_arrest_rate m)
          (reports_this_step m) (running m) v (datacollector m)
          (intervene_calls m).

Definition set_datacollector (v : list MetricsRow) (m : AIEMModel)
  : AIEMModel :=
  mkModel (agents m) (network m) (arrests_this_step m) (recent_arrest_rate m)
          (reports_this_step m) (running m) (random m) v (intervene_calls m).

Definition set_intervene_calls (v : Z) (m : AIEMModel) : AIEMModel :=
  mkModel (agents m) (network m) (arrests_this_step m) (recent_arrest_rate m)
          (reports_this_step m) (running m) (random m) (datacollector m) v.

(** The value read through a dangling reference; no reference handed out
    by the registry dangles. *)
Definition no_agent : Agent :=
  mkAgent O LeaderX 0 0 0 0 0 false 0%Z.

(** Dereference of the object at registry position [i]. *)
Definition agent_at (i : nat) (m : AIEMModel) : Agent :=
  nth i (agents m) no_agent.

(** Mutation of the object at registry position [i]. *)
Definition update_agent (i : nat) (f : Agent -> Agent) (m : AIEMModel)
  : AIEMModel :=
  set_agents (upd i f (agents m)) m.

(** [self.random.random()] *)
Definition draw (m : AIEMModel) : Q * AIEMModel :=
  let (u, r) := random_random (random m) in (u, set_random r m).

Fixpoint find_index (l : list Agent) (agent_id : nat) (i : nat) : option nat :=
  match l with
  | [] => None
  | a :: t => if (unique_id a =? agent_id)%nat then Some i
              else find_index t agent_id (S i)
  end.

(** [get_agent_by_id]: the first registered agent with that id, as a
    reference, or [None]. *)
Definition get_agent_by_id (m : AIEMModel) (agent_id : nat) : option nat :=
  find_index (agents m) agent_id O.

(** [count_active_by_role] *)
Definition count_active_by_role (m : AIEMModel) (r : Role) : nat :=
  length (filter (fun a => Role_eqb (role a) r && active a) (agents m)).

(** [total_resources]: every registered agent, active or not. *)
Definition total_resources (m : AIEMModel) : Q :=
  Qsum (map resources (agents m)).

(** [average_detection_exposure] *)
Definition average_detection_exposure (m : AIEMModel) : Q :=
  let exposures := map detection_exposure (filter active (agents m)) in
  match exposures with
  | [] => 0
  | _ => np_mean exposures
  end.

(** *** Engine callbacks *)

(** [AIEMModel.intervene_agent] *)
Definition intervene_agent (agent_id : nat) (m : AIEMModel)
  : result AIEMModel :=
  let m := set_intervene_calls (intervene_calls m + 1)%Z m in
  match get_agent_by_id m agent_id with
  | Some j =>
      if active (agent_at j m) then
        let m1 :=
          update_agent j (fun a => set_arrest_count (arrest_count a + 1)%Z a) m in
        let m2 := set_arrests_this_step (arrests_this_step m1 + 1)%Z m1 in
        if (2 <=? arrest_count (agent_at j m2))%Z then
          let m3 := update_agent j (set_active false) m2 in
          if has_node (network m3) (unique_id (agent_at j m3)) then
            G <- remove_node (network m3) (unique_id (agent_at j m3)) ;;
            Ok (set_network G m3)
          else Ok m3
        else Ok m2
      else Ok m
  | None => Ok m
  end.

(** [AIEMModel.report_suspicious_activity] *)
Definition report_suspicious_activity (target_agent_id : nat) (m : AIEMModel)
  : AIEMModel :=
  let m1 := set_reports_this_step (reports_this_step m + 1)%Z m in
  match get_agent_by_id m1 target_agent_id with
  | Some j =>
      update_agent j
        (fun a => set_detection_exposure
                    (py_min 1 (detection_exposure a + (2#10))) a) m1
  | None => m1
  end.

(** The three loop bodies of [apply_policy_intervention]. *)
Definition policy_monitoring (intensity : Q) (a : Agent) : Agent :=
  if Role_eqb (role a) Authority then
    match extra a with
    | AuthorityX mc ir =>
        set_extra (AuthorityX (py_min 1 (mc + intensity * (3#10))) ir) a
    | _ => a
    end
  else a.

Definition policy_economic_support (intensity : Q) (a : Agent) : Agent :=
  if Role_eqb (role a) Operative || Role_eqb (role a) CommunityMember then
    let a1 :=
      match extra a with
      | OperativeX es =>
          set_extra (OperativeX (py_max 0 (es - intensity * (3#10)))) a
      | _ => a
      end in
    set_resources (resources a1 + intensity * (2#10)) a1
  else a.

Definition policy_community_engagement (intensity : Q) (a : Agent) : Agent :=
  if Role_eqb (role a) CommunityMember then
    match extra a with
    | CommunityMemberX v rp =>
        set_extra (CommunityMemberX v (py_min 1 (rp + intensity * (2#10)))) a
    | _ => a
    end
  else a.

(** [AIEMModel.apply_policy_intervention]; an unknown type changes
    nothing. *)
Definition apply_policy_intervention (intervention_type : String.string)
  (intensity : Q) (m : AIEMModel) : AIEMModel :=
  if String.eqb intervention_type "monitoring"%string then
    set_agents (map (policy_monitoring intensity) (agents m)) m
  else if String.eqb intervention_type "economic_support"%string then
    set_agents (map (policy_economic_support intensity) (agents m)) m
  else if String.eqb intervention_type "community_engagement"%string then
    set_agents (map (policy_community_engagement intensity) (agents m)) m
  else m.

(** *** Agent behaviour ([self] is the registry position [i]) *)

(** [AbstractAgent.update_social_capital] *)
Definition update_social_capital (i : nat) (m : AIEMModel)
  : result AIEMModel :=
  ns <- neighbors (network m) (unique_id (agent_at i m)) ;;
  if (0 <? length ns)%nat then
    let neighbor_legitimacies :=
      flat_map (fun n => match get_agent_by_id m n with
                         | Some j => [legitimacy (agent_at j m)]
                         | None => []
                         end) ns in
    match neighbor_legitimacies with
    | [] => Ok m
    | _ =>
        Ok (update_agent i
              (fun a => set_social_capital
                          ((7#10) * social_capital a
                           + (3#10) * np_mean neighbor_legitimacies) a) m)
    end
  else Ok m.

(** [AbstractAgent.adjust_risk_from_environment] *)
Definition adjust_risk_from_environment (i : nat) (m : AIEMModel)
  : AIEMModel :=
  if Qltb (1#10) (recent_arrest_rate m) then
    update_agent i
      (fun a => set_risk_tolerance (risk_tolerance a * (95#100)) a) m
  else m.

(** [AbstractAgent.step] *)
Definition AbstractAgent_step (i : nat) (m : AIEMModel) : result AIEMModel :=
  if negb (active (agent_at i m)) then Ok m
  else
    m1 <- update_social_capital i m ;;
    Ok (adjust_risk_from_environment i m1).

(** [isinstance(agent, (Operative, Broker))] *)
Definition is_operative_or_broker (a : Agent) : bool :=
  match extra a with
  | OperativeX _ | BrokerX => true
  | _ => false
  end.

(** One iteration of the loop of [Leader.distribute_resources]. *)
Definition distribute_to (i : nat) (distribution_amount : Q) (n_neighbors : nat)
  (m : AIEMModel) (neighbor_id : nat) : AIEMModel :=
  match get_agent_by_id m neighbor_id with
  | Some j =>
      if is_operative_or_broker (agent_at j m) then
        let transfer := distribution_amount / Qnat n_neighbors in
        let m1 :=
          update_agent j (fun a => set_resources (resources a + transfer) a) m in
        update_agent i (fun a => set_resources (resources a - transfer) a) m1
      else m
  | None => m
  end.

(** [Leader.distribute_resources] *)
Definition distribute_resources (i : nat) (m : AIEMModel) : result AIEMModel :=
  ns <- neighbors (network m) (unique_id (agent_at i m)) ;;
  if (0 <? length ns)%nat && Qltb (3#10) (resources (agent_at i m)) then
    let distribution_amount := resources (agent_at i m) * (1#10) in
    Ok (fold_left (distribute_to i distribution_amount (length ns)) ns m)
  else Ok m.

(** [Leader.step] *)
Definition Leader_step (i : nat) (m : AIEMModel) : result AIEMModel :=
  m1 <- AbstractAgent_step i m ;;
  if negb (active (agent_at i m1)) then Ok m1
  else distribute_resources i m1.

(** [Operative.perform_abstract_activity] *)
Definition perform_abstract_activity (i : nat) (m : AIEMModel) : AIEMModel :=
  let self := agent_at i m in
  if Qltb (5#10) (risk_tolerance self) && Qltb (resources self) (3#10) then
    let activity_success_prob :=
      social_capital self * (1 - detection_exposure self) in
    let (u, m1) := draw m in
    if Qltb u activity_success_prob then
      update_agent i (fun a => set_resources (resources a + (1#10)) a) m1
    else
      update_agent i
        (fun a => set_detection_exposure
                    (py_min 1 (detection_exposure a + (1#10))) a) m1
  else m.

(** [Operative.step] *)
Definition Operative_step (i : nat) (m : AIEMModel) : result AIEMModel :=
  m1 <- AbstractAgent_step i m ;;
  if negb (active (agent_at i m1)) then Ok m1
  else
    let m2 :=
      match economic_stress (agent_at i m1) with
      | Some es =>
          if Qltb (7#10) es then
            update_agent i
              (fun a => set_risk_tolerance
                          (py_min 1 (risk_tolerance a + (5#100))) a) m1
          else m1
      | None => m1
      end in
    Ok (perform_abstract_activity i m2).

(** [Broker.mediate_connections] *)
Definition mediate_connections (i : nat) (m : AIEMModel) : result AIEMModel :=
  ns <- neighbors (network m) (unique_id (agent_at i m)) ;;
  if (2 <=? length ns)%nat then
    let mediation_value := Qnat (length ns) * (2#100) in
    Ok (update_agent i
          (fun a => set_resources (resources a + mediation_value) a) m)
  else Ok m.

(** [Broker.step] *)
Definition Broker_step (i : nat) (m : AIEMModel) : result AIEMModel :=
  m1 <- AbstractAgent_step i m ;;
  if negb (active (agent_at i m1)) then Ok m1
  else mediate_connections i m1.

(** [Facilitator.maintain_legitimacy] *)
Definition maintain_legitimacy (i : nat) (m : AIEMModel) : AIEMModel :=
  if Qltb (2#10) (resources (agent_at i m)) then
    let m1 :=
      update_agent i (fun a => set_resources (resources a - (5#100)) a) m in
    let m2 :=
      update_agent i
        (fun a => set_legitimacy (py_min 1 (legitimacy a + (5#100))) a) m1 in
    update_agent i
      (fun a => set_detection_exposure
                  (py_max 0 (detection_exposure a - (5#100))) a) m2
  else m.

(** [Facilitator.step] *)
Definition Facilitator_step (i : nat) (m : AIEMModel) : result AIEMModel :=
  m1 <- AbstractAgent_step i m ;;
  if negb (active (agent_at i m1)) then Ok m1
  else Ok (maintain_legitimacy i m1).

(** [self.reporting_propensity] of a CommunityMember. *)
Definition the_reporting_propensity (a : Agent) : Q :=
  match reporting_propensity a with Some v => v | None => 0 end.

(** One iteration of the loop of [CommunityMember.consider_reporting]. *)
Definition consider_neighbor (i : nat) (m : AIEMModel) (neighbor_id : nat)
  : AIEMModel :=
  match get_agent_by_id m neighbor_id with
  | Some j =>
      if Qltb (7#10) (detection_exposure (agent_at j m)) then
        let (u, m1) := draw m in
        if Qltb u (the_reporting_propensity (agent_at i m1) * (1#10)) then
          report_suspicious_activity neighbor_id m1
        else m1
      else m
  | None => m
  end.

(** [CommunityMember.consider_reporting] *)
Definition consider_reporting (i : nat) (m : AIEMModel) : result AIEMModel :=
  ns <- neighbors (network m) (unique_id (agent_at i m)) ;;
  Ok (fold_left (consider_neighbor i) ns m).

(** [CommunityMember.step] *)
Definition CommunityMember_step (i : nat) (m : AIEMModel)
  : result AIEMModel :=
  m1 <- AbstractAgent_step i m ;;
  if negb (active (agent_at i m1)) then Ok m1
  else consider_reporting i m1.

(** [self.monitoring_capacity] of an Authority. *)
Definition the_monitoring_capacity (a : Agent) : Q :=
  match monitoring_capacity a with Some v => v | None => 0 end.

(** Assignment to [self.intervention_resources] of an Authority. *)
Definition map_intervention_resources (f : Q -> Q) (a : Agent) : Agent :=
  match extra a with
  | AuthorityX mc ir => set_extra (AuthorityX mc (f ir)) a
  | _ => a
  end.

(** Assignment to [agent.monitoring_capacity] of an Authority. *)
Definition set_monitoring_capacity (v : Q) (a : Agent) : Agent :=
  match extra a with
  | AuthorityX _ ir => set_extra (AuthorityX v ir) a
  | _ => a
  end.

(** [agent.role in ["Leader", "Operative", "Broker"]] *)
Definition is_illicit (r : Role) : bool :=
  match r with
  | Leader | Operative | Broker => true
  | _ => false
  end.

(** One iteration of the loop of [Authority.monitor_and_intervene]; [j]
    is the scanned agent. *)
Definition monitor_agent (i : nat) (j : nat) (m : AIEMModel)
  : result AIEMModel :=
  let agent := agent_at j m in
  if is_illicit (role agent) && active agent then
    let detection_prob :=
      detection_exposure agent * the_monitoring_capacity (agent_at i m)
      * (5#100) in
    let (u, m1) := draw m in
    if Qltb u detection_prob then
      m2 <- intervene_agent (unique_id agent) m1 ;;
      Ok (update_agent i (map_intervention_resources (fun r => r - (1#10))) m2)
    else Ok m1
  else Ok m.

(** [Authority.monitor_and_intervene] *)
Definition monitor_and_intervene (i : nat) (m : AIEMModel)
  : result AIEMModel :=
  m1 <- for_each (seq 0 (length (agents m))) (monitor_agent i) m ;;
  Ok (update_agent i
        (map_intervention_resources (fun r => py_min 1 (r + (5#100)))) m1).

(** [Authority.step]: the monitoring runs whatever the [active] flag. *)
Definition Authority_step (i : nat) (m : AIEMModel) : result AIEMModel :=
  m1 <- AbstractAgent_step i m ;;
  monitor_and_intervene i m1.

(** [agent.step()], dispatched on the class of the object at [i]. *)
Definition agent_step (i : nat) (m : AIEMModel) : result AIEMModel :=
  match nth_error (agents m) i with
  | None => Ok m
  | Some a =>
      match extra a with
      | LeaderX => Leader_step i m
      | OperativeX _ => Operative_step i m
      | BrokerX => Broker_step i m
      | FacilitatorX => Facilitator_step i m
      | CommunityMemberX _ _ => CommunityMember_step i m
      | AuthorityX _ _ => Authority_step i m
      end
  end.

(** *** One engine step *)

Definition active_illicit_count (m : AIEMModel) : nat :=
  (count_active_by_role m Leader + count_active_by_role m Operative
   + count_active_by_role m Broker)%nat.

(** [self.datacollector.collect(self)]: one row, the reporters evaluated
    in declaration order. *)
Definition collect (m : AIEMModel) : result MetricsRow :=
  let al := count_active_by_role m Leader in
  let ao := count_active_by_role m Operative in
  let ab := count_active_by_role m Broker in
  let af := count_active_by_role m Facilitator in
  let tr := total_resources m in
  let ade := average_detection_exposure m in
  let nd := density (network m) in
  ac <- average_clustering (network m) ;;
  Ok (mkRow al ao ab af tr ade (arrests_this_step m) (reports_this_step m)
            nd ac).

(** [AIEMModel.step], given the order [random.shuffle] produced; the
    ghost call counter is reset with the two per-step counters. *)
Definition step_in_order (agent_list : list nat) (m : AIEMModel)
  : result AIEMModel :=
  let m0 :=
    set_intervene_calls 0%Z
      (set_reports_this_step 0%Z (set_arrests_this_step 0%Z m)) in
  m1 <- for_each agent_list agent_step m0 ;;
  let active_illicit := active_illicit_count m1 in
  let m2 :=
    if (0 <? active_illicit)%nat then
      set_recent_arrest_rate
        (inject_Z (arrests_this_step m1) / Qnat active_illicit) m1
    else set_recent_arrest_rate 0 m1 in
  row <- collect m2 ;;
  let m3 := set_datacollector (datacollector m2 ++ [row]) m2 in
  Ok (if (active_illicit =? 0)%nat then set_running false m3 else m3).

(** *** The module-level generator and [random.shuffle] *)

(** [_randbelow(n)], scaled from a unit-interval draw. *)
Definition randbelow (n : nat) (g : Random) : nat * Random :=
  let (u, g') := random_random g in (Z.to_nat (Qfloor (u * Qnat n)), g').

Definition swap (i j : nat) (x : list nat) : list nat :=
  let xi := nth i x O in
  let xj := nth j x O in
  upd i (fun _ => xj) (upd j (fun _ => xi) x).

(** [for i in reversed(range(1, len(x))): j = randbelow(i + 1); swap] *)
Fixpoint shuffle_from (i : nat) (x : list nat) (g : Random)
  : list nat * Random :=
  match i with
  | O => (x, g)
  | S i' =>
      let (j, g') := randbelow (S i) g in
      shuffle_from i' (swap i j x) g'
  end.

Definition random_shuffle (x : list nat) (g : Random) : list nat * Random :=
  shuffle_from (length x - 1) x g.

(** [AIEMModel.step]: [g] is the state of the module-level generator,
    which the engine neither owns nor seeds. *)
Definition AIEMModel_step (g : Random) (m : AIEMModel)
  : result AIEMModel * Random :=
  let (agent_list, g') := random_shuffle (seq 0 (length (agents m))) g in
  (step_in_order agent_list m, g').

(** *** Construction *)

Record Params : Type := mkParams {
  n_leaders : nat;
  n_operatives : nat;
  n_brokers : nat;
  n_facilitators : nat;
  n_community_members : nat;
  n_authorities : nat;
  network_k : nat;
  network_p : Q;
  initial_monitoring_capacity : Q;
  economic_stress_level : Q;
  seed : Z
}.

Definition total_agents (p : Params) : nat :=
  (n_leaders p + n_operatives p + n_brokers p
   + n_facilitators p + n_community_members p + n_authorities p)%nat.

(** [AbstractAgent.__init__]: five draws, in this order. *)
Definition AbstractAgent_init (uid : nat) (x : Extra) (r : Random)
  : Agent * Random :=
  let (res, r1) := random_uniform (1#10) 1 r in
  let (leg, r2) := random_uniform 0 1 r1 in
  let (rt, r3) := random_uniform 0 1 r2 in
  let (sc, r4) := random_uniform 0 1 r3 in
  let (de, r5) := random_uniform 0 1 r4 in
  (mkAgent uid x res leg rt sc de true 0%Z, r5).

Definition Leader_init (uid : nat) (r : Random) : Agent * Random :=
  let (a, r0) := AbstractAgent_init uid LeaderX r in
  let (res, r1) := random_uniform (5#10) 1 r0 in
  let (sc, r2) := random_uniform (4#10) 1 r1 in
  let (de, r3) := random_uniform (1#10) (5#10) r2 in
  (set_detection_exposure de (set_social_capital sc (set_resources res a)), r3).

Definition Operative_init (uid : nat) (r : Random) : Agent * Random :=
  let (a, r0) := AbstractAgent_init uid (OperativeX 0) r in
  let (es, r1) := random_uniform 0 1 r0 in
  (set_extra (OperativeX es) a, r1).

Definition Broker_init (uid : nat) (r : Random) : Agent * Random :=
  let (a, r0) := AbstractAgent_init uid BrokerX r in
  let (sc, r1) := random_uniform (5#10) 1 r0 in
  (set_social_capital sc a, r1).

Definition Facilitator_init (uid : nat) (r : Random) : Agent * Random :=
  let (a, r0) := AbstractAgent_init uid FacilitatorX r in
  let (leg, r1) := random_uniform (5#10) 1 r0 in
  let (de, r2) := random_uniform 0 (3#10) r1 in
  (set_detection_exposure de (set_legitimacy leg a), r2).

Definition CommunityMember_init (uid : nat) (r : Random) : Agent * Random :=
  let (a, r0) := AbstractAgent_init uid (CommunityMemberX 0 0) r in
  let (leg, r1) := random_uniform (7#10) 1 r0 in
  let (v, r2) := random_uniform 0 1 r1 in
  let (rp, r3) := random_uniform 0 1 r2 in
  (set_extra (CommunityMemberX v rp) (set_legitimacy leg a), r3).

Definition Authority_init (uid : nat) (r : Random) : Agent * Random :=
  AbstractAgent_init uid (AuthorityX (5#10) 1) r.

(** One [for _ in range(count)] loop of [_create_agents]: the agents it
    registers, from [agent_id] on. *)
Fixpoint create_n (count : nat) (mk : nat -> Random -> Agent * Random)
  (agent_id : nat) (r : Random) : list Agent * Random :=
  match count with
  | O => ([], r)
  | S c =>
      let (a, r1) := mk agent_id r in
      let (l, r2) := create_n c mk (S agent_id) r1 in
      (a :: l, r2)
  end.

(** [_create_agents] *)
Definition _create_agents (p : Params) (r : Random) : list Agent * Random :=
  let agent_id := O in
  let (ls, r1) := create_n (n_leaders p) Leader_init agent_id r in
  let agent_id := (agent_id + n_leaders p)%nat in
  let (os, r2) :=
    create_n (n_operatives p)
      (fun uid r =>
         let (a, r') := Operative_init uid r in
         (set_extra (OperativeX (economic_stress_level p)) a, r'))
      agent_id r1 in
  let agent_id := (agent_id + n_operatives p)%nat in
  let (bs, r3) := create_n (n_brokers p) Broker_init agent_id r2 in
  let agent_id := (agent_id + n_brokers p)%nat in
  let (fs, r4) := create_n (n_facilitators p) Facilitator_init agent_id r3 in
  let agent_id := (agent_id + n_facilitators p)%nat in
  let (cs, r5) :=
    create_n (n_community_members p) CommunityMember_init agent_id r4 in
  let agent_id := (agent_id + n_community_members p)%nat in
  let (aus, r6) :=
    create_n (n_authorities p)
      (fun uid r =>
         let (a, r') := Authority_init uid r in
         (set_monitoring_capacity (initial_monitoring_capacity p) a, r'))
      agent_id r5 in
  (ls ++ os ++ bs ++ fs ++ cs ++ aus, r6).

(** A scheduled intervention record [{step, type, intensity}]. *)
Record Intervention : Type := mkIntervention {
  iv_step : nat;
  iv_type : string;
  iv_intensity : Q
}.

Section Construction.

(** The output stream of [random.Random] once seeded with [s]. *)
Variable seeded_stream : Z -> nat -> Q.

(** [nx.watts_strogatz_graph(n, k, p, seed)], which draws from a
    generator of its own seeded with [seed]. *)
Variable watts_strogatz_graph : nat -> nat -> Q -> Z -> Graph.

(** [AIEMModel.__init__] with a seed. *)
Definition AIEMModel_init (p : Params) : AIEMModel :=
  let r := mkRandom (seeded_stream (seed p)) O in
  let G :=
    watts_strogatz_graph (total_agents p) (network_k p) (network_p p)
                         (seed p) in
  let (ags, r') := _create_agents p r in
  mkModel ags G 0%Z 0 0%Z true r' [] 0%Z.

(** The interventions of [run_simulation] due at [step]. *)
Definition apply_scheduled (interventions : list Intervention) (step : nat)
  (m : AIEMModel) : AIEMModel :=
  fold_left
    (fun m iv =>
       if (iv_step iv =? step)%nat then
         apply_policy_intervention (iv_type iv) (iv_intensity iv) m
       else m)
    interventions m.

(** The loop of [run_simulation], [step] counting up. *)
Fixpoint run_steps (steps_left step : nat)
  (interventions : list Intervention) (g : Random) (m : AIEMModel)
  : result AIEMModel * Random :=
  match steps_left with
  | O => (Ok m, g)
  | S k =>
      let m1 := apply_scheduled interventions step m in
      let (r, g') := AIEMModel_step g m1 in
      match r with
      | Ok m2 => run_steps k (S step) interventions g' m2
      | Raise e => (Raise e, g')
      end
  end.

(** [run_simulation]: [g] is the module-level generator as the process
    finds it. *)
Definition run_simulation (p : Params) (steps : nat)
  (interventions : list Intervention) (g : Random)
  : result AIEMModel * Random :=
  run_steps steps O interventions g (AIEMModel_init p).

(** The Metrics table of a finished run. *)
Definition metrics_table (r : result AIEMModel * Random)
  : option (list MetricsRow) :=
  match fst r with
  | Ok m => Some (datacollector m)
  | Raise _ => None
  end.

(** The generator returned a graph on the nodes [0 .. n-1]. *)
Definition valid_graph (p : Params) : Prop :=
  nodes (watts_strogatz_graph (total_agents p) (network_k p) (network_p p)
                              (seed p))
  = seq 0 (total_agents p).

(** The parameters and the seeded draws are in the unit interval. *)
Definition unit_params (p : Params) : Prop :=
  in01 (economic_stress_level p) /\ in01 (initial_monitoring_capacity p)
  /\ forall k, in01 (seeded_stream (seed p) k).

End Construction.

(** *** Traces of engine calls *)

Inductive Event : Type :=
| EvStep (agent_list : list nat)
| EvPolicy (intervention_type : string) (intensity : Q).

Definition exec_event (e : Event) (m : AIEMModel) : result AIEMModel :=
  match e with
  | EvStep agent_list => step_in_order agent_list m
  | EvPolicy t x => Ok (apply_policy_intervention t x m)
  end.

Definition exec (es : list Event) (m : AIEMModel) : result AIEMModel :=
  for_each es exec_event m.

(** * Predicates, invariants and concrete engines *)

(** The part of an agent the arrest pathway reads and writes. *)
Record Skel : Set := mkSkel {
  sk_id : nat;
  sk_role : Role;
  sk_active : bool;
  sk_arrests : Z
}.

Definition skel (a : Agent) : Skel :=
  mkSkel (unique_id a) (role a) (active a) (arrest_count a).

(** Registry and network agree: ids are the registry positions, an agent
    is active exactly when it has fewer than two arrests and exactly when
    its node is in the graph, Authorities are active, and a non-empty
    registry has an active agent. *)
Record wf (n : nat) (sk : list Skel) (G : Graph) : Prop := mk_wf {
  wf_len : length sk = n;
  wf_ids : forall k s, nth_error sk k = Some s -> sk_id s = k;
  wf_arrest : forall k s, nth_error sk k = Some s ->
                          (sk_active s = true <-> (sk_arrests s < 2)%Z);
  wf_node : forall k s, nth_error sk k = Some s ->
                        (sk_active s = true <-> In k (nodes G));
  wf_sub : forall v, In v (nodes G) -> (v < n)%nat;
  wf_nodup : NoDup (nodes G);
  wf_auth : forall k s, nth_error sk k = Some s ->
                        sk_role s = Authority -> sk_active s = true;
  wf_live : (0 < n)%nat -> exists k s, nth_error sk k = Some s
                                       /\ sk_active s = true
}.

(** What one effective arrest does to an agent. *)
Definition arrest_sk (s : Skel) : Skel :=
  let c := (sk_arrests s + 1)%Z in
  mkSkel (sk_id s) (sk_role s) (if (2 <=? c)%Z then false else sk_active s) c.

Definition arrest_graph (s : Skel) (G G' : Graph) : Prop :=
  if (2 <=? sk_arrests s + 1)%Z
  then nodes G' = filter (fun v => negb (v =? sk_id s)%nat) (nodes G)
  else G' = G.

Definition bounded_extra (x : Extra) : Prop :=
  match x with
  | OperativeX es => in01 es
  | CommunityMemberX v rp => in01 v /\ in01 rp
  | AuthorityX mc _ => in01 mc
  | _ => True
  end.

(** Every clamped attribute of the agent is in [[0,1]]; [resources] and
    [intervention_resources] are not clamped. *)
Record bounded_agent (a : Agent) : Prop := mk_bounded {
  b_legitimacy : in01 (legitimacy a);
  b_risk_tolerance : in01 (risk_tolerance a);
  b_social_capital : in01 (social_capital a);
  b_detection_exposure : in01 (detection_exposure a);
  b_extra : bounded_extra (extra a)
}.

Definition bounded (m : AIEMModel) : Prop := Forall bounded_agent (agents m).

Definition row_illicit (r : MetricsRow) : nat :=
  (ActiveLeaders r + ActiveOperatives r + ActiveBrokers r)%nat.

(** [B] says whether boundedness of the attributes is part of the
    invariant. *)
Record Inv (n : nat) (B : bool) (m : AIEMModel) : Prop := mk_Inv {
  inv_wf : wf n (map skel (agents m)) (network m);
  inv_calls : arrests_this_step m = intervene_calls m;
  inv_nonneg : (0 <= arrests_this_step m)%Z;
  inv_running :
    running m = forallb (fun r => (0 <? row_illicit r)%nat) (datacollector m);
  inv_bounded : B = true -> bounded m
}.

(** The part of the state the invariant reads, bounds aside. *)
Record frame_eq (m m' : AIEMModel) : Prop := mk_frame {
  fr_skel : map skel (agents m') = map skel (agents m);
  fr_network : network m' = network m;
  fr_arrests : arrests_this_step m' = arrests_this_step m;
  fr_calls : intervene_calls m' = intervene_calls m;
  fr_running : running m' = running m;
  fr_data : datacollector m' = datacollector m
}.

(** [m'] extends [m]: same frame, and bounded if [m] was. *)
Definition ext (m m' : AIEMModel) : Prop :=
  frame_eq m m' /\ (bounded m -> bounded m').

(** [running] and the recorded rows are untouched. *)
Definition quiet (m m' : AIEMModel) : Prop :=
  running m' = running m /\ datacollector m' = datacollector m.

(** What an effective call of [intervene_agent] does to its target. *)
Definition arrest_agent (a : Agent) : Agent :=
  let c := (arrest_count a + 1)%Z in
  if (2 <=? c)%Z then set_active false (set_arrest_count c a)
  else set_arrest_count c a.

(** The loop invariant of the scan run by the Authority at position [i]. *)
Definition scanning (n : nat) (B : bool) (i : nat) (m0 m : AIEMModel)
  : Prop :=
  Inv n B m /\ role (agent_at i m) = Authority /\ quiet m0 m.

(** The intensities of a trace are non-negative. *)
Definition nonneg_event (e : Event) : Prop :=
  match e with
  | EvStep _ => True
  | EvPolicy _ x => 0 <= x
  end.

(** Every draw of the generator is in the unit interval. *)
Definition unit_stream (r : Random) : Prop := forall k, in01 (draws r k).

(** A freshly created agent. *)
Definition fresh (a : Agent) : Prop :=
  active a = true /\ arrest_count a = 0%Z.

(** What [_create_agents] needs of a class constructor. *)
Record good_init (ok : Prop) (mk : nat -> Random -> Agent * Random)
  : Prop := mk_good {
  gi_id : forall uid r, unique_id (fst (mk uid r)) = uid;
  gi_fresh : forall uid r, fresh (fst (mk uid r));
  gi_draws : forall uid r, draws (snd (mk uid r)) = draws r;
  gi_bounded : forall uid r, ok -> unit_stream r ->
                             bounded_agent (fst (mk uid r))
}.

(** The agent a transfer goes to, if any. *)
Definition recipient (m : AIEMModel) (neighbor_id : nat) : option nat :=
  match get_agent_by_id m neighbor_id with
  | Some j => if is_operative_or_broker (agent_at j m) then Some j else None
  | None => None
  end.

(** The part of an agent the choice of recipients reads. *)
Definition shape (m : AIEMModel) : list (nat * Extra) :=
  map (fun a => (unique_id a, extra a)) (agents m).

(** How many of the ids in [l] resolve to the recipient [j], and how many
    resolve to a recipient at all. *)
Definition count_to (m : AIEMModel) (j : nat) (l : list nat) : nat :=
  length (filter (fun x => match recipient m x with
                           | Some j' => (j' =? j)%nat
                           | None => false
                           end) l).

Definition count_recipients (m : AIEMModel) (l : list nat) : nat :=
  length (filter (fun x => match recipient m x with
                           | Some _ => true
                           | None => false
                           end) l).

(** A Leader with an Operative and a Facilitator as neighbours. *)
Definition c2_model : AIEMModel :=
  mkModel
    [ mkAgent 0 LeaderX 1 (1#2) (1#2) (1#2) (1#2) true 0%Z;
      mkAgent 1 (OperativeX (1#2)) 0 (1#2) (1#2) (1#2) (1#2) true 0%Z;
      mkAgent 2 FacilitatorX 0 (1#2) (1#2) (1#2) (1#2) true 0%Z ]
    [ (0%nat, [1%nat; 2%nat]); (1%nat, [0%nat]); (2%nat, [0%nat]) ]
    0%Z 0 0%Z true (mkRandom (fun _ => 1#2) O) [] 0%Z.

(** Every engine field but the registry. *)
Definition same_engine (m m' : AIEMModel) : Prop :=
  length (agents m') = length (agents m)
  /\ network m' = network m
  /\ arrests_this_step m' = arrests_this_step m
  /\ recent_arrest_rate m' = recent_arrest_rate m
  /\ reports_this_step m' = reports_this_step m
  /\ running m' = running m
  /\ random m' = random m
  /\ datacollector m' = datacollector m.

(** A CommunityMember alone in the engine. *)
Definition c7_model : AIEMModel :=
  mkModel
    [ mkAgent 0 (CommunityMemberX (1#2) (1#2)) (1#2) (8#10) (1#2) (1#2) (1#2)
              true 0%Z ]
    [ (0%nat, []) ]
    0%Z 0 0%Z true (mkRandom (fun _ => 1#2) O) [] 0%Z.

(** The ring lattice on [n] nodes: what the small-world generator
    returns for [k = 2] and [p = 0]. *)
Definition ring_neighbors (n v : nat) : list nat :=
  nodup Nat.eq_dec
    (filter (fun w => negb (w =? v)%nat)
            [((v + n - 1) mod n)%nat; ((v + 1) mod n)%nat]).

Definition ring_graph (n k : nat) (p : Q) (s : Z) : Graph :=
  map (fun v => (v, ring_neighbors n v)) (seq 0 n).

(** A seeded stream that is high while the agents are created and zero
    afterwards, so that every scan of an Authority arrests. *)
Definition demo_stream (s : Z) (k : nat) : Q :=
  if (k <? 20)%nat then 9#10 else 0.

(** One Leader, one Operative, one Authority. *)
Definition demo_params : Params :=
  mkParams 1 1 0 0 0 1 2 0 (5#10) (5#10) 7.

Definition demo_trace : list Event :=
  [ EvStep [2%nat; 0%nat; 1%nat];
    EvPolicy "monitoring" 1;
    EvStep [0%nat; 1%nat; 2%nat];
    EvStep [0%nat; 1%nat; 2%nat] ].

Definition demo_init : AIEMModel :=
  AIEMModel_init demo_stream ring_graph demo_params.

(** An engine whose only agent has been deactivated. *)
Definition c4_model : AIEMModel :=
  mkModel
    [ mkAgent 0 (OperativeX (1#2)) (1#2) (1#2) (1#2) (1#2) (1#2) false 2%Z ]
    [] 0%Z 0 0%Z true (mkRandom (fun _ => 1#2) O) [] 0%Z.

(** An Authority at [monitoring_capacity = 0.5]. *)
Definition c8_model : AIEMModel :=
  mkModel
    [ mkAgent 0 (AuthorityX (5#10) 1) (1#2) (1#2) (1#2) (1#2) (1#2) true 0%Z ]
    [ (0%nat, []) ]
    0%Z 0 0%Z true (mkRandom (fun _ => 1#2) O) [] 0%Z.

(** One Leader and one Operative on an edge; the Operative starts with
    resources 0.25 and risk tolerance 0.9. *)
Definition c1_params : Params :=
  mkParams 1 1 0 0 0 0 2 0 (5#10) (5#10) 42.

Definition c1_stream (s : Z) (k : nat) : Q :=
  if (k =? 8)%nat then 1#6 else if (k =? 10)%nat then 9#10 else 1#2.

(** The number of draws [_create_agents] takes from the seeded generator:
    five per agent and the extra ones of its class. *)
Definition draws_used (p : Params) : nat :=
  (8 * n_leaders p + 6 * n_operatives p + 6 * n_brokers p
   + 7 * n_facilitators p + 8 * n_community_members p
   + 5 * n_authorities p)%nat.

(** The configured population of a role. *)
Definition n_of_role (p : Params) (r : Role) : nat :=
  match r with
  | Leader => n_leaders p
  | Operative => n_operatives p
  | Broker => n_brokers p
  | Facilitator => n_facilitators p
  | CommunityMember => n_community_members p
  | Authority => n_authorities p
  end.

(** The class attributes the constructor overwrites or fixes. *)
Definition extras_as_configured (p : Params) (a : Agent) : Prop :=
  match extra a with
  | OperativeX es => es = economic_stress_level p
  | AuthorityX mc ir => mc = initial_monitoring_capacity p /\ ir = 1
  | _ => True
  end.

Definition between (lo hi x : Q) : Prop := lo <= x /\ x <= hi.

(** The ranges the class constructors draw the attributes from. *)
Definition init_range (a : Agent) : Prop :=
  match extra a with
  | LeaderX =>
      between (5#10) 1 (resources a) /\ between 0 1 (legitimacy a)
      /\ between (4#10) 1 (social_capital a)
      /\ between (1#10) (5#10) (detection_exposure a)
  | OperativeX _ | AuthorityX _ _ =>
      between (1#10) 1 (resources a) /\ between 0 1 (legitimacy a)
      /\ between 0 1 (social_capital a)
      /\ between 0 1 (detection_exposure a)
  | BrokerX =>
      between (1#10) 1 (resources a) /\ between 0 1 (legitimacy a)
      /\ between (5#10) 1 (social_capital a)
      /\ between 0 1 (detection_exposure a)
  | FacilitatorX =>
      between (1#10) 1 (resources a) /\ between (5#10) 1 (legitimacy a)
      /\ between 0 1 (social_capital a)
      /\ between 0 (3#10) (detection_exposure a)
  | CommunityMemberX v rp =>
      between (1#10) 1 (resources a) /\ between (7#10) 1 (legitimacy a)
      /\ between 0 1 (social_capital a)
      /\ between 0 1 (detection_exposure a)
      /\ between 0 1 v /\ between 0 1 rp
  end
  /\ between 0 1 (risk_tolerance a).

(** The subgraph on the nodes [keep] accepts. *)
Definition restrict (keep : nat -> bool) (G : Graph) : Graph :=
  map (fun p => (fst p, filter keep (snd p)))
      (filter (fun p => keep (fst p)) G).

(** What the arrest pathway can see and change: the registry, the
    network and the arrest counter of the step. *)
Definition World : Type := (list Agent * Graph * Z)%type.

Definition world (m : AIEMModel) : World :=
  (agents m, network m, arrests_this_step m).

(** An agent later in a run: same id and role, not reactivated, no fewer
    arrests, no more than two unless it had more, and deactivated in
    between only if its role is Leader, Operative or Broker. *)
Definition grows (s s' : Skel) : Prop :=
  sk_id s' = sk_id s /\ sk_role s' = sk_role s
  /\ (sk_active s' = true -> sk_active s = true)
  /\ (sk_arrests s <= sk_arrests s')%Z
  /\ (sk_arrests s' <= Z.max (sk_arrests s) 2)%Z
  /\ (sk_active s = true -> sk_active s' = false ->
      is_illicit (sk_role s) = true).

(** A world later in a run: every agent has grown and the network is a
    subgraph of the earlier one. *)
Definition evolves (w w' : World) : Prop :=
  Forall2 grows (map skel (fst (fst w))) (map skel (fst (fst w')))
  /\ exists keep, snd (fst w') = restrict keep (snd (fst w)).

(** Without an Authority in the registry nothing the arrest pathway
    reads or writes changes. *)
Definition unpoliced (w w' : World) : Prop :=
  Forall (fun a => role a <> Authority) (fst (fst w)) ->
  map skel (fst (fst w')) = map skel (fst (fst w))
  /\ snd (fst w') = snd (fst w) /\ snd w' = snd w.

(** Every neighbour list of the graph stays below [n]. *)
Definition closed_below (n : nat) (G : Graph) : Prop :=
  forall p w, In p G -> In w (snd p) -> (w < n)%nat.

(** The number of steps of a trace. *)
Definition steps_in (es : list Event) : nat :=
  length (filter (fun e => match e with EvStep _ => true | _ => false end) es).

(** The interventions of a schedule due at [step], as engine calls in
    the order of the schedule. *)
Definition policy_events (interventions : list Intervention) (step : nat)
  : list Event :=
  map (fun iv => EvPolicy (iv_type iv) (iv_intensity iv))
      (filter (fun iv => (iv_step iv =? step)%nat) interventions).

(** The engine calls [run_simulation] makes on an engine of [n] agents,
    [g] being the module-level generator the shuffles read. *)
Fixpoint run_trace (n steps_left step : nat)
  (interventions : list Intervention) (g : Random) : list Event :=
  match steps_left with
  | O => []
  | S k =>
      let (agent_list, g') := random_shuffle (seq 0 n) g in
      (policy_events interventions step
       ++ EvStep agent_list :: run_trace n k (S step) interventions g')%list
  end.

(** The draws of [random.random()] are in [[0, 1)]. *)
Definition half_open (g : Random) : Prop :=
  forall k, 0 <= draws g k /\ draws g k < 1.

(** Every step of a trace activates each of the [n] registered agents
    exactly once. *)
Definition activates_all (n : nat) (e : Event) : Prop :=
  match e with
  | EvStep agent_list => Permutation agent_list (seq 0 n)
  | EvPolicy _ _ => True
  end.

(** The exchange of positions [i] and [j]. *)
Definition transpose (i j k : nat) : nat :=
  if (k =? i)%nat then j else if (k =? j)%nat then i else k.

(** Every draw of the generator is at least [t]. *)
Definition at_least (t : Q) (r : Random) : Prop := forall k, t <= draws r k.

(** No report has been counted and the stream of the seeded generator is
    the same. *)
Definition still (m m' : AIEMModel) : Prop :=
  reports_this_step m' = reports_this_step m
  /\ draws (random m') = draws (random m).

(** As [still], the report counter being watched only when the draws are
    at least [0.1]. *)
Definition hush (t : Q) (m m' : AIEMModel) : Prop :=
  ((1#10) <= t -> reports_this_step m' = reports_this_step m)
  /\ draws (random m') = draws (random m).

(** Nothing the arrest pathway reads has changed, and nothing [hush]
    watches. *)
Definition calm (t : Q) (m m' : AIEMModel) : Prop :=
  ext m m' /\ hush t m m'.

(** The invariant with bounds, on an engine whose seeded draws are at
    least [t]. *)
Definition steady (n : nat) (t : Q) (m : AIEMModel) : Prop :=
  Inv n true m /\ at_least t (random m).

(** A relation holds of the result, if there is one. *)
Definition passes (R : AIEMModel -> AIEMModel -> Prop) (m : AIEMModel)
  (r : result AIEMModel) : Prop :=
  match r with
  | Ok m' => R m m'
  | Raise _ => True
  end.

(** A row without arrests, and without reports when the draws are at
    least [0.1]. *)
Definition calm_row (t : Q) (r : MetricsRow) : Prop :=
  ArrestsThisStep r = 0%Z /\ ((1#10) <= t -> ReportsThisStep r = 0%Z).



(** How an agent may differ between two moments of a run.  Ids, roles
    and [vulnerability] stay; [legitimacy] moves for Facilitators only;
    [resources] go down only for Leaders and Facilitators, up only for
    Operatives, Brokers and CommunityMembers, and stay for Authorities.
    With [q] the levers of the interventions stay as well, and with them
    the resources of CommunityMembers. *)
Definition flows (q : bool) (a a' : Agent) : Prop :=
  unique_id a' = unique_id a /\ role a' = role a
  /\ vulnerability a' = vulnerability a
  /\ (role a <> Facilitator -> legitimacy a' = legitimacy a)
  /\ match role a with
     | Leader | Facilitator => resources a' <= resources a
     | Operative | Broker => resources a <= resources a'
     | CommunityMember =>
         if q then resources a' == resources a
         else resources a <= resources a'
     | Authority => resources a' == resources a
     end
  /\ (q = true ->
      economic_stress a' = economic_stress a
      /\ monitoring_capacity a' = monitoring_capacity a
      /\ reporting_propensity a' = reporting_propensity a).

Definition drift (q : bool) (m m' : AIEMModel) : Prop :=
  Forall2 (flows q) (agents m) (agents m').

(** A trace of steps, without interventions. *)
Definition steps_only (es : list Event) : Prop :=
  Forall (fun e => match e with EvStep _ => True | EvPolicy _ _ => False end)
         es.

(** * Verification *)

(** ** Floats *)

Lemma Qltb_true (a b : Q) : Qltb a b = true <-> a < b.
Proof.
  unfold Qltb. rewrite Qlt_alt.
  destruct (a ?= b); intuition congruence.
Qed.

Lemma Qltb_false (a b : Q) : Qltb a b = false <-> b <= a.
Proof.
  split; intro H.
  - apply Qnot_lt_le. intro L. apply Qltb_true in L. congruence.
  - destruct (Qltb a b) eqn:E; trivial.
    apply Qltb_true in E. exfalso. apply (Qlt_not_le _ _ E H).
Qed.

Lemma py_min_1_in01 (x : Q) : 0 <= x -> in01 (py_min 1 x).
Proof.
  intro H. unfold py_min, in01.
  destruct (Qltb x 1) eqn:E.
  - apply Qltb_true in E. split; [assumption | apply Qlt_le_weak; assumption].
  - split; lra.
Qed.

Lemma py_min_1_le (x : Q) : py_min 1 x <= 1.
Proof.
  unfold py_min. destruct (Qltb x 1) eqn:E.
  - apply Qltb_true in E. lra.
  - lra.
Qed.

Lemma py_max_0_in01 (x : Q) : x <= 1 -> in01 (py_max 0 x).
Proof.
  intro H. unfold py_max, in01.
  destruct (Qltb 0 x) eqn:E.
  - apply Qltb_true in E. split; lra.
  - split; lra.
Qed.

Lemma Qnat_S (n : nat) : Qnat (S n) == Qnat n + 1.
Proof.
  unfold Qnat. rewrite Nat2Z.inj_succ. unfold Z.succ.
  rewrite inject_Z_plus. reflexivity.
Qed.

Lemma Qnat_pos (n : nat) : (0 < n)%nat -> 0 < Qnat n.
Proof.
  intro H. unfold Qnat. change 0 with (inject_Z 0).
  rewrite <- Zlt_Qlt. lia.
Qed.

Lemma Qsum_in01 (l : list Q) :
  Forall in01 l -> 0 <= Qsum l /\ Qsum l <= Qnat (length l).
Proof.
  induction 1 as [|x l [Hx0 Hx1] _ [IH0 IH1]]; simpl.
  - split; [apply Qle_refl | discriminate].
  - rewrite Qnat_S. split; lra.
Qed.

Lemma np_mean_in01 (l : list Q) :
  l <> [] -> Forall in01 l -> in01 (np_mean l).
Proof.
  intros Hne Hl. destruct (Qsum_in01 l Hl) as [H0 H1].
  assert (Hp : 0 < Qnat (length l)).
  { apply Qnat_pos. destruct l; [congruence | simpl; lia]. }
  unfold np_mean. fold (Qnat (length l)). split.
  - apply Qle_shift_div_l; [assumption | lra].
  - apply Qle_shift_div_r; [assumption | lra].
Qed.

(** ** Lists updated in place *)

Lemma length_upd {A : Type} (i : nat) (f : A -> A) (l : list A) :
  length (upd i f l) = length l.
Proof.
  revert i. induction l as [|x t IH]; intros [|j]; simpl; auto.
Qed.

Lemma nth_error_upd_eq {A : Type} (i : nat) (f : A -> A) (l : list A) :
  nth_error (upd i f l) i = option_map f (nth_error l i).
Proof.
  revert i. induction l as [|x t IH]; intros [|j]; simpl; auto.
Qed.

Lemma nth_error_upd_neq {A : Type} (i k : nat) (f : A -> A) (l : list A) :
  i <> k -> nth_error (upd i f l) k = nth_error l k.
Proof.
  revert i k. induction l as [|x t IH]; intros [|j] [|k] H; simpl; auto.
  congruence.
Qed.

Lemma map_upd_same {A B : Type} (g : A -> B) (i : nat) (f : A -> A)
  (l : list A) :
  (forall x, g (f x) = g x) -> map g (upd i f l) = map g l.
Proof.
  intro H. revert i. induction l as [|x t IH]; intros [|j]; simpl; auto.
  - now rewrite H.
  - now rewrite IH.
Qed.

Lemma map_upd {A B : Type} (g : A -> B) (h : B -> B) (i : nat) (f : A -> A)
  (l : list A) :
  (forall x, g (f x) = h (g x)) -> map g (upd i f l) = upd i h (map g l).
Proof.
  intro H. revert i. induction l as [|x t IH]; intros [|j]; simpl; auto.
  - now rewrite H.
  - now rewrite IH.
Qed.

Lemma Forall_upd {A : Type} (P : A -> Prop) (i : nat) (f : A -> A)
  (l : list A) :
  Forall P l -> (forall x, In x l -> P x -> P (f x)) -> Forall P (upd i f l).
Proof.
  intros Hl. revert i. induction Hl as [|x t Hx Ht IH]; intros [|j] Hf; simpl.
  - constructor.
  - constructor.
  - constructor; [apply Hf; simpl; auto | assumption].
  - constructor; [assumption | apply IH; intros; apply Hf; simpl; auto].
Qed.

Lemma nth_error_nth_default {A : Type} (l : list A) (i : nat) (d x : A) :
  nth_error l i = Some x -> nth i l d = x.
Proof.
  revert i. induction l as [|y t IH]; intros [|j]; simpl; try congruence.
  apply IH.
Qed.

Lemma nth_error_of_lt {A : Type} (l : list A) (i : nat) (d : A) :
  (i < length l)%nat -> nth_error l i = Some (nth i l d).
Proof.
  revert i. induction l as [|y t IH]; intros [|j]; simpl; try lia; auto.
  intro H. apply IH. lia.
Qed.

Lemma Qsum_upd (i : nat) (f : Q -> Q) (d : Q) (l : list Q) :
  (i < length l)%nat ->
  Qsum (upd i f l) == Qsum l + (f (nth i l d) - nth i l d).
Proof.
  revert i. induction l as [|x t IH]; intros [|j] H; simpl in *; try lia.
  - lra.
  - rewrite (IH j) by lia. lra.
Qed.

Lemma upd_upd {A : Type} (i : nat) (f g : A -> A) (l : list A) :
  upd i f (upd i g l) = upd i (fun x => f (g x)) l.
Proof.
  revert i. induction l as [|x t IH]; intros [|j]; simpl; auto.
  now rewrite IH.
Qed.

Lemma map_upd_at {A B : Type} (g : A -> B) (h : B -> B) (i : nat)
  (f : A -> A) (l : list A) :
  (forall x, nth_error l i = Some x -> g (f x) = h (g x)) ->
  map g (upd i f l) = upd i h (map g l).
Proof.
  revert i. induction l as [|x t IH]; intros [|j] H; simpl; auto.
  - rewrite (H x); auto.
  - rewrite IH; auto.
Qed.

(** ** Network lemmas *)

Lemma has_node_In (G : Graph) (n : nat) :
  has_node G n = true <-> In n (nodes G).
Proof.
  unfold has_node, nodes. rewrite existsb_exists, in_map_iff.
  split; intros [p [H1 H2]]; exists p.
  - apply Nat.eqb_eq in H2. auto.
  - split; [assumption | apply Nat.eqb_eq; assumption].
Qed.

Lemma neighbors_Ok (G : Graph) (n : nat) :
  In n (nodes G) -> exists ns, neighbors G n = Ok ns.
Proof.
  intro H. unfold neighbors.
  destruct (find (fun p => (fst p =? n)%nat) G) as [p|] eqn:E.
  - eauto.
  - exfalso. apply in_map_iff in H. destruct H as [p [H1 H2]].
    apply (find_none _ _ E) in H2. apply Nat.eqb_neq in H2. congruence.
Qed.

Lemma neighbors_Raise (G : Graph) (n : nat) (e : Exn) :
  neighbors G n = Raise e -> ~ In n (nodes G).
Proof.
  intros H Hin. destruct (neighbors_Ok G n Hin) as [ns Hns]. congruence.
Qed.

Lemma nodes_remove (G : Graph) (n : nat) :
  nodes (map (fun p => (fst p, filter (fun m => negb (m =? n)%nat) (snd p)))
             (filter (fun p => negb (fst p =? n)%nat) G))
  = filter (fun v => negb (v =? n)%nat) (nodes G).
Proof.
  unfold nodes. induction G as [|p G IH]; simpl; auto.
  destruct (negb (fst p =? n)%nat); simpl; now rewrite IH.
Qed.

Lemma remove_node_Ok (G : Graph) (n : nat) :
  has_node G n = true ->
  exists G', remove_node G n = Ok G'
             /\ nodes G' = filter (fun v => negb (v =? n)%nat) (nodes G).
Proof.
  intro H. unfold remove_node. rewrite H.
  eexists. split; [reflexivity | apply nodes_remove].
Qed.

(** ** The arrest skeleton of the registry *)

Lemma wf_arrest_step (n : nat) (sk : list Skel) (G G' : Graph)
  (j i : nat) (s si : Skel) :
  wf n sk G ->
  nth_error sk j = Some s -> sk_active s = true ->
  is_illicit (sk_role s) = true ->
  nth_error sk i = Some si -> sk_role si = Authority ->
  arrest_graph s G G' ->
  wf n (upd j arrest_sk sk) G'.
Proof.
  intros W Hj Hact Hill Hi Hrole HG.
  assert (Hij : i <> j).
  { intro E. subst i. rewrite Hj in Hi. inversion Hi; subst si.
    rewrite Hrole in Hill. discriminate. }
  assert (Hidj : sk_id s = j) by (apply (wf_ids _ _ _ W _ _ Hj)).
  assert (Hnodes : forall v, In v (nodes G') <->
            (In v (nodes G) /\ ((2 <=? sk_arrests s + 1)%Z = true -> v <> j))).
  { intro v. unfold arrest_graph in HG.
    destruct (2 <=? sk_arrests s + 1)%Z.
    - rewrite HG, filter_In, Hidj, negb_true_iff, Nat.eqb_neq. intuition.
    - subst G'. intuition discriminate. }
  assert (Hget : forall k t, nth_error (upd j arrest_sk sk) k = Some t ->
            (k = j /\ t = arrest_sk s) \/ (k <> j /\ nth_error sk k = Some t)).
  { intros k t Hk. destruct (Nat.eq_dec j k) as [E|E].
    - subst k. rewrite nth_error_upd_eq, Hj in Hk. simpl in Hk.
      inversion Hk. auto.
    - rewrite nth_error_upd_neq in Hk by assumption. auto. }
  constructor.
  - rewrite length_upd. apply (wf_len _ _ _ W).
  - intros k t Hk. destruct (Hget k t Hk) as [[-> ->]|[_ Hk']].
    + simpl. assumption.
    + apply (wf_ids _ _ _ W _ _ Hk').
  - intros k t Hk. destruct (Hget k t Hk) as [[-> ->]|[_ Hk']].
    + simpl. destruct (2 <=? sk_arrests s + 1)%Z eqn:E.
      * apply Z.leb_le in E. split; [discriminate | lia].
      * apply Z.leb_gt in E. split; [lia | auto].
    + apply (wf_arrest _ _ _ W _ _ Hk').
  - intros k t Hk. rewrite Hnodes.
    destruct (Hget k t Hk) as [[-> ->]|[Hne Hk']].
    + simpl. destruct (2 <=? sk_arrests s + 1)%Z eqn:E.
      * split; [discriminate | intros [_ H]; exfalso; apply H; auto].
      * rewrite Hact. split; [|auto]. intros _. split; [|discriminate].
        apply (wf_node _ _ _ W _ _ Hj). assumption.
    + rewrite (wf_node _ _ _ W _ _ Hk'). intuition.
  - intros v Hv. apply Hnodes in Hv. apply (wf_sub _ _ _ W). tauto.
  - unfold arrest_graph in HG. destruct (2 <=? sk_arrests s + 1)%Z.
    + rewrite HG. apply NoDup_filter. apply (wf_nodup _ _ _ W).
    + subst G'. apply (wf_nodup _ _ _ W).
  - intros k t Hk Hr. destruct (Hget k t Hk) as [[-> ->]|[_ Hk']].
    + simpl in Hr. rewrite Hr in Hill. discriminate.
    + apply (wf_auth _ _ _ W _ _ Hk' Hr).
  - intros _. exists i, si. split.
    + rewrite nth_error_upd_neq by auto. assumption.
    + apply (wf_auth _ _ _ W _ _ Hi Hrole).
Qed.

(** ** The engine invariant *)

Lemma ext_refl (m : AIEMModel) : ext m m.
Proof. split; [constructor; reflexivity | auto]. Qed.

Lemma ext_trans (m1 m2 m3 : AIEMModel) : ext m1 m2 -> ext m2 m3 -> ext m1 m3.
Proof.
  intros [[A1 A2 A3 A4 A5 A6] Ab] [[B1 B2 B3 B4 B5 B6] Bb].
  split; [constructor; congruence | auto].
Qed.

Lemma Inv_ext (n : nat) (B : bool) (m m' : AIEMModel) :
  Inv n B m -> ext m m' -> Inv n B m'.
Proof.
  intros [W C N R Bd] [[F1 F2 F3 F4 F5 F6] Fb].
  constructor; try congruence; auto.
Qed.

Lemma ext_update_agent (i : nat) (f : Agent -> Agent) (m : AIEMModel) :
  (forall a, skel (f a) = skel a) ->
  (bounded m -> forall a, bounded_agent a -> bounded_agent (f a)) ->
  ext m (update_agent i f m).
Proof.
  intros Hs Hb. split.
  - constructor; simpl; try reflexivity. apply map_upd_same. assumption.
  - intro Bm. unfold bounded, update_agent; simpl.
    apply Forall_upd; [assumption | intros; apply Hb; assumption].
Qed.

Lemma ext_draw (m : AIEMModel) : ext m (snd (draw m)).
Proof. split; [constructor; reflexivity | auto]. Qed.

Lemma ext_fold_left {A : Type} (f : AIEMModel -> A -> AIEMModel) (l : list A)
  (m : AIEMModel) :
  (forall m x, ext m (f m x)) -> ext m (fold_left f l m).
Proof.
  intro H. revert m. induction l as [|x t IH]; intro m; simpl.
  - apply ext_refl.
  - eapply ext_trans; [apply H | apply IH].
Qed.

Lemma quiet_refl (m : AIEMModel) : quiet m m.
Proof. split; reflexivity. Qed.

Lemma quiet_trans (m1 m2 m3 : AIEMModel) :
  quiet m1 m2 -> quiet m2 m3 -> quiet m1 m3.
Proof. intros [A1 A2] [B1 B2]. split; congruence. Qed.

Lemma ext_quiet (m m' : AIEMModel) : ext m m' -> quiet m m'.
Proof. intros [[_ _ _ _ F5 F6] _]. split; assumption. Qed.

Lemma skel_agent_at (m m' : AIEMModel) (i : nat) :
  map skel (agents m') = map skel (agents m) ->
  skel (agent_at i m') = skel (agent_at i m).
Proof.
  intro H. unfold agent_at.
  rewrite <- !(map_nth skel). now rewrite H.
Qed.

Lemma Inv_length (n : nat) (B : bool) (m : AIEMModel) :
  Inv n B m -> length (agents m) = n.
Proof.
  intro I. rewrite <- (wf_len _ _ _ (inv_wf _ _ _ I)). now rewrite length_map.
Qed.

Lemma Inv_skel_at (n : nat) (B : bool) (m : AIEMModel) (i : nat) :
  Inv n B m -> (i < n)%nat ->
  nth_error (map skel (agents m)) i = Some (skel (agent_at i m)).
Proof.
  intros I Hi. apply map_nth_error. apply nth_error_of_lt.
  now rewrite (Inv_length _ _ _ I).
Qed.

Lemma Inv_unique_id (n : nat) (B : bool) (m : AIEMModel) (i : nat) :
  Inv n B m -> (i < n)%nat -> unique_id (agent_at i m) = i.
Proof.
  intros I Hi.
  apply (wf_ids _ _ _ (inv_wf _ _ _ I) i (skel (agent_at i m))).
  apply (Inv_skel_at _ _ _ _ I Hi).
Qed.

Lemma Inv_lookup (n : nat) (B : bool) (m : AIEMModel) (i : nat) :
  Inv n B m -> (i < n)%nat -> active (agent_at i m) = true ->
  exists ns, neighbors (network m) (unique_id (agent_at i m)) = Ok ns.
Proof.
  intros I Hi Ha. apply neighbors_Ok.
  rewrite (Inv_unique_id _ _ _ _ I Hi).
  apply (wf_node _ _ _ (inv_wf _ _ _ I) i (skel (agent_at i m))).
  - apply (Inv_skel_at _ _ _ _ I Hi).
  - assumption.
Qed.

Lemma find_index_bound (l : list Agent) (x k j : nat) :
  find_index l x k = Some j -> (k <= j /\ j - k < length l)%nat.
Proof.
  revert k. induction l as [|a t IH]; intros k H; simpl in *; [discriminate|].
  destruct (unique_id a =? x)%nat.
  - inversion H; subst. lia.
  - apply IH in H. lia.
Qed.

Lemma find_index_id (l : list Agent) (x k j : nat) (d : Agent) :
  find_index l x k = Some j -> unique_id (nth (j - k) l d) = x.
Proof.
  revert k. induction l as [|a t IH]; intros k H; simpl in *; [discriminate|].
  destruct (unique_id a =? x)%nat eqn:E.
  - inversion H; subst. rewrite Nat.sub_diag. now apply Nat.eqb_eq.
  - pose proof (find_index_bound _ _ _ _ H) as Hb.
    apply IH in H. destruct (j - k)%nat as [|q] eqn:Eq; [lia|].
    replace q with (j - S k)%nat by lia. assumption.
Qed.

Lemma find_index_first (l : list Agent) (k i : nat) (d : Agent) :
  NoDup (map unique_id l) -> (i < length l)%nat ->
  find_index l (unique_id (nth i l d)) k = Some (k + i)%nat.
Proof.
  revert k i. induction l as [|a t IH]; intros k i Hnd Hi; simpl in *; [lia|].
  inversion Hnd as [|? ? Hnotin Hnd']; subst.
  destruct i as [|i].
  - rewrite Nat.eqb_refl. f_equal. lia.
  - destruct (unique_id a =? unique_id (nth i t d))%nat eqn:E.
    + exfalso. apply Hnotin. apply Nat.eqb_eq in E. rewrite E.
      apply in_map. apply nth_In. lia.
    + rewrite IH by (auto; lia). f_equal. lia.
Qed.

Lemma get_agent_by_id_lt (m : AIEMModel) (x j : nat) :
  get_agent_by_id m x = Some j -> (j < length (agents m))%nat.
Proof.
  intro H. apply find_index_bound in H. lia.
Qed.

Lemma In_agent_at (m : AIEMModel) (j : nat) :
  (j < length (agents m))%nat -> In (agent_at j m) (agents m).
Proof. intro H. apply nth_In. assumption. Qed.

Lemma Inv_nodup_ids (n : nat) (B : bool) (m : AIEMModel) :
  Inv n B m -> map unique_id (agents m) = seq 0 n.
Proof.
  intro I. pose proof (Inv_length _ _ _ I) as Hl.
  apply (nth_ext _ _ O O).
  - now rewrite length_map, length_seq.
  - intros k Hk. rewrite length_map, Hl in Hk.
    rewrite seq_nth by assumption. simpl.
    change O with (unique_id no_agent) at 1. rewrite map_nth.
    apply (Inv_unique_id _ _ _ _ I Hk).
Qed.

Lemma Inv_get_agent (n : nat) (B : bool) (m : AIEMModel) (j : nat) :
  Inv n B m -> (j < n)%nat ->
  get_agent_by_id m (unique_id (agent_at j m)) = Some j.
Proof.
  intros I Hj. unfold get_agent_by_id, agent_at.
  rewrite find_index_first.
  - reflexivity.
  - rewrite (Inv_nodup_ids _ _ _ I). apply seq_NoDup.
  - now rewrite (Inv_length _ _ _ I).
Qed.

(** ** Agent behaviour keeps the frame and the bounds *)

Ltac bounded_fields :=
  intros;
  match goal with
  | H : bounded_agent _ |- _ => destruct H as [? ? ? ? ?]
  end;
  constructor; simpl; auto.

Lemma bounded_agent_at (m : AIEMModel) (j : nat) :
  bounded m -> (j < length (agents m))%nat -> bounded_agent (agent_at j m).
Proof.
  intros Bm Hj. unfold bounded in Bm. rewrite Forall_forall in Bm.
  apply Bm. apply In_agent_at. assumption.
Qed.

Lemma neighbor_legitimacies_in01 (m : AIEMModel) (ns : list nat) :
  bounded m ->
  Forall in01
    (flat_map (fun n => match get_agent_by_id m n with
                        | Some j => [legitimacy (agent_at j m)]
                        | None => []
                        end) ns).
Proof.
  intro Bm. induction ns as [|x t IH]; simpl; [constructor|].
  apply Forall_app. split; [|assumption].
  destruct (get_agent_by_id m x) as [j|] eqn:E; [|constructor].
  constructor; [|constructor].
  apply b_legitimacy. apply bounded_agent_at; [assumption|].
  apply (get_agent_by_id_lt _ _ _ E).
Qed.

Lemma update_social_capital_ext (n : nat) (B : bool) (i : nat)
  (m : AIEMModel) :
  Inv n B m -> (i < n)%nat -> active (agent_at i m) = true ->
  exists m', update_social_capital i m = Ok m' /\ ext m m'.
Proof.
  intros I Hi Ha. unfold update_social_capital.
  destruct (Inv_lookup _ _ _ _ I Hi Ha) as [ns ->]. simpl.
  destruct (0 <? length ns)%nat; [|eexists; split; [reflexivity|apply ext_refl]].
  set (legs := flat_map _ ns).
  assert (Hlegs : bounded m -> Forall in01 legs)
    by (intro; apply neighbor_legitimacies_in01; assumption).
  destruct legs as [|q rest] eqn:E;
    [eexists; split; [reflexivity|apply ext_refl]|].
  eexists; split; [reflexivity|].
  apply ext_update_agent; [reflexivity|].
  intros Bm a Ba.
  assert (Hm : in01 (np_mean (q :: rest)))
    by (apply np_mean_in01; [discriminate | auto]).
  destruct Ba as [? ? [? ?] ? ?]. destruct Hm.
  constructor; simpl; auto. split; lra.
Qed.

Lemma adjust_risk_from_environment_ext (i : nat) (m : AIEMModel) :
  ext m (adjust_risk_from_environment i m).
Proof.
  unfold adjust_risk_from_environment.
  destruct (Qltb (1#10) (recent_arrest_rate m)); [|apply ext_refl].
  apply ext_update_agent; [reflexivity|].
  intros _ a [? [? ?] ? ? ?]. constructor; simpl; auto. split; lra.
Qed.

Lemma AbstractAgent_step_ext (n : nat) (B : bool) (i : nat) (m : AIEMModel) :
  Inv n B m -> (i < n)%nat ->
  exists m', AbstractAgent_step i m = Ok m' /\ ext m m'.
Proof.
  intros I Hi. unfold AbstractAgent_step.
  destruct (active (agent_at i m)) eqn:Ha; simpl.
  - destruct (update_social_capital_ext _ _ _ _ I Hi Ha) as [m1 [-> E1]].
    simpl. eexists; split; [reflexivity|].
    eapply ext_trans; [exact E1 | apply adjust_risk_from_environment_ext].
  - eexists; split; [reflexivity | apply ext_refl].
Qed.

Lemma distribute_to_ext (i : nat) (amount : Q) (k : nat) (m : AIEMModel)
  (x : nat) : ext m (distribute_to i amount k m x).
Proof.
  unfold distribute_to. destruct (get_agent_by_id m x); [|apply ext_refl].
  destruct (is_operative_or_broker _); [|apply ext_refl].
  eapply ext_trans; apply ext_update_agent;
    try reflexivity; bounded_fields.
Qed.

Lemma distribute_resources_ext (n : nat) (B : bool) (i : nat)
  (m : AIEMModel) :
  Inv n B m -> (i < n)%nat -> active (agent_at i m) = true ->
  exists m', distribute_resources i m = Ok m' /\ ext m m'.
Proof.
  intros I Hi Ha. unfold distribute_resources.
  destruct (Inv_lookup _ _ _ _ I Hi Ha) as [ns ->]. simpl.
  destruct (_ && _); eexists; (split; [reflexivity|]).
  - apply ext_fold_left. intros. apply distribute_to_ext.
  - apply ext_refl.
Qed.

Lemma perform_abstract_activity_ext (i : nat) (m : AIEMModel) :
  ext m (perform_abstract_activity i m).
Proof.
  unfold perform_abstract_activity.
  destruct (_ && _); [|apply ext_refl].
  pose proof (ext_draw m) as Hd. destruct (draw m) as [u m1]. simpl in Hd.
  eapply ext_trans; [exact Hd|].
  destruct (Qltb u _); apply ext_update_agent; try reflexivity.
  - bounded_fields.
  - intros _ a [? ? ? [? ?] ?]. constructor; simpl; auto.
    apply py_min_1_in01. lra.
Qed.

Lemma mediate_connections_ext (n : nat) (B : bool) (i : nat) (m : AIEMModel) :
  Inv n B m -> (i < n)%nat -> active (agent_at i m) = true ->
  exists m', mediate_connections i m = Ok m' /\ ext m m'.
Proof.
  intros I Hi Ha. unfold mediate_connections.
  destruct (Inv_lookup _ _ _ _ I Hi Ha) as [ns ->]. cbn [bind].
  destruct (2 <=? length ns)%nat; eexists; (split; [reflexivity|]).
  - apply ext_update_agent; [reflexivity | bounded_fields].
  - apply ext_refl.
Qed.

Lemma maintain_legitimacy_ext (i : nat) (m : AIEMModel) :
  ext m (maintain_legitimacy i m).
Proof.
  unfold maintain_legitimacy.
  destruct (Qltb _ _); [|apply ext_refl].
  eapply ext_trans; [|eapply ext_trans]; apply ext_update_agent;
    try reflexivity.
  - bounded_fields.
  - intros _ a [[? ?] ? ? ? ?]. constructor; simpl; auto.
    apply py_min_1_in01. lra.
  - intros _ a [? ? ? [? ?] ?]. constructor; simpl; auto.
    apply py_max_0_in01. lra.
Qed.

Lemma report_suspicious_activity_ext (x : nat) (m : AIEMModel) :
  ext m (report_suspicious_activity x m).
Proof.
  unfold report_suspicious_activity.
  set (m1 := set_reports_this_step _ m).
  assert (E1 : ext m m1) by (split; [constructor; reflexivity | auto]).
  destruct (get_agent_by_id m1 x); [|assumption].
  eapply ext_trans; [exact E1|].
  apply ext_update_agent; [reflexivity|].
  intros _ a [? ? ? [? ?] ?]. constructor; simpl; auto.
  apply py_min_1_in01. lra.
Qed.

Lemma consider_neighbor_ext (i : nat) (m : AIEMModel) (x : nat) :
  ext m (consider_neighbor i m x).
Proof.
  unfold consider_neighbor.
  destruct (get_agent_by_id m x); [|apply ext_refl].
  destruct (Qltb _ _); [|apply ext_refl].
  pose proof (ext_draw m) as Hd. destruct (draw m) as [u m1]. simpl in Hd.
  destruct (Qltb u _); [|assumption].
  eapply ext_trans; [exact Hd | apply report_suspicious_activity_ext].
Qed.

Lemma consider_reporting_ext (n : nat) (B : bool) (i : nat) (m : AIEMModel) :
  Inv n B m -> (i < n)%nat -> active (agent_at i m) = true ->
  exists m', consider_reporting i m = Ok m' /\ ext m m'.
Proof.
  intros I Hi Ha. unfold consider_reporting.
  destruct (Inv_lookup _ _ _ _ I Hi Ha) as [ns ->]. simpl.
  eexists; split; [reflexivity|].
  apply ext_fold_left. intros. apply consider_neighbor_ext.
Qed.

(** A step made of [AbstractAgent.step], the [active] guard and a
    role-specific action. *)
Lemma guarded_step_ext (n : nat) (B : bool) (i : nat) (m : AIEMModel)
  (act : nat -> AIEMModel -> result AIEMModel) :
  (forall m1, Inv n B m1 -> active (agent_at i m1) = true ->
              exists m', act i m1 = Ok m' /\ ext m1 m') ->
  Inv n B m -> (i < n)%nat ->
  exists m', (m1 <- AbstractAgent_step i m ;;
              if negb (active (agent_at i m1)) then Ok m1 else act i m1)
             = Ok m' /\ ext m m'.
Proof.
  intros Hact I Hi.
  destruct (AbstractAgent_step_ext _ _ _ _ I Hi) as [m1 [-> E1]]. simpl.
  destruct (active (agent_at i m1)) eqn:Ha; simpl.
  - destruct (Hact m1 (Inv_ext _ _ _ _ I E1) Ha) as [m' [-> E2]].
    eexists; split; [reflexivity | eapply ext_trans; eassumption].
  - eexists; split; [reflexivity | assumption].
Qed.

Lemma Leader_step_ext (n : nat) (B : bool) (i : nat) (m : AIEMModel) :
  Inv n B m -> (i < n)%nat -> exists m', Leader_step i m = Ok m' /\ ext m m'.
Proof.
  intros I Hi. apply (guarded_step_ext n B); auto.
  intros. apply (distribute_resources_ext n B); auto.
Qed.

Lemma Broker_step_ext (n : nat) (B : bool) (i : nat) (m : AIEMModel) :
  Inv n B m -> (i < n)%nat -> exists m', Broker_step i m = Ok m' /\ ext m m'.
Proof.
  intros I Hi. apply (guarded_step_ext n B); auto.
  intros. apply (mediate_connections_ext n B); auto.
Qed.

Lemma CommunityMember_step_ext (n : nat) (B : bool) (i : nat)
  (m : AIEMModel) :
  Inv n B m -> (i < n)%nat ->
  exists m', CommunityMember_step i m = Ok m' /\ ext m m'.
Proof.
  intros I Hi. apply (guarded_step_ext n B); auto.
  intros. apply (consider_reporting_ext n B); auto.
Qed.

Lemma Facilitator_step_ext (n : nat) (B : bool) (i : nat) (m : AIEMModel) :
  Inv n B m -> (i < n)%nat ->
  exists m', Facilitator_step i m = Ok m' /\ ext m m'.
Proof.
  intros I Hi.
  apply (guarded_step_ext n B i m (fun i m => Ok (maintain_legitimacy i m)));
    auto.
  intros. eexists; split; [reflexivity | apply maintain_legitimacy_ext].
Qed.

Lemma Operative_step_ext (n : nat) (B : bool) (i : nat) (m : AIEMModel) :
  Inv n B m -> (i < n)%nat ->
  exists m', Operative_step i m = Ok m' /\ ext m m'.
Proof.
  intros I Hi. unfold Operative_step.
  apply (guarded_step_ext n B i m
           (fun i m1 =>
              Ok (perform_abstract_activity i
                    match economic_stress (agent_at i m1) with
                    | Some es =>
                        if Qltb (7#10) es then
                          update_agent i
                            (fun a => set_risk_tolerance
                               (py_min 1 (risk_tolerance a + (5#100))) a) m1
                        else m1
                    | None => m1
                    end))); auto.
  intros m1 _ _. eexists; split; [reflexivity|].
  eapply ext_trans; [|apply perform_abstract_activity_ext].
  destruct (economic_stress _); [|apply ext_refl].
  destruct (Qltb _ _); [|apply ext_refl].
  apply ext_update_agent; [reflexivity|].
  intros _ a [? [? ?] ? ? ?]. constructor; simpl; auto.
  apply py_min_1_in01. lra.
Qed.

(** ** Arrests *)

Lemma nth_upd_eq {A : Type} (i : nat) (f : A -> A) (l : list A) (d : A) :
  (i < length l)%nat -> nth i (upd i f l) d = f (nth i l d).
Proof.
  intro H. apply nth_error_nth_default.
  rewrite nth_error_upd_eq, (nth_error_of_lt l i d H). reflexivity.
Qed.

Lemma nth_upd_neq {A : Type} (i k : nat) (f : A -> A) (l : list A) (d : A) :
  i <> k -> nth k (upd i f l) d = nth k l d.
Proof.
  revert i k. induction l as [|x t IH]; intros [|j] [|k] H; simpl; auto.
  congruence.
Qed.

(** The state after a call of [intervene_agent] that finds an active
    target at registry position [j]. *)
Lemma intervene_agent_active (x j : nat) (m : AIEMModel) :
  get_agent_by_id m x = Some j -> active (agent_at j m) = true ->
  exists m',
    intervene_agent x m = Ok m'
    /\ agents m' = upd j arrest_agent (agents m)
    /\ arrests_this_step m' = (arrests_this_step m + 1)%Z
    /\ intervene_calls m' = (intervene_calls m + 1)%Z
    /\ reports_this_step m' = reports_this_step m
    /\ recent_arrest_rate m' = recent_arrest_rate m
    /\ running m' = running m
    /\ random m' = random m
    /\ datacollector m' = datacollector m
    /\ (if (2 <=? arrest_count (agent_at j m) + 1)%Z
           && has_node (network m) (unique_id (agent_at j m))
        then nodes (network m')
             = filter (fun v => negb (v =? unique_id (agent_at j m))%nat)
                      (nodes (network m))
        else network m' = network m).
Proof.
  intros Hg Ha. pose proof (get_agent_by_id_lt _ _ _ Hg) as Hj.
  destruct m as [ags G ar rate rp run rnd dc calls].
  unfold intervene_agent, get_agent_by_id, agent_at, update_agent in *.
  simpl in *. rewrite Hg, Ha.
  rewrite (nth_upd_eq j _ ags no_agent Hj). simpl.
  destruct (2 <=? arrest_count (nth j ags no_agent) + 1)%Z eqn:E2; simpl.
  - rewrite upd_upd, nth_upd_eq by assumption. simpl.
    assert (Hagents :
      upd j (fun a => set_active false
                        (set_arrest_count (arrest_count a + 1) a)) ags
      = upd j arrest_agent ags).
    { clear -E2 Hj. revert j E2 Hj.
      induction ags as [|a t IH]; intros [|j] E2 Hj; simpl in *;
        try lia; auto.
      - unfold arrest_agent. rewrite E2. reflexivity.
      - rewrite IH; auto. lia. }
    destruct (has_node G (unique_id (nth j ags no_agent))) eqn:Hn.
    + destruct (remove_node_Ok _ _ Hn) as [G' [-> HG']]. simpl.
      eexists. split; [reflexivity|]. simpl. rewrite Hagents. tauto.
    + eexists. split; [reflexivity|]. simpl. rewrite Hagents. tauto.
  - eexists. split; [reflexivity|]. simpl.
    assert (Hagents :
      upd j (fun a => set_arrest_count (arrest_count a + 1) a) ags
      = upd j arrest_agent ags).
    { clear -E2 Hj. revert j E2 Hj.
      induction ags as [|a t IH]; intros [|j] E2 Hj; simpl in *;
        try lia; auto.
      - unfold arrest_agent. rewrite E2. reflexivity.
      - rewrite IH; auto. lia. }
    rewrite Hagents. tauto.
Qed.

(** A call of [intervene_agent] that finds no agent, or an inactive one,
    only counts as a call. *)
Lemma intervene_agent_inactive (x : nat) (m : AIEMModel) :
  match get_agent_by_id m x with
  | Some j => active (agent_at j m) = false
  | None => True
  end ->
  intervene_agent x m = Ok (set_intervene_calls (intervene_calls m + 1)%Z m).
Proof.
  intro H. unfold intervene_agent.
  change (get_agent_by_id (set_intervene_calls (intervene_calls m + 1) m) x)
    with (get_agent_by_id m x).
  destruct (get_agent_by_id m x) as [j|]; [|reflexivity].
  change (agent_at j (set_intervene_calls (intervene_calls m + 1) m))
    with (agent_at j m).
  rewrite H. reflexivity.
Qed.

Lemma skel_arrest_agent (a : Agent) : skel (arrest_agent a) = arrest_sk (skel a).
Proof.
  unfold arrest_agent, arrest_sk, skel. simpl.
  destruct (2 <=? arrest_count a + 1)%Z; reflexivity.
Qed.

Lemma bounded_arrest_agent (a : Agent) :
  bounded_agent a -> bounded_agent (arrest_agent a).
Proof.
  unfold arrest_agent. destruct (2 <=? arrest_count a + 1)%Z; bounded_fields.
Qed.

Lemma role_arrest_agent (a : Agent) : role (arrest_agent a) = role a.
Proof.
  unfold arrest_agent. destruct (2 <=? arrest_count a + 1)%Z; reflexivity.
Qed.

Lemma ext_roles (m m' : AIEMModel) :
  ext m m' -> map role (agents m') = map role (agents m).
Proof.
  intros [[F _ _ _ _ _] _].
  change role with (fun a => sk_role (skel a)).
  rewrite <- !(map_map skel sk_role). now rewrite F.
Qed.

Lemma role_agent_at (m m' : AIEMModel) (i : nat) :
  map role (agents m') = map role (agents m) ->
  role (agent_at i m') = role (agent_at i m).
Proof.
  intro H. unfold agent_at. rewrite <- !(map_nth role). now rewrite H.
Qed.

Lemma intervene_agent_Inv (n : nat) (B : bool) (i j : nat) (m : AIEMModel) :
  Inv n B m -> (i < n)%nat -> (j < n)%nat ->
  active (agent_at j m) = true ->
  is_illicit (role (agent_at j m)) = true ->
  role (agent_at i m) = Authority ->
  exists m', intervene_agent (unique_id (agent_at j m)) m = Ok m'
             /\ Inv n B m'
             /\ map role (agents m') = map role (agents m)
             /\ quiet m m'.
Proof.
  intros I Hi Hj Ha Hill Hrole.
  destruct (intervene_agent_active _ _ _ (Inv_get_agent _ _ _ _ I Hj) Ha)
    as [m' [-> [Hag [Har [Hca [_ [_ [Hru [_ [Hdc HG]]]]]]]]]].
  exists m'. split; [reflexivity|].
  destruct I as [W C N R Bd].
  assert (I : Inv n B m) by (constructor; assumption).
  split; [constructor|split; [|split; assumption]].
  - rewrite Hag.
    rewrite (map_upd_at skel arrest_sk)
      by (intros; apply skel_arrest_agent).
    apply (wf_arrest_step n _ (network m) (network m') j i
             (skel (agent_at j m)) (skel (agent_at i m))); auto.
    + apply (Inv_skel_at _ _ _ _ I Hj).
    + apply (Inv_skel_at _ _ _ _ I Hi).
    + unfold arrest_graph. simpl.
      destruct (2 <=? arrest_count (agent_at j m) + 1)%Z; simpl in HG; auto.
      assert (Hn : has_node (network m) (unique_id (agent_at j m)) = true).
      { apply has_node_In. rewrite (Inv_unique_id _ _ _ _ I Hj).
        apply (wf_node _ _ _ W j (skel (agent_at j m))).
        - apply (Inv_skel_at _ _ _ _ I Hj).
        - assumption. }
      rewrite Hn in HG. assumption.
  - congruence.
  - lia.
  - congruence.
  - intro HB. unfold bounded. rewrite Hag.
    apply Forall_upd; [apply Bd; assumption|].
    intros. apply bounded_arrest_agent. assumption.
  - rewrite Hag. apply map_upd_same. apply role_arrest_agent.
Qed.

(** ** The Authority's scan and one agent activation *)

Lemma for_each_inv {A : Type} (P : AIEMModel -> Prop) (l : list A)
  (body : A -> AIEMModel -> result AIEMModel) (m : AIEMModel) :
  (forall x m, In x l -> P m -> exists m', body x m = Ok m' /\ P m') ->
  P m -> exists m', for_each l body m = Ok m' /\ P m'.
Proof.
  revert m. induction l as [|x t IH]; intros m H Pm; simpl.
  - eauto.
  - destruct (H x m (or_introl eq_refl) Pm) as [m1 [-> P1]]. simpl.
    apply IH; [|assumption]. intros y m2 Hy. apply H. right. assumption.
Qed.

Lemma skel_map_intervention_resources (f : Q -> Q) (a : Agent) :
  skel (map_intervention_resources f a) = skel a.
Proof.
  unfold map_intervention_resources, skel, role.
  destruct a as [uid x ? ? ? ? ? ? ?]; destruct x; reflexivity.
Qed.

Lemma bounded_map_intervention_resources (f : Q -> Q) (a : Agent) :
  bounded_agent a -> bounded_agent (map_intervention_resources f a).
Proof.
  unfold map_intervention_resources.
  destruct a as [uid x ? ? ? ? ? ? ?]; destruct x; simpl; auto.
  intros [? ? ? ? ?]. constructor; simpl in *; auto.
Qed.

Lemma ext_intervention_resources (i : nat) (f : Q -> Q) (m : AIEMModel) :
  ext m (update_agent i (map_intervention_resources f) m).
Proof.
  apply ext_update_agent.
  - apply skel_map_intervention_resources.
  - intros _ a. apply bounded_map_intervention_resources.
Qed.

Lemma monitor_agent_Inv (n : nat) (B : bool) (i j : nat)
  (m0 m : AIEMModel) :
  (i < n)%nat -> (j < n)%nat -> scanning n B i m0 m ->
  exists m', monitor_agent i j m = Ok m' /\ scanning n B i m0 m'.
Proof.
  intros Hi Hj [I [Hrole Hq]]. unfold monitor_agent.
  destruct (is_illicit (role (agent_at j m))) eqn:Hill; simpl;
    [|eexists; split; [reflexivity | split; [|split]; assumption]].
  destruct (active (agent_at j m)) eqn:Ha;
    [|eexists; split; [reflexivity | split; [|split]; assumption]].
  pose proof (ext_draw m) as Hd.
  unfold draw, random_random in *. simpl in Hd.
  set (m1 := set_random _ m) in *.
  destruct (Qltb _ _).
  - assert (I1 : Inv n B m1) by (apply (Inv_ext _ _ _ _ I Hd)).
    destruct (intervene_agent_Inv n B i j m1 I1 Hi Hj Ha Hill Hrole)
      as [m2 [H2 [I2 [R2 Q2]]]].
    change (unique_id (agent_at j m1)) with (unique_id (agent_at j m)) in H2.
    rewrite H2. simpl. eexists; split; [reflexivity|].
    pose proof (ext_intervention_resources i (fun r => r - (1#10)) m2) as E3.
    split; [|split].
    + apply (Inv_ext _ _ _ _ I2 E3).
    + rewrite (role_agent_at _ _ _ (ext_roles _ _ E3)).
      rewrite (role_agent_at _ _ _ R2). assumption.
    + apply (quiet_trans _ m); [assumption|].
      apply (quiet_trans _ m1); [apply (ext_quiet _ _ Hd)|].
      apply (quiet_trans _ m2); [assumption | apply (ext_quiet _ _ E3)].
  - eexists; split; [reflexivity|]. split; [|split].
    + apply (Inv_ext _ _ _ _ I Hd).
    + assumption.
    + apply (quiet_trans _ m); [assumption | apply (ext_quiet _ _ Hd)].
Qed.

Lemma monitor_and_intervene_Inv (n : nat) (B : bool) (i : nat)
  (m : AIEMModel) :
  (i < n)%nat -> Inv n B m -> role (agent_at i m) = Authority ->
  exists m', monitor_and_intervene i m = Ok m' /\ Inv n B m' /\ quiet m m'.
Proof.
  intros Hi I Hrole. unfold monitor_and_intervene.
  destruct (for_each_inv (scanning n B i m) (seq 0 (length (agents m)))
              (monitor_agent i) m) as [m1 [-> [I1 [_ Q1]]]].
  - intros j m0 Hj S0. apply monitor_agent_Inv; auto.
    apply in_seq in Hj. rewrite (Inv_length _ _ _ I) in Hj. lia.
  - split; [assumption | split; [assumption | apply quiet_refl]].
  - simpl. eexists; split; [reflexivity|].
    pose proof (ext_intervention_resources i
                  (fun r => py_min 1 (r + (5#100))) m1) as E.
    split; [apply (Inv_ext _ _ _ _ I1 E)|].
    apply (quiet_trans _ m1); [assumption | apply (ext_quiet _ _ E)].
Qed.

Lemma Authority_step_Inv (n : nat) (B : bool) (i : nat) (m : AIEMModel) :
  (i < n)%nat -> Inv n B m -> role (agent_at i m) = Authority ->
  exists m', Authority_step i m = Ok m' /\ Inv n B m' /\ quiet m m'.
Proof.
  intros Hi I Hrole. unfold Authority_step.
  destruct (AbstractAgent_step_ext _ _ _ _ I Hi) as [m1 [-> E1]]. simpl.
  destruct (monitor_and_intervene_Inv n B i m1 Hi (Inv_ext _ _ _ _ I E1))
    as [m' [-> [I' Q']]].
  - rewrite (role_agent_at _ _ _ (ext_roles _ _ E1)). assumption.
  - eexists; split; [reflexivity|]. split; [assumption|].
    apply (quiet_trans _ m1); [apply (ext_quiet _ _ E1) | assumption].
Qed.

Lemma agent_step_Inv (n : nat) (B : bool) (i : nat) (m : AIEMModel) :
  Inv n B m ->
  exists m', agent_step i m = Ok m' /\ Inv n B m' /\ quiet m m'.
Proof.
  intro I. unfold agent_step.
  destruct (nth_error (agents m) i) as [a|] eqn:E;
    [|exists m; split; [reflexivity | split; [assumption | apply quiet_refl]]].
  assert (Hi : (i < n)%nat).
  { rewrite <- (Inv_length _ _ _ I). apply nth_error_Some. congruence. }
  assert (Ha : agent_at i m = a) by (apply nth_error_nth_default; assumption).
  destruct (extra a) eqn:Ex.
  - destruct (Leader_step_ext _ _ _ _ I Hi) as [m' [-> E']].
    exists m'. split; [reflexivity|].
    split; [apply (Inv_ext _ _ _ _ I E') | apply (ext_quiet _ _ E')].
  - destruct (Operative_step_ext _ _ _ _ I Hi) as [m' [-> E']].
    exists m'. split; [reflexivity|].
    split; [apply (Inv_ext _ _ _ _ I E') | apply (ext_quiet _ _ E')].
  - destruct (Broker_step_ext _ _ _ _ I Hi) as [m' [-> E']].
    exists m'. split; [reflexivity|].
    split; [apply (Inv_ext _ _ _ _ I E') | apply (ext_quiet _ _ E')].
  - destruct (Facilitator_step_ext _ _ _ _ I Hi) as [m' [-> E']].
    exists m'. split; [reflexivity|].
    split; [apply (Inv_ext _ _ _ _ I E') | apply (ext_quiet _ _ E')].
  - destruct (CommunityMember_step_ext _ _ _ _ I Hi) as [m' [-> E']].
    exists m'. split; [reflexivity|].
    split; [apply (Inv_ext _ _ _ _ I E') | apply (ext_quiet _ _ E')].
  - apply Authority_step_Inv; [assumption | assumption |].
    rewrite Ha. unfold role. rewrite Ex. reflexivity.
Qed.

(** ** One engine step *)

Lemma count_active_by_role_frame (m m' : AIEMModel) (r : Role) :
  agents m' = agents m -> count_active_by_role m' r = count_active_by_role m r.
Proof. unfold count_active_by_role. now intros ->. Qed.

(** How [step] ends, whatever happened to the agents: [m1] is the state
    after the activations. *)
Lemma step_in_order_end (agent_list : list nat) (m m' : AIEMModel) :
  step_in_order agent_list m = Ok m' ->
  exists m1 row,
    for_each agent_list agent_step
      (set_intervene_calls 0%Z
         (set_reports_this_step 0%Z (set_arrests_this_step 0%Z m))) = Ok m1
    /\ agents m' = agents m1
    /\ network m' = network m1
    /\ arrests_this_step m' = arrests_this_step m1
    /\ reports_this_step m' = reports_this_step m1
    /\ intervene_calls m' = intervene_calls m1
    /\ random m' = random m1
    /\ datacollector m' = (datacollector m1 ++ [row])%list
    /\ row_illicit row = active_illicit_count m1
    /\ ArrestsThisStep row = arrests_this_step m1
    /\ running m' = (if (active_illicit_count m1 =? 0)%nat then false
                     else running m1)
    /\ recent_arrest_rate m'
       = (if (0 <? active_illicit_count m1)%nat
          then inject_Z (arrests_this_step m1) / Qnat (active_illicit_count m1)
          else 0).
Proof.
  unfold step_in_order. intro H.
  destruct (for_each agent_list agent_step _) as [m1|e] eqn:E1;
    [|discriminate].
  cbn [bind] in H. unfold collect in H.
  set (c := active_illicit_count m1) in *.
  set (m2 := if (0 <? c)%nat then _ else _) in *.
  assert (Hm2 : m2 = set_recent_arrest_rate
                       (if (0 <? c)%nat
                        then inject_Z (arrests_this_step m1) / Qnat c else 0)
                       m1)
    by (unfold m2; destruct (0 <? c)%nat; reflexivity).
  clearbody m2. subst m2.
  cbn [network set_recent_arrest_rate] in H.
  destruct (average_clustering (network m1)) as [ac|e]; [|discriminate].
  cbn [bind] in H. exists m1. eexists. split; [reflexivity|].
  destruct (c =? 0)%nat eqn:Ec; inversion H; subst m'; simpl;
    repeat split; try reflexivity; fold c; rewrite Ec; reflexivity.
Qed.

Lemma Inv_network_nonempty (n : nat) (B : bool) (m : AIEMModel) :
  Inv n B m -> (0 < n)%nat -> network m <> [].
Proof.
  intros I Hn HG.
  destruct (wf_live _ _ _ (inv_wf _ _ _ I) Hn) as [k [s [Hk Hs]]].
  apply (wf_node _ _ _ (inv_wf _ _ _ I) _ _ Hk) in Hs.
  rewrite HG in Hs. inversion Hs.
Qed.

(** The step preserves the invariant; the only exception it can raise is
    the division by zero of [average_clustering] on an engine without
    agents. *)
Lemma step_in_order_Inv (n : nat) (B : bool) (agent_list : list nat)
  (m : AIEMModel) :
  Inv n B m ->
  match step_in_order agent_list m with
  | Ok m' => Inv n B m'
  | Raise e => e = ZeroDivisionError /\ n = O
  end.
Proof.
  intro I.
  set (m0 := set_intervene_calls 0%Z
               (set_reports_this_step 0%Z (set_arrests_this_step 0%Z m))).
  assert (I0 : Inv n B m0).
  { destruct I as [W C N R Bd]. constructor; simpl; auto. lia. }
  destruct (for_each_inv (Inv n B) agent_list agent_step m0)
    as [m1 [E1 I1]];
    [intros x mx _ Ix; destruct (agent_step_Inv n B x mx Ix) as [m' [? [? _]]];
     eauto
    |assumption|].
  destruct (step_in_order agent_list m) as [m'|e] eqn:E.
  - destruct (step_in_order_end _ _ _ E)
      as [m1' [row [E1' [Hag [HG [Har [_ [Hca [_ [Hdc [Hrow [_ [Hrun _]]]]]]]]]]]]].
    fold m0 in E1'. rewrite E1 in E1'. inversion E1'; subst m1'.
    destruct I1 as [W C N R Bd]. constructor.
    + rewrite Hag, HG. assumption.
    + congruence.
    + rewrite Har. assumption.
    + rewrite Hrun, Hdc, forallb_app, <- R. simpl. rewrite Hrow.
      destruct (active_illicit_count m1) as [|c]; simpl.
      * now rewrite andb_false_r.
      * now rewrite andb_true_r.
    + intro HB. unfold bounded. rewrite Hag. apply Bd. assumption.
  - unfold step_in_order in E. fold m0 in E. rewrite E1 in E.
    cbn [bind] in E. unfold collect in E.
    assert (HG : forall r, network (if (0 <? active_illicit_count m1)%nat
                             then set_recent_arrest_rate r m1
                             else set_recent_arrest_rate 0 m1) = network m1)
      by (intro; destruct (0 <? active_illicit_count m1)%nat; reflexivity).
    rewrite HG in E.
    destruct (network m1) as [|p G] eqn:EG.
    + simpl in E. inversion E. split; [reflexivity|].
      destruct n; [reflexivity|]. exfalso.
      apply (Inv_network_nonempty _ _ _ I1); [lia | assumption].
    + simpl in E. discriminate.
Qed.

(** ** Policy interventions *)

Lemma skel_policy_monitoring (x : Q) (a : Agent) :
  skel (policy_monitoring x a) = skel a.
Proof.
  unfold policy_monitoring, skel, role.
  destruct a as [uid e ? ? ? ? ? ? ?]; destruct e; reflexivity.
Qed.

Lemma skel_policy_economic_support (x : Q) (a : Agent) :
  skel (policy_economic_support x a) = skel a.
Proof.
  unfold policy_economic_support, skel, role.
  destruct a as [uid e ? ? ? ? ? ? ?]; destruct e; reflexivity.
Qed.

Lemma skel_policy_community_engagement (x : Q) (a : Agent) :
  skel (policy_community_engagement x a) = skel a.
Proof.
  unfold policy_community_engagement, skel, role.
  destruct a as [uid e ? ? ? ? ? ? ?]; destruct e; reflexivity.
Qed.

Lemma bounded_policy_monitoring (x : Q) (a : Agent) :
  0 <= x -> bounded_agent a -> bounded_agent (policy_monitoring x a).
Proof.
  intros Hx [? ? ? ? He]. unfold policy_monitoring.
  destruct a as [uid e ? ? ? ? ? ? ?]; destruct e; simpl in *;
    constructor; simpl; auto.
  destruct He. apply py_min_1_in01. lra.
Qed.

Lemma bounded_policy_economic_support (x : Q) (a : Agent) :
  0 <= x -> bounded_agent a -> bounded_agent (policy_economic_support x a).
Proof.
  intros Hx [? ? ? ? He]. unfold policy_economic_support.
  destruct a as [uid e ? ? ? ? ? ? ?]; destruct e; simpl in *;
    constructor; simpl; auto.
  destruct He. apply py_max_0_in01. lra.
Qed.

Lemma bounded_policy_community_engagement (x : Q) (a : Agent) :
  0 <= x -> bounded_agent a ->
  bounded_agent (policy_community_engagement x a).
Proof.
  intros Hx [? ? ? ? He]. unfold policy_community_engagement.
  destruct a as [uid e ? ? ? ? ? ? ?]; destruct e; simpl in *;
    constructor; simpl; auto.
  destruct He as [Hv [? ?]]. split; [assumption|]. apply py_min_1_in01. lra.
Qed.

Lemma set_agents_map_ext (f : Agent -> Agent) (m : AIEMModel) :
  (forall a, skel (f a) = skel a) ->
  (forall a, bounded_agent a -> bounded_agent (f a)) ->
  ext m (set_agents (map f (agents m)) m).
Proof.
  intros Hs Hb. split.
  - constructor; simpl; try reflexivity.
    rewrite map_map. apply map_ext. assumption.
  - unfold bounded. simpl. intro Bm. rewrite Forall_map.
    eapply Forall_impl; [|exact Bm]. assumption.
Qed.

(** With a non-negative intensity an intervention keeps the frame and
    the bounds. *)
Lemma apply_policy_intervention_ext (t : string) (x : Q) (m : AIEMModel) :
  0 <= x -> ext m (apply_policy_intervention t x m).
Proof.
  intro Hx. unfold apply_policy_intervention.
  destruct (String.eqb t "monitoring").
  { apply set_agents_map_ext;
      [apply skel_policy_monitoring
      |intro a; apply bounded_policy_monitoring; assumption]. }
  destruct (String.eqb t "economic_support").
  { apply set_agents_map_ext;
      [apply skel_policy_economic_support
      |intro a; apply bounded_policy_economic_support; assumption]. }
  destruct (String.eqb t "community_engagement").
  { apply set_agents_map_ext;
      [apply skel_policy_community_engagement
      |intro a; apply bounded_policy_community_engagement; assumption]. }
  apply ext_refl.
Qed.

(** With any intensity it keeps the frame. *)
Lemma apply_policy_intervention_frame (t : string) (x : Q) (m : AIEMModel) :
  frame_eq m (apply_policy_intervention t x m).
Proof.
  assert (H : forall f, (forall a, skel (f a) = skel a) ->
                        frame_eq m (set_agents (map f (agents m)) m)).
  { intros f Hs. constructor; simpl; try reflexivity.
    rewrite map_map. apply map_ext. assumption. }
  unfold apply_policy_intervention.
  destruct (String.eqb t "monitoring");
    [apply H, skel_policy_monitoring|].
  destruct (String.eqb t "economic_support");
    [apply H, skel_policy_economic_support|].
  destruct (String.eqb t "community_engagement");
    [apply H, skel_policy_community_engagement|].
  constructor; reflexivity.
Qed.

Lemma apply_policy_intervention_Inv (n : nat) (B : bool) (t : string)
  (x : Q) (m : AIEMModel) :
  Inv n B m -> (B = true -> 0 <= x) ->
  Inv n B (apply_policy_intervention t x m).
Proof.
  intros I Hx. destruct B.
  - apply (Inv_ext _ _ _ _ I). apply apply_policy_intervention_ext. auto.
  - destruct (apply_policy_intervention_frame t x m) as [F1 F2 F3 F4 F5 F6].
    destruct I as [W C N R Bd].
    constructor; try congruence; try discriminate.
Qed.

(** ** Traces *)

Lemma exec_Inv (n : nat) (B : bool) (es : list Event) (m : AIEMModel) :
  Inv n B m -> (B = true -> Forall nonneg_event es) ->
  match exec es m with
  | Ok m' => Inv n B m'
  | Raise e => e = ZeroDivisionError /\ n = O
  end.
Proof.
  revert m. unfold exec.
  induction es as [|e es IH]; intros m I Hes; simpl; [assumption|].
  assert (Hhd : B = true -> nonneg_event e)
    by (intro HB; specialize (Hes HB); inversion Hes; assumption).
  assert (Htl : B = true -> Forall nonneg_event es)
    by (intro HB; specialize (Hes HB); inversion Hes; assumption).
  destruct e as [agent_list | t x]; simpl.
  - pose proof (step_in_order_Inv n B agent_list m I) as Hs.
    destruct (step_in_order agent_list m) as [m1|ex]; simpl;
      [apply IH; assumption | assumption].
  - apply IH; [|assumption].
    apply apply_policy_intervention_Inv; assumption.
Qed.

(** ** Construction *)

Ltac unit_draws r H :=
  pose proof (H (pos r)); pose proof (H (S (pos r)));
  pose proof (H (S (S (pos r)))); pose proof (H (S (S (S (pos r)))));
  pose proof (H (S (S (S (S (pos r))))));
  pose proof (H (S (S (S (S (S (pos r)))))));
  pose proof (H (S (S (S (S (S (S (pos r))))))));
  pose proof (H (S (S (S (S (S (S (S (pos r))))))))).

Ltac good_init_tac :=
  constructor;
  [ intros; reflexivity
  | intros; split; reflexivity
  | intros; reflexivity
  | intros uid r Hok Hr; unit_draws r Hr; unfold in01 in *;
    constructor; simpl; repeat split; try lra ].

Lemma good_Leader_init : good_init True Leader_init.
Proof. good_init_tac. Qed.

Lemma good_Operative_init (esl : Q) :
  good_init (in01 esl)
    (fun uid r => let (a, r') := Operative_init uid r in
                  (set_extra (OperativeX esl) a, r')).
Proof. good_init_tac. Qed.

Lemma good_Broker_init : good_init True Broker_init.
Proof. good_init_tac. Qed.

Lemma good_Facilitator_init : good_init True Facilitator_init.
Proof. good_init_tac. Qed.

Lemma good_CommunityMember_init : good_init True CommunityMember_init.
Proof. good_init_tac. Qed.

Lemma good_Authority_init (imc : Q) :
  good_init (in01 imc)
    (fun uid r => let (a, r') := Authority_init uid r in
                  (set_monitoring_capacity imc a, r')).
Proof. good_init_tac. Qed.

Lemma create_n_spec (ok : Prop) (mk : nat -> Random -> Agent * Random)
  (c uid : nat) (r : Random) :
  good_init ok mk ->
  map unique_id (fst (create_n c mk uid r)) = seq uid c
  /\ Forall fresh (fst (create_n c mk uid r))
  /\ draws (snd (create_n c mk uid r)) = draws r
  /\ (ok -> unit_stream r -> Forall bounded_agent (fst (create_n c mk uid r))).
Proof.
  intros [Hid Hfr Hdr Hbd]. revert uid r.
  induction c as [|c IH]; intros uid r; simpl.
  - repeat split; constructor.
  - specialize (Hid uid r). specialize (Hfr uid r). specialize (Hdr uid r).
    specialize (Hbd uid r).
    destruct (mk uid r) as [a r1]. simpl in *.
    destruct (IH (S uid) r1) as [I1 [I2 [I3 I4]]].
    destruct (create_n c mk (S uid) r1) as [l r2]. simpl in *.
    repeat split.
    + now rewrite Hid, I1.
    + constructor; assumption.
    + congruence.
    + intros Hok Hr. constructor; [auto|].
      apply I4; [assumption|]. unfold unit_stream. rewrite Hdr. assumption.
Qed.

Lemma _create_agents_spec (p : Params) (r : Random) :
  map unique_id (fst (_create_agents p r)) = seq 0 (total_agents p)
  /\ Forall fresh (fst (_create_agents p r))
  /\ (in01 (economic_stress_level p) ->
      in01 (initial_monitoring_capacity p) ->
      unit_stream r -> Forall bounded_agent (fst (_create_agents p r))).
Proof.
  unfold _create_agents, total_agents.
  pose proof (create_n_spec _ _ (n_leaders p) O r good_Leader_init) as H1.
  destruct (create_n (n_leaders p) Leader_init 0 r) as [ls r1].
  pose proof (create_n_spec _ _ (n_operatives p) (0 + n_leaders p) r1
                (good_Operative_init (economic_stress_level p))) as H2.
  destruct (create_n (n_operatives p) _ (0 + n_leaders p) r1) as [os r2].
  pose proof (create_n_spec _ _ (n_brokers p)
                (0 + n_leaders p + n_operatives p) r2 good_Broker_init) as H3.
  destruct (create_n (n_brokers p) Broker_init _ r2) as [bs r3].
  pose proof (create_n_spec _ _ (n_facilitators p)
                (0 + n_leaders p + n_operatives p + n_brokers p) r3
                good_Facilitator_init) as H4.
  destruct (create_n (n_facilitators p) Facilitator_init _ r3) as [fs r4].
  pose proof (create_n_spec _ _ (n_community_members p)
                (0 + n_leaders p + n_operatives p + n_brokers p
                 + n_facilitators p) r4 good_CommunityMember_init) as H5.
  destruct (create_n (n_community_members p) CommunityMember_init _ r4)
    as [cs r5].
  pose proof (create_n_spec _ _ (n_authorities p)
                (0 + n_leaders p + n_operatives p + n_brokers p
                 + n_facilitators p + n_community_members p) r5
                (good_Authority_init (initial_monitoring_capacity p))) as H6.
  destruct (create_n (n_authorities p) _ _ r5) as [aus r6].
  simpl fst in *. simpl snd in *.
  destruct H1 as [A1 [B1 [C1 D1]]]. destruct H2 as [A2 [B2 [C2 D2]]].
  destruct H3 as [A3 [B3 [C3 D3]]]. destruct H4 as [A4 [B4 [C4 D4]]].
  destruct H5 as [A5 [B5 [C5 D5]]]. destruct H6 as [A6 [B6 [C6 D6]]].
  repeat split.
  - rewrite !map_app, A1, A2, A3, A4, A5, A6, <- !seq_app.
    f_equal. lia.
  - repeat (apply Forall_app; split); assumption.
  - intros He Hm Hr.
    assert (U1 : unit_stream r1) by (unfold unit_stream; rewrite C1; auto).
    assert (U2 : unit_stream r2) by (unfold unit_stream; rewrite C2; auto).
    assert (U3 : unit_stream r3) by (unfold unit_stream; rewrite C3; auto).
    assert (U4 : unit_stream r4) by (unfold unit_stream; rewrite C4; auto).
    assert (U5 : unit_stream r5) by (unfold unit_stream; rewrite C5; auto).
    repeat (apply Forall_app; split); auto.
Qed.

Section InitialState.

Variable seeded_stream : Z -> nat -> Q.
Variable watts_strogatz_graph : nat -> nat -> Q -> Z -> Graph.

Lemma AIEMModel_init_fields (p : Params) :
  let m := AIEMModel_init seeded_stream watts_strogatz_graph p in
  agents m = fst (_create_agents p (mkRandom (seeded_stream (seed p)) O))
  /\ network m = watts_strogatz_graph (total_agents p) (network_k p)
                   (network_p p) (seed p)
  /\ arrests_this_step m = 0%Z /\ intervene_calls m = 0%Z
  /\ running m = true /\ datacollector m = [].
Proof.
  unfold AIEMModel_init.
  destruct (_create_agents p _) as [ags r']. simpl. tauto.
Qed.

Lemma AIEMModel_init_Inv (p : Params) (B : bool) :
  valid_graph watts_strogatz_graph p -> (B = true -> unit_params seeded_stream p) ->
  Inv (total_agents p) B
      (AIEMModel_init seeded_stream watts_strogatz_graph p).
Proof.
  intros graph_nodes HB. unfold valid_graph in graph_nodes.
  destruct (AIEMModel_init_fields p) as [Hag [HG [Har [Hca [Hru Hdc]]]]].
  set (m := AIEMModel_init seeded_stream watts_strogatz_graph p) in *.
  destruct (_create_agents_spec p (mkRandom (seeded_stream (seed p)) O))
    as [Hids [Hfresh Hbd]].
  rewrite <- Hag in Hids, Hfresh, Hbd.
  assert (Hlen : length (agents m) = total_agents p).
  { rewrite <- (length_map unique_id), Hids. apply length_seq. }
  assert (Hat : forall k s, nth_error (map skel (agents m)) k = Some s ->
            exists a, In a (agents m) /\ s = skel a
                      /\ nth k (map unique_id (agents m)) O = unique_id a
                      /\ (k < total_agents p)%nat).
  { intros k s Hk. rewrite nth_error_map in Hk.
    destruct (nth_error (agents m) k) as [a|] eqn:Ea; [|discriminate].
    simpl in Hk. inversion Hk; subst s. exists a.
    split; [eapply nth_error_In; eassumption|]. split; [reflexivity|].
    assert (Hlt : (k < length (agents m))%nat)
      by (apply nth_error_Some; congruence).
    split; [|lia].
    change O with (unique_id no_agent). rewrite map_nth.
    f_equal. apply nth_error_nth_default. assumption. }
  rewrite Forall_forall in Hfresh.
  constructor.
  - constructor.
    + rewrite length_map. assumption.
    + intros k s Hk. destruct (Hat k s Hk) as [a [Hin [-> [Hn Hlt]]]].
      simpl. rewrite <- Hn, Hids, seq_nth; auto.
    + intros k s Hk. destruct (Hat k s Hk) as [a [Hin [-> _]]].
      destruct (Hfresh a Hin) as [Ha Hc]. simpl. rewrite Ha, Hc.
      split; [lia | reflexivity].
    + intros k s Hk. destruct (Hat k s Hk) as [a [Hin [-> [_ Hlt]]]].
      destruct (Hfresh a Hin) as [Ha _]. simpl.
      rewrite Ha, HG, graph_nodes, in_seq. split; [lia | reflexivity].
    + intros v Hv. rewrite HG, graph_nodes, in_seq in Hv. lia.
    + rewrite HG, graph_nodes. apply seq_NoDup.
    + intros k s Hk _. destruct (Hat k s Hk) as [a [Hin [-> _]]].
      apply (Hfresh a Hin).
    + intro Hpos.
      destruct (nth_error (map skel (agents m)) O) as [s|] eqn:E0.
      * exists O, s. split; [assumption|].
        destruct (Hat O s E0) as [a [Hin [-> _]]]. apply (Hfresh a Hin).
      * apply nth_error_None in E0. rewrite length_map in E0. lia.
  - congruence.
  - rewrite Har. lia.
  - rewrite Hru, Hdc. reflexivity.
  - intro Bt. destruct (HB Bt) as [He [Hm Hs]].
    apply Hbd; assumption.
Qed.

(** Every trace of engine calls from the constructed engine ends in a
    state satisfying the invariant, or, on an engine without agents,
    in the division by zero of the first step. *)
Lemma exec_init_Inv (p : Params) (B : bool) (es : list Event) :
  valid_graph watts_strogatz_graph p ->
  (B = true -> unit_params seeded_stream p /\ Forall nonneg_event es) ->
  match exec es (AIEMModel_init seeded_stream watts_strogatz_graph p) with
  | Ok m => Inv (total_agents p) B m
  | Raise e => e = ZeroDivisionError /\ total_agents p = O
  end.
Proof.
  intros HG HB. apply exec_Inv.
  - apply AIEMModel_init_Inv; [assumption | intro; apply HB; assumption].
  - intro; apply HB; assumption.
Qed.

Lemma exec_init_total (p : Params) (B : bool) (es : list Event) :
  valid_graph watts_strogatz_graph p -> (0 < total_agents p)%nat ->
  (B = true -> unit_params seeded_stream p /\ Forall nonneg_event es) ->
  exists m,
    exec es (AIEMModel_init seeded_stream watts_strogatz_graph p) = Ok m
    /\ Inv (total_agents p) B m.
Proof.
  intros HG Hn HB. pose proof (exec_init_Inv p B es HG HB) as H.
  destruct (exec es _) as [m|e]; [eauto | lia].
Qed.

End InitialState.

(** ** Resource distribution *)

Lemma length_update_agent (i : nat) (f : Agent -> Agent) (m : AIEMModel) :
  length (agents (update_agent i f m)) = length (agents m).
Proof. unfold update_agent. simpl. apply length_upd. Qed.

Lemma agent_at_update_eq (i : nat) (f : Agent -> Agent) (m : AIEMModel) :
  (i < length (agents m))%nat ->
  agent_at i (update_agent i f m) = f (agent_at i m).
Proof. intro H. unfold agent_at, update_agent. simpl. now apply nth_upd_eq. Qed.

Lemma agent_at_update_neq (i k : nat) (f : Agent -> Agent) (m : AIEMModel) :
  i <> k -> agent_at k (update_agent i f m) = agent_at k m.
Proof. intro H. unfold agent_at, update_agent. simpl. now apply nth_upd_neq. Qed.

Lemma total_resources_update (j : nat) (f : Agent -> Agent) (m : AIEMModel) :
  (j < length (agents m))%nat ->
  total_resources (update_agent j f m)
  == total_resources m
     + (resources (f (agent_at j m)) - resources (agent_at j m)).
Proof.
  intro Hj. unfold total_resources, update_agent, agent_at. simpl.
  rewrite (map_upd_at resources
             (fun _ => resources (f (nth j (agents m) no_agent)))).
  - rewrite (Qsum_upd j _ (resources no_agent))
      by (now rewrite length_map).
    rewrite (map_nth resources). reflexivity.
  - intros x Hx. now rewrite (nth_error_nth_default _ _ no_agent _ Hx).
Qed.

Lemma distribute_to_recipient (i : nat) (amount : Q) (k : nat)
  (m : AIEMModel) (x : nat) :
  distribute_to i amount k m x
  = match recipient m x with
    | Some j =>
        update_agent i
          (fun a => set_resources (resources a - amount / Qnat k) a)
          (update_agent j
             (fun a => set_resources (resources a + amount / Qnat k) a) m)
    | None => m
    end.
Proof.
  unfold distribute_to, recipient.
  destruct (get_agent_by_id m x) as [j|]; [|reflexivity].
  destruct (is_operative_or_broker (agent_at j m)); reflexivity.
Qed.

Lemma recipient_lt (m : AIEMModel) (x j : nat) :
  recipient m x = Some j -> (j < length (agents m))%nat.
Proof.
  unfold recipient. destruct (get_agent_by_id m x) as [j'|] eqn:E;
    [|discriminate].
  destruct (is_operative_or_broker _); [|discriminate].
  intro H. inversion H; subst. apply (get_agent_by_id_lt _ _ _ E).
Qed.

Lemma length_distribute_to (i : nat) (amount : Q) (k : nat) (m : AIEMModel)
  (x : nat) :
  length (agents (distribute_to i amount k m x)) = length (agents m).
Proof.
  rewrite distribute_to_recipient. destruct (recipient m x); [|reflexivity].
  now rewrite !length_update_agent.
Qed.

Lemma total_distribute_to (i : nat) (amount : Q) (k : nat) (m : AIEMModel)
  (x : nat) :
  (i < length (agents m))%nat ->
  total_resources (distribute_to i amount k m x) == total_resources m.
Proof.
  intro Hi. rewrite distribute_to_recipient.
  destruct (recipient m x) as [j|] eqn:E; [|reflexivity].
  pose proof (recipient_lt _ _ _ E) as Hj.
  rewrite total_resources_update by (now rewrite length_update_agent).
  rewrite total_resources_update by assumption.
  simpl. lra.
Qed.

Lemma total_fold_distribute (i : nat) (amount : Q) (k : nat) (l : list nat)
  (m : AIEMModel) :
  (i < length (agents m))%nat ->
  total_resources (fold_left (distribute_to i amount k) l m)
  == total_resources m.
Proof.
  revert m. induction l as [|x t IH]; intros m Hi; simpl; [reflexivity|].
  rewrite IH by (now rewrite length_distribute_to).
  now apply total_distribute_to.
Qed.

(** C9. Every execution of [Leader.distribute_resources] by a registered
    Leader whose node is in the network returns, and the sum of
    [resources] over the whole registry is the same before and after. *)
Theorem distribute_resources_conserves_total (i : nat) (m : AIEMModel) :
  (i < length (agents m))%nat ->
  has_node (network m) (unique_id (agent_at i m)) = true ->
  exists m', distribute_resources i m = Ok m'
             /\ total_resources m' == total_resources m.
Proof.
  intros Hi Hn. apply has_node_In in Hn.
  destruct (neighbors_Ok _ _ Hn) as [ns Hns].
  unfold distribute_resources. rewrite Hns. cbn [bind].
  destruct (_ && _); eexists; (split; [reflexivity|]).
  - now apply total_fold_distribute.
  - reflexivity.
Qed.

Lemma find_index_map (l l' : list Agent) (x k : nat) :
  map unique_id l = map unique_id l' -> find_index l x k = find_index l' x k.
Proof.
  revert l' k. induction l as [|a t IH]; intros [|a' t'] k H; simpl in *;
    try discriminate; auto.
  inversion H as [[H1 H2]]. rewrite H1. destruct (unique_id a' =? x)%nat; auto.
Qed.

Lemma shape_ids (m m' : AIEMModel) :
  shape m' = shape m -> map unique_id (agents m') = map unique_id (agents m).
Proof.
  unfold shape. intro H.
  assert (E : forall l, map unique_id l
                        = map fst (map (fun a => (unique_id a, extra a)) l))
    by (intro l; rewrite map_map; reflexivity).
  now rewrite !E, H.
Qed.

Lemma shape_extra (m m' : AIEMModel) (j : nat) :
  shape m' = shape m -> extra (agent_at j m') = extra (agent_at j m).
Proof.
  unfold shape, agent_at. intro H.
  pose (f := fun a => (unique_id a, extra a)).
  assert (E : f (nth j (agents m') no_agent) = f (nth j (agents m) no_agent)).
  { rewrite <- !(map_nth f). unfold f. now rewrite H. }
  apply (f_equal snd) in E. exact E.
Qed.

Lemma recipient_shape (m m' : AIEMModel) (x : nat) :
  shape m' = shape m -> recipient m' x = recipient m x.
Proof.
  intro H. unfold recipient, get_agent_by_id.
  rewrite (find_index_map _ _ x O (shape_ids _ _ H)).
  destruct (find_index (agents m) x 0) as [j|]; [|reflexivity].
  unfold is_operative_or_broker. now rewrite (shape_extra _ _ j H).
Qed.

Lemma shape_update_resources (i : nat) (g : Agent -> Q) (m : AIEMModel) :
  shape (update_agent i (fun a => set_resources (g a) a) m) = shape m.
Proof. unfold shape, update_agent. simpl. now apply map_upd_same. Qed.

Lemma shape_distribute_to (i : nat) (amount : Q) (k : nat) (m : AIEMModel)
  (x : nat) : shape (distribute_to i amount k m x) = shape m.
Proof.
  rewrite distribute_to_recipient. destruct (recipient m x); [|reflexivity].
  now rewrite !shape_update_resources.
Qed.

Lemma count_to_shape (m m' : AIEMModel) (j : nat) (l : list nat) :
  shape m' = shape m -> count_to m' j l = count_to m j l.
Proof.
  intro H. unfold count_to. f_equal. apply filter_ext.
  intro x. now rewrite (recipient_shape _ _ x H).
Qed.

Lemma count_recipients_shape (m m' : AIEMModel) (l : list nat) :
  shape m' = shape m -> count_recipients m' l = count_recipients m l.
Proof.
  intro H. unfold count_recipients. f_equal. apply filter_ext.
  intro x. now rewrite (recipient_shape _ _ x H).
Qed.

(** The loop of [distribute_resources], transfer by transfer: the Leader
    at [i] is no recipient. *)
Lemma fold_distribute_resources (i : nat) (amount : Q) (k : nat)
  (l : list nat) (m : AIEMModel) :
  (i < length (agents m))%nat ->
  (forall x, recipient m x <> Some i) ->
  let m' := fold_left (distribute_to i amount k) l m in
  shape m' = shape m
  /\ (forall j, j <> i ->
        resources (agent_at j m')
        == resources (agent_at j m)
           + Qnat (count_to m j l) * (amount / Qnat k))
  /\ resources (agent_at i m')
     == resources (agent_at i m)
        - Qnat (count_recipients m l) * (amount / Qnat k).
Proof.
  revert m. induction l as [|x t IH]; intros m Hi Hrec; cbn [fold_left].
  - repeat split.
    + intros. unfold count_to. cbn [filter length].
      generalize (amount / Qnat k). intro q. change (Qnat 0) with 0. lra.
    + unfold count_recipients. cbn [filter length].
      generalize (amount / Qnat k). intro q. change (Qnat 0) with 0. lra.
  - set (m1 := distribute_to i amount k m x).
    assert (Hs1 : shape m1 = shape m) by apply shape_distribute_to.
    assert (Hi1 : (i < length (agents m1))%nat)
      by (unfold m1; now rewrite length_distribute_to).
    assert (Hrec1 : forall y, recipient m1 y <> Some i)
      by (intro y; rewrite (recipient_shape _ _ y Hs1); apply Hrec).
    destruct (IH m1 Hi1 Hrec1) as [Hs [Hj Hself]].
    split; [congruence|].
    assert (Hct : forall j, count_to m1 j t = count_to m j t)
      by (intro; now apply count_to_shape).
    assert (Hcr : count_recipients m1 t = count_recipients m t)
      by (now apply count_recipients_shape).
    assert (Hm1 : m1 = distribute_to i amount k m x) by reflexivity.
    rewrite distribute_to_recipient in Hm1.
    unfold count_to, count_recipients in *. cbn [filter].
    destruct (recipient m x) as [j0|] eqn:Ex.
    + assert (Hj0 : j0 <> i) by (intro; subst; apply (Hrec x); assumption).
      pose proof (recipient_lt _ _ _ Ex) as Hlt.
      split.
      * intros j Hne. rewrite (Hj j Hne), Hct, Hm1.
        rewrite agent_at_update_neq by auto.
        destruct (Nat.eq_dec j0 j) as [->|Hd].
        -- rewrite agent_at_update_eq by assumption.
           rewrite Nat.eqb_refl. cbn [length resources set_resources].
           rewrite Qnat_S. generalize (amount / Qnat k). intro q. lra.
        -- rewrite agent_at_update_neq by assumption.
           apply Nat.eqb_neq in Hd. rewrite Hd. reflexivity.
      * rewrite Hself, Hcr, Hm1.
        rewrite agent_at_update_eq by (now rewrite length_update_agent).
        rewrite agent_at_update_neq by assumption.
        cbn [length resources set_resources].
        rewrite Qnat_S. generalize (amount / Qnat k). intro q. lra.
    + split.
      * intros j Hne. rewrite (Hj j Hne), Hct, Hm1. reflexivity.
      * rewrite Hself, Hcr, Hm1. reflexivity.
Qed.

Lemma map_agent_at {T : Type} (g : Agent -> T) (m m' : AIEMModel) (j : nat) :
  map g (agents m') = map g (agents m) ->
  g (agent_at j m') = g (agent_at j m).
Proof.
  intro H. unfold agent_at. rewrite <- !(map_nth g). now rewrite H.
Qed.

(** [AbstractAgent.step] writes [social_capital] and [risk_tolerance]
    only. *)
Lemma AbstractAgent_step_frame {T : Type} (g : Agent -> T) (i : nat)
  (m m1 : AIEMModel) :
  (forall a v, g (set_social_capital v a) = g a) ->
  (forall a v, g (set_risk_tolerance v a) = g a) ->
  AbstractAgent_step i m = Ok m1 ->
  map g (agents m1) = map g (agents m) /\ network m1 = network m.
Proof.
  intros Hsc Hrt. unfold AbstractAgent_step.
  destruct (negb (active (agent_at i m))); [intro H; injection H as <-; auto|].
  unfold update_social_capital.
  destruct (neighbors (network m) (unique_id (agent_at i m))) as [ns|e];
    [|discriminate].
  cbn [bind].
  assert (Hadj : forall m0, map g (agents (adjust_risk_from_environment i m0))
                            = map g (agents m0)
                            /\ network (adjust_risk_from_environment i m0)
                               = network m0).
  { intro m0. unfold adjust_risk_from_environment.
    destruct (Qltb _ _); [|auto]. simpl. split; [|reflexivity].
    apply map_upd_same. intro a. apply Hrt. }
  destruct (0 <? length ns)%nat.
  - destruct (flat_map _ ns); cbn [bind]; intro H; injection H as <-.
    + apply Hadj.
    + destruct (Hadj (update_agent i
                  (fun a => set_social_capital
                     ((7#10) * social_capital a + (3#10) * np_mean (q :: l)) a)
                  m)) as [G1 G2].
      rewrite G1, G2. simpl. split; [|reflexivity].
      apply map_upd_same. intro a. apply Hsc.
  - cbn [bind]. intro H; injection H as <-. apply Hadj.
Qed.

Lemma AbstractAgent_step_Ok (i : nat) (m : AIEMModel) (ns : list nat) :
  neighbors (network m) (unique_id (agent_at i m)) = Ok ns ->
  exists m1, AbstractAgent_step i m = Ok m1.
Proof.
  intro Hns. unfold AbstractAgent_step, update_social_capital.
  destruct (negb (active (agent_at i m))); [eauto|].
  rewrite Hns. cbn [bind].
  destruct (0 <? length ns)%nat; [destruct (flat_map _ ns)|];
    cbn [bind]; eauto.
Qed.

Lemma recipient_iff (m : AIEMModel) (x j : nat) :
  NoDup (map unique_id (agents m)) -> (j < length (agents m))%nat ->
  (recipient m x = Some j <->
   x = unique_id (agent_at j m) /\ is_operative_or_broker (agent_at j m) = true).
Proof.
  intros Hnd Hj. unfold recipient. split.
  - destruct (get_agent_by_id m x) as [j'|] eqn:E; [|discriminate].
    destruct (is_operative_or_broker (agent_at j' m)) eqn:Eo; [|discriminate].
    intro H. inversion H; subst j'. split; [|assumption].
    unfold get_agent_by_id in E.
    apply (find_index_id _ _ _ _ no_agent) in E.
    rewrite Nat.sub_0_r in E. symmetry. exact E.
  - intros [-> Ho]. unfold get_agent_by_id, agent_at.
    rewrite (find_index_first _ O j no_agent Hnd Hj). simpl.
    fold (agent_at j m). now rewrite Ho.
Qed.

Lemma count_eq_NoDup (a : nat) (l : list nat) :
  NoDup l ->
  length (filter (fun x => (x =? a)%nat) l)
  = if existsb (fun x => (x =? a)%nat) l then 1%nat else 0%nat.
Proof.
  induction 1 as [|x l Hx Hl IH]; simpl; [reflexivity|].
  destruct (x =? a)%nat eqn:E; simpl.
  - apply Nat.eqb_eq in E. subst x. rewrite IH.
    destruct (existsb (fun x => (x =? a)%nat) l) eqn:Ex; [|reflexivity].
    exfalso. apply Hx. apply existsb_exists in Ex.
    destruct Ex as [y [Hy Ey]]. apply Nat.eqb_eq in Ey. now subst.
  - assumption.
Qed.

Lemma filter_none {A : Type} (f : A -> bool) (l : list A) :
  (forall x, f x = false) -> filter f l = [].
Proof.
  intro H. induction l as [|x t IH]; simpl; [reflexivity|].
  now rewrite H.
Qed.

Lemma count_to_NoDup (m : AIEMModel) (j : nat) (ns : list nat) :
  NoDup (map unique_id (agents m)) -> (j < length (agents m))%nat ->
  NoDup ns ->
  count_to m j ns
  = if is_operative_or_broker (agent_at j m)
       && existsb (fun x => (x =? unique_id (agent_at j m))%nat) ns
    then 1%nat else 0%nat.
Proof.
  intros Hnd Hj Hns. unfold count_to.
  destruct (is_operative_or_broker (agent_at j m)) eqn:Ho; simpl.
  - rewrite <- (count_eq_NoDup _ _ Hns). f_equal. apply filter_ext.
    intro x. destruct (recipient m x) as [j'|] eqn:E.
    + destruct (Nat.eq_dec j' j) as [->|Hne].
      * apply (recipient_iff _ _ _ Hnd Hj) in E. destruct E as [-> _].
        now rewrite !Nat.eqb_refl.
      * pose proof (recipient_lt _ _ _ E) as Hlt.
        apply (recipient_iff _ _ _ Hnd Hlt) in E. destruct E as [-> _].
        apply Nat.eqb_neq in Hne. rewrite Hne. symmetry.
        apply Nat.eqb_neq. intro Heq. apply Nat.eqb_neq in Hne. apply Hne.
        rewrite (NoDup_nth (map unique_id (agents m)) O) in Hnd.
        apply Hnd; rewrite ?length_map; auto.
        change O with (unique_id no_agent). rewrite !map_nth. exact Heq.
    + symmetry. apply Nat.eqb_neq. intro Heq. subst x.
      assert (R : recipient m (unique_id (agent_at j m)) = Some j)
        by (apply recipient_iff; auto).
      congruence.
  - rewrite filter_none; [reflexivity|].
    intro x. destruct (recipient m x) as [j'|] eqn:E; [|reflexivity].
    apply Nat.eqb_neq. intro Heq. subst j'.
    apply (recipient_iff _ _ _ Hnd Hj) in E. destruct E as [_ E]. congruence.
Qed.

(** C2, as stated, fails: the Leader holds 1, its only Operative/Broker
    neighbour receives 1/20, so the shares sum to 5% of the Leader's
    resources, not 10%. *)
Lemma Leader_shares_do_not_sum_to_ten_percent :
  exists m',
    Leader_step 0 c2_model = Ok m'
    /\ resources (agent_at 1 m') - resources (agent_at 1 c2_model) == 1#20
    /\ resources (agent_at 2 m') - resources (agent_at 2 c2_model) == 0
    /\ ~ (resources (agent_at 1 m') - resources (agent_at 1 c2_model)
          == (1#10) * resources (agent_at 0 c2_model)).
Proof.
  eexists. split; [vm_compute; reflexivity|].
  repeat split; vm_compute; congruence.
Qed.

(** C2 (amended). An active Leader with neighbours [ns] and resources
    [r > 0.3] gives every Operative or Broker neighbour the same share
    [0.1 r / len(ns)], where [len(ns)] counts all its neighbours; nobody
    else receives anything; the Leader loses exactly the total
    transferred, which is [0.1 r] times the fraction of neighbours that
    are Operatives or Brokers, hence [0.1 r] when all of them are.  With
    [r <= 0.3] no resources change. *)
Theorem Leader_distributes_by_neighbor_count (i : nat) (m : AIEMModel)
  (ns : list nat) :
  (i < length (agents m))%nat ->
  role (agent_at i m) = Leader ->
  active (agent_at i m) = true ->
  NoDup (map unique_id (agents m)) ->
  neighbors (network m) (unique_id (agent_at i m)) = Ok ns ->
  NoDup ns -> ns <> [] ->
  let r := resources (agent_at i m) in
  let share := r * (1#10) / Qnat (length ns) in
  let k := count_recipients m ns in
  exists m',
    Leader_step i m = Ok m'
    /\ (3#10 < r ->
        (forall j, (j < length (agents m))%nat ->
           is_operative_or_broker (agent_at j m) = true ->
           In (unique_id (agent_at j m)) ns ->
           resources (agent_at j m') == resources (agent_at j m) + share)
        /\ (forall j, (j < length (agents m))%nat -> j <> i ->
              is_operative_or_broker (agent_at j m) = false
              \/ ~ In (unique_id (agent_at j m)) ns ->
              resources (agent_at j m') == resources (agent_at j m))
        /\ resources (agent_at i m') == r - Qnat k * share
        /\ Qnat k * share == r * (1#10) * (Qnat k / Qnat (length ns))
        /\ (k = length ns -> Qnat k * share == r * (1#10)))
    /\ (r <= 3#10 -> map resources (agents m') = map resources (agents m)).
Proof.
  intros Hi Hrole Ha Hnd Hns Hndns Hne r share k.
  destruct (AbstractAgent_step_Ok i m ns Hns) as [m1 E1].
  destruct (AbstractAgent_step_frame
              (fun a => (unique_id a, extra a, resources a, active a))
              i m m1 (fun _ _ => eq_refl) (fun _ _ => eq_refl) E1)
    as [Hcore HG].
  assert (Hat : forall j,
            unique_id (agent_at j m1) = unique_id (agent_at j m)
            /\ extra (agent_at j m1) = extra (agent_at j m)
            /\ resources (agent_at j m1) = resources (agent_at j m)
            /\ active (agent_at j m1) = active (agent_at j m)).
  { intro j. pose proof (map_agent_at _ m m1 j Hcore) as H.
    inversion H. auto. }
  assert (Hshape : shape m1 = shape m).
  { apply (AbstractAgent_step_frame (fun a => (unique_id a, extra a))
             i m m1 (fun _ _ => eq_refl) (fun _ _ => eq_refl) E1). }
  assert (Hres : map resources (agents m1) = map resources (agents m)).
  { apply (AbstractAgent_step_frame resources
             i m m1 (fun _ _ => eq_refl) (fun _ _ => eq_refl) E1). }
  assert (Hlen : length (agents m1) = length (agents m)).
  { rewrite <- (length_map resources), Hres. apply length_map. }
  destruct (Hat i) as [Hid [Hex [Hr Hac]]].
  assert (Hposlen : (0 < length ns)%nat)
    by (destruct ns; [congruence | simpl; lia]).
  assert (HQlen : 0 < Qnat (length ns)) by (apply Qnat_pos; assumption).
  unfold Leader_step. rewrite E1. cbn [bind]. rewrite Hac, Ha. cbn [negb].
  unfold distribute_resources. rewrite HG, Hid, Hns. cbn [bind].
  apply Nat.ltb_lt in Hposlen. rewrite Hposlen, Hr. cbn [andb]. fold r.
  destruct (Qltb (3#10) r) eqn:Er.
  - eexists. split; [reflexivity|]. split.
    + intros _.
      assert (Hnot : forall x, recipient m1 x <> Some i).
      { intros x Hx. unfold recipient in Hx.
        destruct (get_agent_by_id m1 x) as [j|]; [|discriminate].
        destruct (is_operative_or_broker (agent_at j m1)) eqn:Eo;
          [|discriminate].
        inversion Hx; subst j. unfold is_operative_or_broker in Eo.
        rewrite Hex in Eo. unfold role in Hrole.
        destruct (extra (agent_at i m)); discriminate. }
      destruct (fold_distribute_resources i (r * (1#10)) (length ns) ns m1
                  (eq_ind_r (fun n => (i < n)%nat) Hi Hlen) Hnot)
        as [_ [Hj Hself]].
      fold share in Hj, Hself.
      rewrite (count_recipients_shape _ _ _ Hshape) in Hself. fold k in Hself.
      assert (Hcount : forall j, (j < length (agents m))%nat ->
                count_to m1 j ns
                = if is_operative_or_broker (agent_at j m)
                     && existsb (fun x => (x =? unique_id (agent_at j m))%nat)
                                ns
                  then 1%nat else 0%nat).
      { intros j Hlt. rewrite (count_to_shape _ _ _ _ Hshape).
        now apply count_to_NoDup. }
      assert (Hself_not : is_operative_or_broker (agent_at i m) = false).
      { unfold is_operative_or_broker. unfold role in Hrole.
        destruct (extra (agent_at i m)); try discriminate; reflexivity. }
      repeat split.
      * intros j Hlt Ho Hin.
        assert (Hji : j <> i) by (intro; subst; congruence).
        rewrite (Hj j Hji), (Hcount j Hlt), Ho.
        destruct (Hat j) as [_ [_ [-> _]]].
        assert (Hex1 : existsb (fun x => (x =? unique_id (agent_at j m))%nat)
                         ns = true).
        { apply existsb_exists. exists (unique_id (agent_at j m)).
          split; [assumption | apply Nat.eqb_refl]. }
        rewrite Hex1. cbn [andb]. change (Qnat 1) with 1.
        generalize share. intro q. lra.
      * intros j Hlt Hji Hcase.
        rewrite (Hj j Hji), (Hcount j Hlt).
        destruct (Hat j) as [_ [_ [-> _]]].
        assert (Hz : is_operative_or_broker (agent_at j m)
                     && existsb (fun x => (x =? unique_id (agent_at j m))%nat)
                                ns = false).
        { destruct Hcase as [-> | Hnin]; [reflexivity|].
          apply andb_false_iff. right.
          destruct (existsb _ ns) eqn:Ee; [|reflexivity].
          exfalso. apply Hnin. apply existsb_exists in Ee.
          destruct Ee as [y [Hy Ey]]. apply Nat.eqb_eq in Ey. now subst. }
        rewrite Hz. change (Qnat 0) with 0.
        generalize share. intro q. lra.
      * rewrite Hself, Hr. reflexivity.
      * unfold share. field. intro Hz. rewrite Hz in HQlen.
        apply (Qlt_irrefl 0). assumption.
      * intro Hk. rewrite Hk. unfold share. field.
        intro Hz. rewrite Hz in HQlen. apply (Qlt_irrefl 0). assumption.
    + intro Hle. apply Qltb_true in Er. exfalso.
      apply (Qlt_not_le _ _ Er Hle).
  - eexists. split; [reflexivity|]. split.
    + intro Hlt. apply Qltb_true in Hlt. congruence.
    + intros _. assumption.
Qed.

(** The amended C2 at [c2_model]: neighbours [1; 2], one recipient. *)
Lemma Leader_distributes_by_neighbor_count_witness :
  exists m',
    Leader_step 0 c2_model = Ok m'
    /\ (3#10 < 1 ->
        (forall j, (j < 3)%nat ->
           is_operative_or_broker (agent_at j c2_model) = true ->
           In (unique_id (agent_at j c2_model)) [1%nat; 2%nat] ->
           resources (agent_at j m')
           == resources (agent_at j c2_model) + 1 * (1#10) / Qnat 2)
        /\ (forall j, (j < 3)%nat -> j <> 0%nat ->
              is_operative_or_broker (agent_at j c2_model) = false
              \/ ~ In (unique_id (agent_at j c2_model)) [1%nat; 2%nat] ->
              resources (agent_at j m') == resources (agent_at j c2_model))
        /\ resources (agent_at 0 m') == 1 - Qnat 1 * (1 * (1#10) / Qnat 2)
        /\ Qnat 1 * (1 * (1#10) / Qnat 2)
           == 1 * (1#10) * (Qnat 1 / Qnat 2)
        /\ (1%nat = 2%nat -> Qnat 1 * (1 * (1#10) / Qnat 2) == 1 * (1#10)))
    /\ (1 <= 3#10 ->
        map resources (agents m') = map resources (agents c2_model)).
Proof.
  apply (Leader_distributes_by_neighbor_count 0 c2_model [1%nat; 2%nat]).
  - simpl. lia.
  - reflexivity.
  - reflexivity.
  - simpl. repeat constructor; simpl; intuition lia.
  - reflexivity.
  - repeat constructor; simpl; intuition lia.
  - discriminate.
Defined.

(** ** What a step does to [running] and to the Metrics table *)

Lemma for_each_app {A S : Type} (l1 l2 : list A) (body : A -> S -> result S)
  (s : S) :
  for_each (l1 ++ l2) body s = (s' <- for_each l1 body s ;; for_each l2 body s').
Proof.
  revert s. induction l1 as [|x t IH]; intro s; simpl; [reflexivity|].
  destruct (body x s) as [s1|e]; simpl; [apply IH | reflexivity].
Qed.

Lemma active_illicit_count_frame (m m' : AIEMModel) :
  agents m' = agents m -> active_illicit_count m' = active_illicit_count m.
Proof.
  intro H. unfold active_illicit_count.
  now rewrite !(count_active_by_role_frame _ _ _ H).
Qed.

Lemma step_in_order_effect (n : nat) (B : bool) (agent_list : list nat)
  (m m' : AIEMModel) :
  Inv n B m -> step_in_order agent_list m = Ok m' ->
  running m' = (if (active_illicit_count m' =? 0)%nat then false
                else running m)
  /\ (exists row, datacollector m' = (datacollector m ++ [row])%list
                  /\ row_illicit row = active_illicit_count m'
                  /\ ArrestsThisStep row = arrests_this_step m')
  /\ ((active_illicit_count m' = 0)%nat -> recent_arrest_rate m' = 0).
Proof.
  intros I E.
  destruct (step_in_order_end _ _ _ E)
    as [m1 [row [E1 [Hag [_ [Har [_ [_ [_ [Hdc [Hrow [Hrar [Hrun Hrate]]]]]]]]]]]]].
  set (m0 := set_intervene_calls 0%Z
               (set_reports_this_step 0%Z (set_arrests_this_step 0%Z m))) in *.
  assert (I0 : Inv n B m0).
  { destruct I as [W C N R Bd]. constructor; simpl; auto. lia. }
  destruct (for_each_inv (fun x => Inv n B x /\ quiet m0 x)
              agent_list agent_step m0) as [m1' [E1' [_ [Q1 Q2]]]].
  - intros x mx _ [Ix Qx].
    destruct (agent_step_Inv n B x mx Ix) as [my [Ey [Iy Qy]]].
    exists my. split; [assumption|]. split; [assumption|].
    apply (quiet_trans _ mx); assumption.
  - split; [assumption | apply quiet_refl].
  - rewrite E1 in E1'. injection E1' as <-.
    rewrite (active_illicit_count_frame _ _ Hag).
    change (running m0) with (running m) in Q1.
    change (datacollector m0) with (datacollector m) in Q2.
    split; [rewrite Hrun, Q1; reflexivity|]. split.
    + exists row. rewrite Hdc, Q2, Har. auto.
    + intro Hz. rewrite Hrate, Hz. reflexivity.
Qed.

(** ** Registry and network in a state satisfying the invariant *)

(** The ids of the active agents of a registry with distinct ids are
    distinct. *)
Lemma active_ids_NoDup (ags : list Agent) :
  NoDup (map unique_id ags) -> NoDup (map unique_id (filter active ags)).
Proof.
  induction ags as [|a rest IH]; intro Hnd; simpl; [constructor|].
  simpl in Hnd. apply NoDup_cons_iff in Hnd. destruct Hnd as [Hnotin Hrest].
  destruct (active a); simpl; [|apply IH; exact Hrest].
  apply NoDup_cons_iff. split; [|apply IH; exact Hrest].
  intro Hin. apply Hnotin. apply in_map_iff in Hin.
  destruct Hin as [b [Hb Hin]]. apply filter_In in Hin.
  apply in_map_iff. exists b. tauto.
Qed.

Lemma Inv_In_index (n : nat) (B : bool) (m : AIEMModel) (a : Agent) :
  Inv n B m -> In a (agents m) ->
  nth_error (map skel (agents m)) (unique_id a) = Some (skel a)
  /\ (unique_id a < n)%nat.
Proof.
  intros I Hin. destruct (In_nth_error _ _ Hin) as [k Hk].
  assert (Hs : nth_error (map skel (agents m)) k = Some (skel a))
    by (now apply map_nth_error).
  pose proof (wf_ids _ _ _ (inv_wf _ _ _ I) _ _ Hs) as Hid. simpl in Hid.
  rewrite Hid. split; [assumption|].
  rewrite <- (Inv_length _ _ _ I). apply nth_error_Some. congruence.
Qed.

Lemma Inv_registry_network (n : nat) (B : bool) (m : AIEMModel) :
  Inv n B m ->
  (forall a, In a (agents m) ->
     ((2 <= arrest_count a)%Z <-> active a = false)
     /\ (active a = false <-> ~ In (unique_id a) (nodes (network m))))
  /\ (forall v, In v (nodes (network m)) <->
                exists a, In a (agents m) /\ unique_id a = v
                          /\ active a = true)
  /\ (length (nodes (network m))
      + length (filter (fun a => negb (active a)) (agents m)) = n)%nat
  /\ length (agents m) = n.
Proof.
  intro I. pose proof (inv_wf _ _ _ I) as W.
  assert (Hnodes : forall v, In v (nodes (network m)) <->
            exists a, In a (agents m) /\ unique_id a = v /\ active a = true).
  { intro v. split.
    - intro Hv. pose proof (wf_sub _ _ _ W v Hv) as Hlt.
      exists (agent_at v m). split; [|split].
      + apply In_agent_at. now rewrite (Inv_length _ _ _ I).
      + apply (Inv_unique_id _ _ _ _ I Hlt).
      + apply (wf_node _ _ _ W v (skel (agent_at v m)));
          [apply (Inv_skel_at _ _ _ _ I Hlt) | assumption].
    - intros [a [Hin [<- Ha]]].
      destruct (Inv_In_index _ _ _ _ I Hin) as [Hs _].
      apply (wf_node _ _ _ W _ _ Hs). assumption. }
  split; [|split; [assumption | split; [|apply (Inv_length _ _ _ I)]]].
  - intros a Hin. destruct (Inv_In_index _ _ _ _ I Hin) as [Hs _].
    pose proof (wf_arrest _ _ _ W _ _ Hs) as Ha.
    pose proof (wf_node _ _ _ W _ _ Hs) as Hn. simpl in Ha, Hn.
    destruct (active a); split; split; intro H; try congruence;
      try lia; intuition (try discriminate; try lia).
  - rewrite <- (Inv_length _ _ _ I).
    rewrite <- (filter_length active (agents m)). f_equal.
    rewrite <- (length_map unique_id (filter active (agents m))).
    apply Permutation_length. apply NoDup_Permutation.
    + apply (wf_nodup _ _ _ W).
    + apply active_ids_NoDup. rewrite (Inv_nodup_ids _ _ _ I).
      apply seq_NoDup.
    + intro v. rewrite Hnodes, in_map_iff. split.
      * intros [a [Hin [Hid Ha]]]. exists a. rewrite filter_In. tauto.
      * intros [a [Hid Hin]]. apply filter_In in Hin. exists a. tauto.
Qed.

(** An effective or ineffective call of [intervene_agent] keeps the
    bounds. *)
Lemma intervene_agent_bounded (x : nat) (m : AIEMModel) :
  bounded m -> exists m', intervene_agent x m = Ok m' /\ bounded m'.
Proof.
  intro Bm.
  destruct (get_agent_by_id m x) as [j|] eqn:Eg.
  - destruct (active (agent_at j m)) eqn:Ea.
    + destruct (intervene_agent_active _ _ _ Eg Ea) as [m' [-> [Hag _]]].
      exists m'. split; [reflexivity|]. unfold bounded. rewrite Hag.
      apply Forall_upd; [assumption|].
      intros. now apply bounded_arrest_agent.
    + rewrite intervene_agent_inactive by (now rewrite Eg).
      eexists. split; [reflexivity | exact Bm].
  - rewrite intervene_agent_inactive by (now rewrite Eg).
    eexists. split; [reflexivity | exact Bm].
Qed.

(** ** Policy interventions, attribute by attribute *)

Lemma same_engine_set_agents_map (f : Agent -> Agent) (m : AIEMModel) :
  same_engine m (set_agents (map f (agents m)) m).
Proof. unfold same_engine. simpl. rewrite length_map. tauto. Qed.

Lemma py_min_1_cases (v : Q) :
  (v < 1 -> py_min 1 v = v) /\ (1 <= v -> py_min 1 v = 1).
Proof.
  unfold py_min. split; intro H.
  - apply Qltb_true in H. now rewrite H.
  - apply Qltb_false in H. now rewrite H.
Qed.

Lemma py_max_0_cases (v : Q) :
  (0 < v -> py_max 0 v = v) /\ (v <= 0 -> py_max 0 v = 0).
Proof.
  unfold py_max. split; intro H.
  - apply Qltb_true in H. now rewrite H.
  - apply Qltb_false in H. now rewrite H.
Qed.

(** C7, as stated, fails: a CommunityMember has no [economic_stress], so
    the intervention lowers none for it. *)
Lemma economic_support_no_stress_for_CommunityMember :
  ~ (forall j a,
       nth_error (agents c7_model) j = Some a ->
       role a = Operative \/ role a = CommunityMember ->
       exists es,
         economic_stress a = Some es
         /\ economic_stress
              (agent_at j (apply_policy_intervention "economic_support" 1
                             c7_model))
            = Some (py_max 0 (es - 1 * (3#10)))).
Proof.
  intro H.
  destruct (H O _ eq_refl (or_intror eq_refl)) as [es [Hes _]].
  discriminate.
Qed.

(** C7 (amended). One call of
    [apply_policy_intervention('economic_support', intensity)] lowers
    [economic_stress] by [intensity*0.3], floored at 0, for every
    Operative (the only class with that attribute); raises [resources] by
    [intensity*0.2] for every Operative and every CommunityMember; and
    changes no other attribute, no other agent and no other engine
    field. *)
Theorem economic_support_effect (intensity : Q) (m : AIEMModel) :
  let m' := apply_policy_intervention "economic_support" intensity m in
  same_engine m m'
  /\ forall j a, nth_error (agents m) j = Some a ->
       exists a', nth_error (agents m') j = Some a'
         /\ match extra a with
            | OperativeX es =>
                exists es',
                  a' = set_resources (resources a + intensity * (2#10))
                         (set_extra (OperativeX es') a)
                  /\ (0 < es - intensity * (3#10) ->
                      es' = es - intensity * (3#10))
                  /\ (es - intensity * (3#10) <= 0 -> es' = 0)
            | CommunityMemberX _ _ =>
                a' = set_resources (resources a + intensity * (2#10)) a
            | _ => a' = a
            end.
Proof.
  unfold apply_policy_intervention. simpl String.eqb. cbv iota.
  split; [apply same_engine_set_agents_map|].
  intros j a Hj. exists (policy_economic_support intensity a). split.
  - simpl. now apply map_nth_error.
  - unfold policy_economic_support, role.
    destruct a as [uid x ? ? ? ? ? ? ?]; destruct x; simpl; try reflexivity.
    exists (py_max 0 (economic_stress0 - intensity * (3#10))).
    split; [reflexivity | apply py_max_0_cases].
Qed.

(** C8. One call of [apply_policy_intervention('monitoring', intensity)]
    sets every Authority's [monitoring_capacity] to its old value plus
    [intensity*0.3], capped at 1, and changes nothing else; from 0.5 with
    intensity 1 the result is 0.8; and after any number of applications
    no [monitoring_capacity] exceeds 1. *)
Theorem monitoring_effect (intensity : Q) (m : AIEMModel) (k : nat) :
  let m' := apply_policy_intervention "monitoring" intensity m in
  same_engine m m'
  /\ (forall j a, nth_error (agents m) j = Some a ->
        exists a', nth_error (agents m') j = Some a'
          /\ match extra a with
             | AuthorityX mc ir =>
                 exists mc',
                   a' = set_extra (AuthorityX mc' ir) a
                   /\ (mc + intensity * (3#10) < 1 ->
                       mc' = mc + intensity * (3#10))
                   /\ (1 <= mc + intensity * (3#10) -> mc' = 1)
             | _ => a' = a
             end)
  /\ (forall j a, nth_error (agents m) j = Some a ->
        monitoring_capacity a = Some (5#10) ->
        exists q,
          monitoring_capacity
            (agent_at j (apply_policy_intervention "monitoring" 1 m)) = Some q
          /\ q == 8#10)
  /\ (forall j a mc,
        nth_error
          (agents (Nat.iter (S k)
                     (apply_policy_intervention "monitoring" intensity) m)) j
        = Some a ->
        monitoring_capacity a = Some mc -> mc <= 1).
Proof.
  unfold apply_policy_intervention. simpl String.eqb. cbv iota.
  split; [apply same_engine_set_agents_map|]. split; [|split].
  - intros j a Hj. exists (policy_monitoring intensity a). split.
    + simpl. now apply map_nth_error.
    + unfold policy_monitoring, role.
      destruct a as [uid x ? ? ? ? ? ? ?]; destruct x; simpl; try reflexivity.
      exists (py_min 1 (monitoring_capacity0 + intensity * (3#10))).
      split; [reflexivity | apply py_min_1_cases].
  - intros j a Hj Hmc. unfold agent_at. simpl agents.
    rewrite (nth_error_nth_default _ _ _ _
               (map_nth_error (policy_monitoring 1) _ _ Hj)).
    unfold monitoring_capacity, policy_monitoring, role in *.
    destruct a as [uid x ? ? ? ? ? ? ?]; destruct x; simpl in *;
      try discriminate.
    injection Hmc as ->. eexists. split; [reflexivity|].
    vm_compute. reflexivity.
  - simpl Nat.iter. simpl agents. intros j a mc Hj Hmc.
    rewrite nth_error_map in Hj.
    destruct (nth_error (agents (Nat.iter k _ m)) j) as [a0|];
      [|discriminate].
    simpl in Hj. injection Hj as <-.
    unfold monitoring_capacity, policy_monitoring, role in Hmc.
    destruct a0 as [uid x ? ? ? ? ? ? ?]; destruct x; simpl in Hmc;
      try discriminate.
    injection Hmc as <-. apply py_min_1_le.
Qed.

(** ** Claims about runs of the constructed engine *)

Section Runs.

Variable seeded_stream : Z -> nat -> Q.
Variable watts_strogatz_graph : nat -> nat -> Q -> Z -> Graph.

Let init := AIEMModel_init seeded_stream watts_strogatz_graph.
Let valid := valid_graph watts_strogatz_graph.

(** C3. At every boundary of a run of the constructed engine (after any
    sequence of steps and interventions), for every agent
    [arrest_count >= 2], [active == False] and absence of its id from the
    network are equivalent; the nodes are exactly the ids of the active
    agents; and the node count plus the number of deactivated agents is
    the total agent count, which the registry keeps. *)
Theorem arrested_inactive_removed_equivalent (p : Params) (es : list Event) :
  valid p -> (0 < total_agents p)%nat ->
  exists m,
    exec es (init p) = Ok m
    /\ (forall a, In a (agents m) ->
          ((2 <= arrest_count a)%Z <-> active a = false)
          /\ (active a = false <-> ~ In (unique_id a) (nodes (network m))))
    /\ (forall v, In v (nodes (network m)) <->
                  exists a, In a (agents m) /\ unique_id a = v
                            /\ active a = true)
    /\ (length (nodes (network m))
        + length (filter (fun a => negb (active a)) (agents m))
        = total_agents p)%nat
    /\ length (agents m) = total_agents p.
Proof.
  intros HG Hn.
  destruct (exec_init_total seeded_stream watts_strogatz_graph p false es
              HG Hn) as [m [E I]]; [discriminate|].
  exists m. split; [exact E|]. apply (Inv_registry_network _ _ _ I).
Qed.

(** C4. A call of [intervene_agent] that finds an active agent adds one
    to its [arrest_count] and one to [arrests_this_step], and when the
    count reaches 2 the agent is deactivated and its node is no longer in
    the network; a call that finds no agent or an inactive one returns
    with the registry, both per-step counters and the network unchanged;
    and at every boundary of a run [arrests_this_step] is non-negative
    and equals the number of [intervene_agent] calls of the step. *)
Theorem intervene_agent_counts (m : AIEMModel) (x j : nat)
  (m2 : AIEMModel) (x2 : nat) (p : Params) (es : list Event) :
  (get_agent_by_id m x = Some j -> active (agent_at j m) = true ->
   exists m',
     intervene_agent x m = Ok m'
     /\ arrest_count (agent_at j m') = (arrest_count (agent_at j m) + 1)%Z
     /\ arrests_this_step m' = (arrests_this_step m + 1)%Z
     /\ reports_this_step m' = reports_this_step m
     /\ ((2 <= arrest_count (agent_at j m'))%Z ->
         active (agent_at j m') = false
         /\ has_node (network m') (unique_id (agent_at j m')) = false)
     /\ ((arrest_count (agent_at j m') < 2)%Z ->
         active (agent_at j m') = true /\ network m' = network m))
  /\ (match get_agent_by_id m2 x2 with
      | Some j2 => active (agent_at j2 m2) = false
      | None => True
      end ->
      exists m',
        intervene_agent x2 m2 = Ok m'
        /\ agents m' = agents m2
        /\ arrests_this_step m' = arrests_this_step m2
        /\ reports_this_step m' = reports_this_step m2
        /\ network m' = network m2)
  /\ (valid p -> (0 < total_agents p)%nat ->
      exists m',
        exec es (init p) = Ok m'
        /\ (0 <= arrests_this_step m')%Z
        /\ arrests_this_step m' = intervene_calls m').
Proof.
  split; [|split].
  - intros Hg Ha. pose proof (get_agent_by_id_lt _ _ _ Hg) as Hj.
    destruct (intervene_agent_active _ _ _ Hg Ha)
      as [m' [E [Hag [Har [_ [Hrp [_ [_ [_ [_ HG]]]]]]]]]].
    exists m'. split; [exact E|].
    assert (Hat : agent_at j m' = arrest_agent (agent_at j m)).
    { unfold agent_at. rewrite Hag. now apply nth_upd_eq. }
    rewrite Hat. unfold arrest_agent.
    destruct (2 <=? arrest_count (agent_at j m) + 1)%Z eqn:E2; simpl in *.
    + apply Z.leb_le in E2. repeat split; try assumption; try lia.
      destruct (has_node (network m) (unique_id (agent_at j m))) eqn:Hn.
      * destruct (has_node (network m') (unique_id (agent_at j m))) eqn:Hn';
          [|reflexivity].
        apply has_node_In in Hn'. rewrite HG in Hn'.
        apply filter_In in Hn'. destruct Hn' as [_ Hn'].
        rewrite Nat.eqb_refl in Hn'. discriminate.
      * rewrite HG. assumption.
    + apply Z.leb_gt in E2. repeat split; try assumption; try lia.
  - intro H. rewrite (intervene_agent_inactive _ _ H).
    eexists. split; [reflexivity|]. simpl. tauto.
  - intros HG Hn.
    destruct (exec_init_total seeded_stream watts_strogatz_graph p false es
                HG Hn) as [m' [E I]]; [discriminate|].
    exists m'. split; [exact E|]. split.
    + apply (inv_nonneg _ _ _ I).
    + apply (inv_calls _ _ _ I).
Qed.

(** C5 (amended). With parameters and draws in the unit interval, every
    run of the constructed engine whose interventions have a non-negative
    intensity returns, and ends with [legitimacy], [risk_tolerance],
    [social_capital], [detection_exposure], [economic_stress],
    [monitoring_capacity], [reporting_propensity] and [vulnerability] of
    every agent in [[0,1]]; and a report, an arrest, or an intervention of
    non-negative intensity keeps them there. *)
Theorem clamped_attributes_stay_in_unit_interval (p : Params)
  (es : list Event) (m0 : AIEMModel) (x : nat) (t : string) (y : Q) :
  (valid p -> (0 < total_agents p)%nat -> unit_params seeded_stream p ->
   Forall nonneg_event es ->
   exists m, exec es (init p) = Ok m /\ bounded m)
  /\ (bounded m0 -> bounded (report_suspicious_activity x m0))
  /\ (bounded m0 -> exists m', intervene_agent x m0 = Ok m' /\ bounded m')
  /\ (bounded m0 -> 0 <= y -> bounded (apply_policy_intervention t y m0)).
Proof.
  split; [|split; [|split]].
  - intros HG Hn Hp Hes.
    destruct (exec_init_total seeded_stream watts_strogatz_graph p true es
                HG Hn) as [m [E I]]; [auto|].
    exists m. split; [exact E|]. apply (inv_bounded _ _ _ I). reflexivity.
  - apply report_suspicious_activity_ext.
  - apply intervene_agent_bounded.
  - intros Bm Hy. now apply apply_policy_intervention_ext.
Qed.

(** C6. [running] is [True] after construction; after any run it is
    [True] exactly when every recorded step ended with a positive count
    of active Leaders, Operatives and Brokers; one more [step()] appends
    one row holding that count, leaves [running] true only if it was true
    and the count is positive, sets [recent_arrest_rate] to 0 when the
    count is zero, and never turns [running] back to [True]. *)
Theorem running_stops_at_first_zero_count (p : Params) (es : list Event)
  (agent_list : list nat) :
  valid p -> (0 < total_agents p)%nat ->
  running (init p) = true
  /\ exists m m',
       exec es (init p) = Ok m
       /\ step_in_order agent_list m = Ok m'
       /\ exec (es ++ [EvStep agent_list]) (init p) = Ok m'
       /\ (running m = true <->
           forall row, In row (datacollector m) -> (0 < row_illicit row)%nat)
       /\ (exists row, datacollector m' = (datacollector m ++ [row])%list
                       /\ row_illicit row = active_illicit_count m')
       /\ (running m' = true <->
           running m = true /\ (0 < active_illicit_count m')%nat)
       /\ (running m = false -> running m' = false)
       /\ ((active_illicit_count m' = 0)%nat ->
           running m' = false /\ recent_arrest_rate m' = 0).
Proof.
  intros HG Hn. split.
  { destruct (AIEMModel_init_fields seeded_stream watts_strogatz_graph p)
      as [_ [_ [_ [_ [Hr _]]]]]. exact Hr. }
  destruct (exec_init_total seeded_stream watts_strogatz_graph p false es
              HG Hn) as [m [E I]]; [discriminate|].
  pose proof (step_in_order_Inv _ _ agent_list m I) as Hs.
  destruct (step_in_order agent_list m) as [m'|e] eqn:Es; [|lia].
  destruct (step_in_order_effect _ _ _ _ _ I Es)
    as [Hrun [[row [Hdc [Hrow _]]] Hrate]].
  exists m, m'. split; [exact E|]. split; [exact Es|]. split.
  { unfold exec in *. rewrite for_each_app. unfold init. rewrite E.
    simpl. rewrite Es. reflexivity. }
  split.
  { rewrite (inv_running _ _ _ I), forallb_forall.
    split; intros H row0 Hin; [apply Nat.ltb_lt | apply Nat.ltb_lt]; auto. }
  split; [exists row; auto|].
  rewrite Hrun.
  destruct (active_illicit_count m') as [|c]; simpl.
  - repeat split; auto; try discriminate; try lia.
  - repeat split; auto; try lia; try tauto; discriminate.
Qed.

(** C10. From every state a run of the constructed engine reaches, the
    activation of any agent returns: no neighbour lookup meets a missing
    node, since an active agent's id is a node of the network; and no run
    ever raises the missing-node error. *)
Theorem neighbor_lookups_find_their_node (p : Params) (es : list Event)
  (i : nat) :
  valid p ->
  exec es (init p) <> Raise NetworkXError
  /\ ((0 < total_agents p)%nat ->
      exists m,
        exec es (init p) = Ok m
        /\ (forall a, In a (agents m) -> active a = true ->
                      has_node (network m) (unique_id a) = true)
        /\ (forall a, In a (agents m) -> role a = Authority ->
                      active a = true)
        /\ exists m', agent_step i m = Ok m').
Proof.
  intro HG. split.
  - pose proof (exec_init_Inv seeded_stream watts_strogatz_graph p false es HG)
      as H.
    fold init in H. destruct (exec es (init p)) as [m|e]; [discriminate|].
    destruct H as [-> _]; discriminate.
  - intro Hn.
    destruct (exec_init_total seeded_stream watts_strogatz_graph p false es
                HG Hn) as [m [E I]]; [discriminate|].
    exists m. split; [exact E|]. split; [|split].
    + intros a Hin Ha. apply has_node_In.
      destruct (Inv_In_index _ _ _ _ I Hin) as [Hs _].
      apply (wf_node _ _ _ (inv_wf _ _ _ I) _ _ Hs). exact Ha.
    + intros a Hin Hr.
      destruct (Inv_In_index _ _ _ _ I Hin) as [Hs _].
      apply (wf_auth _ _ _ (inv_wf _ _ _ I) _ _ Hs). exact Hr.
    + destruct (agent_step_Inv _ _ i m I) as [m' [E' _]]. eauto.
Qed.

End Runs.

(** ** Concrete engines *)

Lemma demo_unit_params : unit_params demo_stream demo_params.
Proof.
  unfold unit_params, in01. simpl. repeat split; try lra.
  - unfold demo_stream. destruct (k <? 20)%nat; lra.
  - unfold demo_stream. destruct (k <? 20)%nat; lra.
Qed.

Lemma demo_run :
  exists m, exec demo_trace demo_init = Ok m
            /\ map active (agents m) = [false; false; true]
            /\ map arrest_count (agents m) = [2%Z; 2%Z; 0%Z]
            /\ nodes (network m) = [2%nat]
            /\ running m = false
            /\ map row_illicit (datacollector m) = [2%nat; 1%nat; 0%nat]
            /\ map ArrestsThisStep (datacollector m) = [1%Z; 2%Z; 1%Z].
Proof. eexists. split; [vm_compute; reflexivity|]. vm_compute. tauto. Qed.

(** ** Witnesses and counterexamples *)

Lemma distribute_resources_conserves_total_witness :
  (0 < length (agents c2_model))%nat
  /\ has_node (network c2_model) (unique_id (agent_at 0 c2_model)) = true
  /\ exists m', distribute_resources 0 c2_model = Ok m'
                /\ total_resources m' == total_resources c2_model.
Proof.
  split; [simpl; lia|]. split; [reflexivity|].
  apply (distribute_resources_conserves_total 0 c2_model);
    [simpl; lia | reflexivity].
Defined.

Lemma arrested_inactive_removed_equivalent_witness :
  valid_graph ring_graph demo_params
  /\ (0 < total_agents demo_params)%nat
  /\ exists m,
       exec demo_trace demo_init = Ok m
       /\ (forall a, In a (agents m) ->
             ((2 <= arrest_count a)%Z <-> active a = false)
             /\ (active a = false <-> ~ In (unique_id a) (nodes (network m))))
       /\ (forall v, In v (nodes (network m)) <->
                     exists a, In a (agents m) /\ unique_id a = v
                               /\ active a = true)
       /\ (length (nodes (network m))
           + length (filter (fun a => negb (active a)) (agents m))
           = total_agents demo_params)%nat
       /\ length (agents m) = total_agents demo_params.
Proof.
  split; [reflexivity|]. split; [unfold total_agents; simpl; lia|].
  apply (arrested_inactive_removed_equivalent demo_stream ring_graph
           demo_params demo_trace);
    [reflexivity | unfold total_agents; simpl; lia].
Defined.

Lemma intervene_agent_counts_witness :
  (exists m',
     intervene_agent 1 c2_model = Ok m'
     /\ arrest_count (agent_at 1 m') = 1%Z
     /\ arrests_this_step m' = 1%Z)
  /\ (exists m',
        intervene_agent 0 c4_model = Ok m'
        /\ agents m' = agents c4_model
        /\ arrests_this_step m' = arrests_this_step c4_model
        /\ reports_this_step m' = reports_this_step c4_model
        /\ network m' = network c4_model)
  /\ (exists m',
        exec demo_trace demo_init = Ok m'
        /\ (0 <= arrests_this_step m')%Z
        /\ arrests_this_step m' = intervene_calls m').
Proof.
  destruct (intervene_agent_counts demo_stream ring_graph c2_model 1 1
              c4_model 0 demo_params demo_trace) as [Ha [Hb Hc]].
  split; [|split].
  - destruct (Ha eq_refl eq_refl) as [m' [E [H1 [H2 _]]]].
    exists m'. split; [exact E|]. split; [exact H1 | exact H2].
  - apply Hb. reflexivity.
  - apply Hc; [reflexivity | unfold total_agents; simpl; lia].
Defined.

(** C5, as stated, fails: on the engine built from [demo_params] every
    attribute starts in [[0,1]], and the intervention
    [monitoring] with intensity [-2] leaves the Authority with
    [monitoring_capacity = 0.5 - 0.6 < 0]. *)
Lemma negative_intensity_leaves_unit_interval :
  bounded demo_init
  /\ exists m, exec [EvPolicy "monitoring" (-2 # 1)] demo_init = Ok m
               /\ ~ bounded m.
Proof.
  split.
  - apply (inv_bounded (total_agents demo_params) true); [|reflexivity].
    apply AIEMModel_init_Inv; [reflexivity|].
    intros _. apply demo_unit_params.
  - eexists. split; [vm_compute; reflexivity|].
    intro H. unfold bounded in H. simpl in H.
    inversion H as [|? ? _ H1]; subst. inversion H1 as [|? ? _ H2]; subst.
    inversion H2 as [|? ? H3 _]; subst.
    destruct H3 as [_ _ _ _ [H0 _]]. vm_compute in H0. apply H0. reflexivity.
Qed.

Lemma clamped_attributes_stay_in_unit_interval_witness :
  (exists m, exec demo_trace demo_init = Ok m /\ bounded m)
  /\ bounded (report_suspicious_activity 1 c2_model)
  /\ (exists m', intervene_agent 1 c2_model = Ok m' /\ bounded m')
  /\ bounded (apply_policy_intervention "monitoring" 1 c2_model).
Proof.
  assert (Bc2 : bounded c2_model).
  { unfold bounded, c2_model, in01. simpl.
    repeat constructor; simpl; unfold in01; try lra; split; lra. }
  destruct (clamped_attributes_stay_in_unit_interval demo_stream ring_graph
              demo_params demo_trace c2_model 1 "monitoring" 1)
    as [Ha [Hb [Hc Hd]]].
  split; [|split; [|split]].
  - apply Ha.
    + reflexivity.
    + unfold total_agents; simpl; lia.
    + apply demo_unit_params.
    + unfold demo_trace. repeat constructor; simpl; lra.
  - apply Hb, Bc2.
  - apply Hc, Bc2.
  - apply Hd; [apply Bc2 | lra].
Defined.

Lemma running_stops_at_first_zero_count_witness :
  valid_graph ring_graph demo_params
  /\ (0 < total_agents demo_params)%nat
  /\ running demo_init = true
  /\ exists m m',
       exec demo_trace demo_init = Ok m
       /\ step_in_order [0%nat; 1%nat; 2%nat] m = Ok m'
       /\ running m = false /\ running m' = false.
Proof.
  split; [reflexivity|]. split; [unfold total_agents; simpl; lia|].
  destruct (running_stops_at_first_zero_count demo_stream ring_graph
              demo_params demo_trace [0%nat; 1%nat; 2%nat])
    as [Hr [m [m' [E [Es [_ [_ [_ [_ [Hstay _]]]]]]]]]];
    [reflexivity | unfold total_agents; simpl; lia |].
  split; [exact Hr|]. exists m, m'.
  assert (Hm : running m = false).
  { destruct demo_run as [m0 [E0 [_ [_ [_ [R0 _]]]]]].
    fold demo_init in E. rewrite E in E0. injection E0 as ->. exact R0. }
  split; [exact E|]. split; [exact Es|]. split; [exact Hm | exact (Hstay Hm)].
Defined.

Lemma neighbor_lookups_find_their_node_witness :
  valid_graph ring_graph demo_params
  /\ exec demo_trace demo_init <> Raise NetworkXError
  /\ exists m, exec demo_trace demo_init = Ok m
               /\ exists m', agent_step 2 m = Ok m'.
Proof.
  split; [reflexivity|].
  destruct (neighbor_lookups_find_their_node demo_stream ring_graph
              demo_params demo_trace 2) as [Hno Hok]; [reflexivity|].
  split; [exact Hno|].
  destruct Hok as [m [E [_ [_ Hstep]]]]; [unfold total_agents; simpl; lia|].
  exists m. split; [exact E | exact Hstep].
Defined.

Lemma economic_support_effect_witness :
  exists a',
    nth_error (agents (apply_policy_intervention "economic_support" 1
                         c2_model)) 1 = Some a'
    /\ exists es',
         a' = set_resources (0 + 1 * (2#10))
                (set_extra (OperativeX es')
                   (mkAgent 1 (OperativeX (1#2)) 0 (1#2) (1#2) (1#2) (1#2)
                            true 0%Z))
         /\ (0 < (1#2) - 1 * (3#10) -> es' = (1#2) - 1 * (3#10))
         /\ ((1#2) - 1 * (3#10) <= 0 -> es' = 0).
Proof.
  destruct (economic_support_effect 1 c2_model) as [_ H].
  exact (H 1%nat _ eq_refl).
Defined.

Lemma monitoring_effect_witness :
  (exists q,
     monitoring_capacity
       (agent_at 0 (apply_policy_intervention "monitoring" 1 c8_model))
     = Some q
     /\ q == 8#10)
  /\ (forall a mc,
        nth_error
          (agents (Nat.iter 3 (apply_policy_intervention "monitoring" 1)
                     c8_model)) 0 = Some a ->
        monitoring_capacity a = Some mc -> mc <= 1).
Proof.
  destruct (monitoring_effect 1 c8_model 2) as [_ [_ [H8 Hcap]]].
  split.
  - exact (H8 0%nat _ eq_refl eq_refl).
  - exact (Hcap 0%nat).
Defined.

(** C1 fails on the code: same parameters, same seed, one step, no
    intervention, and two states of the module-level generator that
    [random.shuffle] reads give two different Metrics tables. *)
Theorem shuffle_order_escapes_the_seed :
  exists r1 r2,
    metrics_table
      (run_simulation c1_stream ring_graph c1_params 1 []
         (mkRandom (fun _ => 3#4) O)) = Some [r1]
    /\ metrics_table
         (run_simulation c1_stream ring_graph c1_params 1 []
            (mkRandom (fun _ => 1#4) O)) = Some [r2]
    /\ AverageDetectionExposure r1 == 4#10
    /\ AverageDetectionExposure r2 == 45#100
    /\ ~ AverageDetectionExposure r1 == AverageDetectionExposure r2.
Proof.
  eexists. eexists. split; [vm_compute; reflexivity|].
  split; [vm_compute; reflexivity|].
  repeat split; vm_compute; congruence.
Qed.

(** * Further properties of the engine *)

(** ** Registry lookup *)

Lemma find_index_none (l : list Agent) (x k : nat) :
  find_index l x k = None <-> ~ In x (map unique_id l).
Proof.
  revert k. induction l as [|a t IH]; intro k; simpl.
  - split; [intros _ H; exact H | reflexivity].
  - destruct (unique_id a =? x)%nat eqn:E.
    + apply Nat.eqb_eq in E. split; [discriminate | intro H; tauto].
    + apply Nat.eqb_neq in E. rewrite IH. tauto.
Qed.

Lemma find_index_earliest (l : list Agent) (x k j q : nat) (d : Agent) :
  find_index l x k = Some j -> (q < j - k)%nat -> unique_id (nth q l d) <> x.
Proof.
  revert k q. induction l as [|a t IH]; intros k q H Hq; simpl in *;
    [discriminate|].
  destruct (unique_id a =? x)%nat eqn:E.
  - injection H as <-. lia.
  - destruct q as [|q]; [now apply Nat.eqb_neq|].
    apply (IH (S k)); [assumption | lia].
Qed.

(** X1. [get_agent_by_id] returns the first registered agent carrying the
    id, fails exactly when no agent carries it, and, in a registry with
    distinct ids, finds every agent by its own id. *)
Theorem get_agent_by_id_finds_first (m : AIEMModel) (x : nat) :
  (forall j, get_agent_by_id m x = Some j ->
     (j < length (agents m))%nat
     /\ unique_id (agent_at j m) = x
     /\ forall q, (q < j)%nat -> unique_id (agent_at q m) <> x)
  /\ (get_agent_by_id m x = None <-> ~ In x (map unique_id (agents m)))
  /\ (NoDup (map unique_id (agents m)) ->
      forall j, (j < length (agents m))%nat ->
                get_agent_by_id m (unique_id (agent_at j m)) = Some j).
Proof.
  unfold get_agent_by_id, agent_at. split; [|split].
  - intros j H. split; [|split].
    + apply find_index_bound in H. lia.
    + apply (find_index_id _ _ _ _ no_agent) in H.
      now rewrite Nat.sub_0_r in H.
    + intros q Hq. apply (find_index_earliest _ _ _ _ _ no_agent H). lia.
  - apply find_index_none.
  - intros Hnd j Hj. now rewrite find_index_first.
Qed.

Lemma get_agent_by_id_finds_first_witness :
  get_agent_by_id c2_model 2 = Some 2%nat
  /\ (2 < length (agents c2_model))%nat
  /\ unique_id (agent_at 2 c2_model) = 2%nat
  /\ ~ In 7%nat (map unique_id (agents c2_model))
  /\ get_agent_by_id c2_model 7 = None
  /\ get_agent_by_id c2_model (unique_id (agent_at 1 c2_model)) = Some 1%nat.
Proof.
  destruct (get_agent_by_id_finds_first c2_model 2) as [H2 _].
  destruct (get_agent_by_id_finds_first c2_model 7) as [_ [H7 Hall]].
  destruct (H2 2%nat eq_refl) as [Hlt [Hid _]].
  assert (Hnot : ~ In 7%nat (map unique_id (agents c2_model)))
    by (simpl; intuition discriminate).
  split; [reflexivity|]. split; [exact Hlt|]. split; [exact Hid|].
  split; [exact Hnot|]. split; [apply H7; exact Hnot|].
  apply Hall; [|simpl; lia].
  simpl. repeat constructor; simpl; intuition discriminate.
Defined.

(** ** Node removal *)

Lemma find_after_removal (G : Graph) (n v : nat) :
  v <> n ->
  find (fun p => (fst p =? v)%nat)
    (map (fun p => (fst p, filter (fun w => negb (w =? n)%nat) (snd p)))
         (filter (fun p => negb (fst p =? n)%nat) G))
  = option_map
      (fun p => (fst p, filter (fun w => negb (w =? n)%nat) (snd p)))
      (find (fun p => (fst p =? v)%nat) G).
Proof.
  intro Hv. induction G as [|p G IH]; simpl; [reflexivity|].
  destruct (fst p =? n)%nat eqn:En; simpl.
  - apply Nat.eqb_eq in En.
    destruct (fst p =? v)%nat eqn:Ev; [|exact IH].
    apply Nat.eqb_eq in Ev. congruence.
  - destruct (fst p =? v)%nat; [reflexivity | exact IH].
Qed.

(** X2. [remove_node] raises on an absent node; on a present node it
    removes the node, keeps every other node, removes the node from every
    neighbour list and leaves the rest of each list as it was; a second
    removal raises. *)
Theorem remove_node_removes_incident_edges (G : Graph) (n : nat) :
  (has_node G n = false -> remove_node G n = Raise NetworkXError)
  /\ (has_node G n = true ->
      exists G',
        remove_node G n = Ok G'
        /\ has_node G' n = false
        /\ (forall v, v <> n -> has_node G' v = has_node G v)
        /\ (forall v ns, v <> n -> neighbors G v = Ok ns ->
              neighbors G' v = Ok (filter (fun w => negb (w =? n)%nat) ns))
        /\ (forall v ns, neighbors G' v = Ok ns -> ~ In n ns)
        /\ remove_node G' n = Raise NetworkXError).
Proof.
  split; [intro H; unfold remove_node; now rewrite H|].
  intro H. destruct (remove_node_Ok G n H) as [G' [E Hn]].
  assert (Hnot : has_node G' n = false).
  { destruct (has_node G' n) eqn:En; [|reflexivity].
    apply has_node_In in En. rewrite Hn in En. apply filter_In in En.
    destruct En as [_ En]. now rewrite Nat.eqb_refl in En. }
  exists G'. split; [exact E|]. split; [exact Hnot|].
  unfold remove_node in E. rewrite H in E. injection E as <-.
  split; [|split; [|split]].
  - intros v Hv.
    assert (Hiff : has_node
                     (map (fun p => (fst p,
                                     filter (fun w => negb (w =? n)%nat)
                                            (snd p)))
                          (filter (fun p => negb (fst p =? n)%nat) G)) v = true
                   <-> has_node G v = true).
    { rewrite !has_node_In, Hn, filter_In, negb_true_iff, Nat.eqb_neq. tauto. }
    destruct (has_node G v); destruct (has_node _ v); intuition congruence.
  - intros v ns Hv Hns. unfold neighbors in *.
    rewrite (find_after_removal G n v Hv).
    destruct (find (fun p => (fst p =? v)%nat) G) as [p|]; [|discriminate].
    injection Hns as <-. reflexivity.
  - intros v ns Hns Hin. unfold neighbors in Hns.
    destruct (find _ _) as [p|] eqn:Ef; [|discriminate].
    injection Hns as <-. apply find_some in Ef. destruct Ef as [Hp _].
    apply in_map_iff in Hp. destruct Hp as [p0 [<- _]]. simpl in Hin.
    apply filter_In in Hin. destruct Hin as [_ Hin].
    now rewrite Nat.eqb_refl in Hin.
  - unfold remove_node. now rewrite Hnot.
Qed.

Lemma remove_node_removes_incident_edges_witness :
  remove_node (network c4_model) 0 = Raise NetworkXError
  /\ exists G',
       remove_node (network c2_model) 2 = Ok G'
       /\ has_node G' 2 = false
       /\ neighbors G' 0 = Ok [1%nat]
       /\ remove_node G' 2 = Raise NetworkXError.
Proof.
  destruct (remove_node_removes_incident_edges (network c4_model) 0)
    as [Habs _].
  destruct (remove_node_removes_incident_edges (network c2_model) 2)
    as [_ Hpres].
  split; [apply Habs; reflexivity|].
  destruct (Hpres eq_refl) as [G' [E [Hn [_ [Hnb [_ Hagain]]]]]].
  exists G'. split; [exact E|]. split; [exact Hn|]. split; [|exact Hagain].
  apply (Hnb 0%nat [1%nat; 2%nat]); [discriminate | reflexivity].
Defined.

(** ** Inactive agents *)

(** X3. The activation of an inactive agent of any class but Authority
    returns the engine unchanged: no lookup, no draw, no write.  An
    inactive Authority skips the shared pre-step only and still runs its
    scan. *)
Theorem inactive_agent_does_not_act (i : nat) (m : AIEMModel) (a : Agent) :
  nth_error (agents m) i = Some a -> active a = false ->
  (role a <> Authority -> agent_step i m = Ok m)
  /\ (role a = Authority -> agent_step i m = monitor_and_intervene i m).
Proof.
  intros Hi Ha.
  assert (Hat : agent_at i m = a) by (now apply nth_error_nth_default).
  assert (Habs : AbstractAgent_step i m = Ok m)
    by (unfold AbstractAgent_step; now rewrite Hat, Ha).
  unfold agent_step, role. rewrite Hi.
  unfold Leader_step, Operative_step, Broker_step, Facilitator_step,
    CommunityMember_step, Authority_step.
  rewrite Habs. cbn [bind]. rewrite Hat, Ha. cbn [negb].
  destruct (extra a); split; intro H; try reflexivity; try discriminate;
    exfalso; apply H; reflexivity.
Qed.

Lemma inactive_agent_does_not_act_witness :
  nth_error (agents c4_model) 0
  = Some (mkAgent 0 (OperativeX (1#2)) (1#2) (1#2) (1#2) (1#2) (1#2)
                  false 2%Z)
  /\ agent_step 0 c4_model = Ok c4_model.
Proof.
  split; [reflexivity|].
  destruct (inactive_agent_does_not_act 0 c4_model _ eq_refl eq_refl)
    as [H _].
  apply H. discriminate.
Defined.

(** ** Reports *)

(** X4. [report_suspicious_activity] counts the report whether or not the
    id is registered, and touches nothing but the counter and the
    target's [detection_exposure], which it sets to the old value plus
    0.2 capped at 1, whatever the target's [active] flag; an exposure
    that was at most 1 never decreases. *)
Theorem report_counts_and_raises_exposure (x : nat) (m : AIEMModel) :
  let m' := report_suspicious_activity x m in
  reports_this_step m' = (reports_this_step m + 1)%Z
  /\ length (agents m') = length (agents m)
  /\ network m' = network m
  /\ arrests_this_step m' = arrests_this_step m
  /\ recent_arrest_rate m' = recent_arrest_rate m
  /\ running m' = running m
  /\ random m' = random m
  /\ datacollector m' = datacollector m
  /\ (get_agent_by_id m x = None -> agents m' = agents m)
  /\ (forall j, get_agent_by_id m x = Some j ->
        (forall q, q <> j -> agent_at q m' = agent_at q m)
        /\ exists de,
             agent_at j m' = set_detection_exposure de (agent_at j m)
             /\ (detection_exposure (agent_at j m) + (2#10) < 1 ->
                 de = detection_exposure (agent_at j m) + (2#10))
             /\ (1 <= detection_exposure (agent_at j m) + (2#10) -> de = 1)
             /\ (detection_exposure (agent_at j m) <= 1 ->
                 detection_exposure (agent_at j m) <= de /\ de <= 1)).
Proof.
  unfold report_suspicious_activity.
  change (get_agent_by_id
            (set_reports_this_step (reports_this_step m + 1) m) x)
    with (get_agent_by_id m x).
  destruct (get_agent_by_id m x) as [j|] eqn:E; simpl.
  - rewrite length_upd. do 8 (split; [reflexivity|]).
    split; [discriminate|].
    intros j0 Hj0. injection Hj0 as <-.
    pose proof (get_agent_by_id_lt _ _ _ E) as Hj. split.
    + intros q Hq. unfold agent_at. simpl. now apply nth_upd_neq.
    + exists (py_min 1 (detection_exposure (agent_at j m) + (2#10))).
      split; [|split; [|split]].
      * unfold agent_at. simpl. now rewrite nth_upd_eq.
      * apply py_min_1_cases.
      * apply py_min_1_cases.
      * intro Hle. unfold py_min.
        destruct (Qltb (detection_exposure (agent_at j m) + (2#10)) 1) eqn:Eq.
        -- apply Qltb_true in Eq. split; lra.
        -- split; lra.
  - do 8 (split; [reflexivity|]). split; [intros _; reflexivity|].
    intros j0 Hj0. discriminate.
Qed.

Lemma report_counts_and_raises_exposure_witness :
  get_agent_by_id c4_model 0 = Some 0%nat
  /\ get_agent_by_id c4_model 9 = None
  /\ agents (report_suspicious_activity 9 c4_model) = agents c4_model
  /\ exists de,
       agent_at 0 (report_suspicious_activity 0 c4_model)
       = set_detection_exposure de (agent_at 0 c4_model)
       /\ (1#2) <= de /\ de <= 1.
Proof.
  split; [reflexivity|]. split; [reflexivity|].
  destruct (report_counts_and_raises_exposure 9 c4_model)
    as [_ [_ [_ [_ [_ [_ [_ [_ [Hnone _]]]]]]]]].
  destruct (report_counts_and_raises_exposure 0 c4_model)
    as [_ [_ [_ [_ [_ [_ [_ [_ [_ Hsome]]]]]]]]].
  split; [apply Hnone; reflexivity|].
  destruct (Hsome 0%nat eq_refl) as [_ [de [Hde [_ [_ Hrange]]]]].
  exists de. split; [exact Hde|]. apply Hrange. simpl. lra.
Defined.

(** ** Interventions *)

(** X5. One call of
    [apply_policy_intervention('community_engagement', intensity)] sets
    every CommunityMember's [reporting_propensity] to its old value plus
    [intensity*0.2], capped at 1, and changes nothing else; after any
    number of applications no [reporting_propensity] exceeds 1. *)
Theorem community_engagement_effect (intensity : Q) (m : AIEMModel) (k : nat) :
  let m' := apply_policy_intervention "community_engagement" intensity m in
  same_engine m m'
  /\ (forall j a, nth_error (agents m) j = Some a ->
        exists a', nth_error (agents m') j = Some a'
          /\ match extra a with
             | CommunityMemberX v rp =>
                 exists rp',
                   a' = set_extra (CommunityMemberX v rp') a
                   /\ (rp + intensity * (2#10) < 1 ->
                       rp' = rp + intensity * (2#10))
                   /\ (1 <= rp + intensity * (2#10) -> rp' = 1)
             | _ => a' = a
             end)
  /\ (forall j a rp,
        nth_error
          (agents (Nat.iter (S k)
                     (apply_policy_intervention "community_engagement"
                        intensity) m)) j
        = Some a ->
        reporting_propensity a = Some rp -> rp <= 1).
Proof.
  unfold apply_policy_intervention. simpl String.eqb. cbv iota.
  split; [apply same_engine_set_agents_map|]. split.
  - intros j a Hj. exists (policy_community_engagement intensity a). split.
    + simpl. now apply map_nth_error.
    + unfold policy_community_engagement, role.
      destruct a as [uid x ? ? ? ? ? ? ?]; destruct x; simpl; try reflexivity.
      exists (py_min 1 (reporting_propensity0 + intensity * (2#10))).
      split; [reflexivity | apply py_min_1_cases].
  - simpl Nat.iter. simpl agents. intros j a rp Hj Hrp.
    rewrite nth_error_map in Hj.
    destruct (nth_error (agents (Nat.iter k _ m)) j) as [a0|];
      [|discriminate].
    simpl in Hj. injection Hj as <-.
    unfold reporting_propensity, policy_community_engagement, role in Hrp.
    destruct a0 as [uid x ? ? ? ? ? ? ?]; destruct x; simpl in Hrp;
      try discriminate.
    injection Hrp as <-. apply py_min_1_le.
Qed.

Lemma community_engagement_effect_witness :
  (exists a',
     nth_error
       (agents (apply_policy_intervention "community_engagement" 1 c7_model))
       0 = Some a'
     /\ exists rp',
          a' = set_extra (CommunityMemberX (1#2) rp')
                 (mkAgent 0 (CommunityMemberX (1#2) (1#2)) (1#2) (8#10) (1#2)
                          (1#2) (1#2) true 0%Z)
          /\ ((1#2) + 1 * (2#10) < 1 -> rp' = (1#2) + 1 * (2#10))
          /\ (1 <= (1#2) + 1 * (2#10) -> rp' = 1))
  /\ (forall a rp,
        nth_error
          (agents (Nat.iter 4
                     (apply_policy_intervention "community_engagement" 1)
                     c7_model)) 0 = Some a ->
        reporting_propensity a = Some rp -> rp <= 1).
Proof.
  destruct (community_engagement_effect 1 c7_model 3) as [_ [H1 H2]].
  split; [exact (H1 0%nat _ eq_refl) | exact (H2 0%nat)].
Defined.

Lemma policy_monitoring_economic_commute (x y : Q) (a : Agent) :
  policy_monitoring x (policy_economic_support y a)
  = policy_economic_support y (policy_monitoring x a).
Proof. destruct a as [uid e ? ? ? ? ? ? ?]; destruct e; reflexivity. Qed.

Lemma policy_monitoring_community_commute (x y : Q) (a : Agent) :
  policy_monitoring x (policy_community_engagement y a)
  = policy_community_engagement y (policy_monitoring x a).
Proof. destruct a as [uid e ? ? ? ? ? ? ?]; destruct e; reflexivity. Qed.

Lemma policy_economic_community_commute (x y : Q) (a : Agent) :
  policy_economic_support x (policy_community_engagement y a)
  = policy_community_engagement y (policy_economic_support x a).
Proof. destruct a as [uid e ? ? ? ? ? ? ?]; destruct e; reflexivity. Qed.

Lemma set_agents_map_commute (f g : Agent -> Agent) (m : AIEMModel) :
  (forall a, f (g a) = g (f a)) ->
  set_agents (map f (agents (set_agents (map g (agents m)) m)))
             (set_agents (map g (agents m)) m)
  = set_agents (map g (agents (set_agents (map f (agents m)) m)))
               (set_agents (map f (agents m)) m).
Proof.
  intro H. unfold set_agents. simpl. f_equal.
  rewrite !map_map. apply map_ext. exact H.
Qed.

(** X6. Interventions of two different types commute: applied in either
    order they leave the same engine, because the three types write
    disjoint attributes; and an intervention of an unknown type leaves
    the engine as it is. *)
Theorem interventions_of_different_types_commute (t1 t2 : string) (x y : Q)
  (m : AIEMModel) :
  (t1 <> t2 ->
   apply_policy_intervention t1 x (apply_policy_intervention t2 y m)
   = apply_policy_intervention t2 y (apply_policy_intervention t1 x m))
  /\ (t1 <> "monitoring"%string -> t1 <> "economic_support"%string ->
      t1 <> "community_engagement"%string ->
      apply_policy_intervention t1 x m = m).
Proof.
  split.
  - intro Hne. unfold apply_policy_intervention.
    destruct (String.eqb_spec t1 "monitoring") as [E1|N1];
      destruct (String.eqb_spec t2 "monitoring") as [E2|N2];
      try congruence;
      destruct (String.eqb_spec t1 "economic_support") as [E3|N3];
      destruct (String.eqb_spec t2 "economic_support") as [E4|N4];
      try congruence;
      destruct (String.eqb_spec t1 "community_engagement") as [E5|N5];
      destruct (String.eqb_spec t2 "community_engagement") as [E6|N6];
      try congruence; try reflexivity;
      apply set_agents_map_commute; intro a;
      auto using policy_monitoring_economic_commute,
                 policy_monitoring_community_commute,
                 policy_economic_community_commute,
                 eq_sym.
  - intros N1 N2 N3. unfold apply_policy_intervention.
    destruct (String.eqb_spec t1 "monitoring"); [congruence|].
    destruct (String.eqb_spec t1 "economic_support"); [congruence|].
    destruct (String.eqb_spec t1 "community_engagement"); [congruence|].
    reflexivity.
Qed.

Lemma interventions_of_different_types_commute_witness :
  apply_policy_intervention "monitoring" 1
    (apply_policy_intervention "economic_support" (1#2) demo_init)
  = apply_policy_intervention "economic_support" (1#2)
      (apply_policy_intervention "monitoring" 1 demo_init)
  /\ apply_policy_intervention "curfew" 1 demo_init = demo_init.
Proof.
  destruct (interventions_of_different_types_commute
              "monitoring" "economic_support" 1 (1#2) demo_init) as [H _].
  destruct (interventions_of_different_types_commute
              "curfew" "monitoring" 1 1 demo_init) as [_ H'].
  split; [apply H; discriminate | apply H'; discriminate].
Defined.

(** ** The registry the constructor builds *)

Lemma create_n_roles (mk : nat -> Random -> Agent * Random) (ro : Role)
  (d c uid : nat) (r : Random) :
  (forall uid g, role (fst (mk uid g)) = ro
                 /\ pos (snd (mk uid g)) = (pos g + d)%nat) ->
  map role (fst (create_n c mk uid r)) = repeat ro c
  /\ pos (snd (create_n c mk uid r)) = (pos r + c * d)%nat.
Proof.
  intro Hmk. revert uid r. induction c as [|c IH]; intros uid r; simpl.
  - split; [reflexivity | lia].
  - destruct (Hmk uid r) as [Hr Hp]. destruct (mk uid r) as [a r1].
    simpl in Hr, Hp. destruct (IH (S uid) r1) as [I1 I2].
    destruct (create_n c mk (S uid) r1) as [l r2]. simpl in *.
    split; [now rewrite Hr, I1 | lia].
Qed.

Lemma create_n_Forall (U : (nat -> Q) -> Prop) (P : Agent -> Prop)
  (mk : nat -> Random -> Agent * Random) (c uid : nat) (r : Random) :
  (forall uid g, draws (snd (mk uid g)) = draws g) ->
  (forall uid g, U (draws g) -> P (fst (mk uid g))) ->
  U (draws r) ->
  Forall P (fst (create_n c mk uid r))
  /\ draws (snd (create_n c mk uid r)) = draws r.
Proof.
  intros Hd HP. revert uid r. induction c as [|c IH]; intros uid r Hr; simpl.
  - split; [constructor | reflexivity].
  - specialize (Hd uid r). specialize (HP uid r Hr).
    destruct (mk uid r) as [a r1]. simpl in Hd, HP.
    destruct (IH (S uid) r1) as [I1 I2]; [now rewrite Hd|].
    destruct (create_n c mk (S uid) r1) as [l r2]. simpl in *.
    split; [constructor; assumption | congruence].
Qed.

(** What holds of every agent each class constructor returns holds of
    the whole registry. *)
Lemma _create_agents_Forall (U : (nat -> Q) -> Prop) (P : Agent -> Prop)
  (p : Params) (r : Random) :
  (forall uid g, U (draws g) -> P (fst (Leader_init uid g))) ->
  (forall uid g, U (draws g) ->
     P (set_extra (OperativeX (economic_stress_level p))
                  (fst (Operative_init uid g)))) ->
  (forall uid g, U (draws g) -> P (fst (Broker_init uid g))) ->
  (forall uid g, U (draws g) -> P (fst (Facilitator_init uid g))) ->
  (forall uid g, U (draws g) -> P (fst (CommunityMember_init uid g))) ->
  (forall uid g, U (draws g) ->
     P (set_monitoring_capacity (initial_monitoring_capacity p)
                                (fst (Authority_init uid g)))) ->
  U (draws r) -> Forall P (fst (_create_agents p r)).
Proof.
  intros HL HO HB HF HC HA Hr. unfold _create_agents.
  destruct (create_n_Forall U P Leader_init (n_leaders p) O r)
    as [F1 D1]; [reflexivity | exact HL | exact Hr |].
  destruct (create_n (n_leaders p) Leader_init 0 r) as [ls r1].
  simpl in F1, D1.
  destruct (create_n_Forall U P
              (fun uid r => let (a, r') := Operative_init uid r in
                 (set_extra (OperativeX (economic_stress_level p)) a, r'))
              (n_operatives p) (0 + n_leaders p) r1)
    as [F2 D2]; [reflexivity | intros uid g Hg; exact (HO uid g Hg)
                |now rewrite D1|].
  destruct (create_n (n_operatives p) _ (0 + n_leaders p) r1) as [os r2].
  simpl in F2, D2.
  destruct (create_n_Forall U P Broker_init (n_brokers p)
              (0 + n_leaders p + n_operatives p) r2)
    as [F3 D3]; [reflexivity | exact HB | congruence |].
  destruct (create_n (n_brokers p) Broker_init _ r2) as [bs r3].
  simpl in F3, D3.
  destruct (create_n_Forall U P Facilitator_init (n_facilitators p)
              (0 + n_leaders p + n_operatives p + n_brokers p) r3)
    as [F4 D4]; [reflexivity | exact HF | congruence |].
  destruct (create_n (n_facilitators p) Facilitator_init _ r3) as [fs r4].
  simpl in F4, D4.
  destruct (create_n_Forall U P CommunityMember_init (n_community_members p)
              (0 + n_leaders p + n_operatives p + n_brokers p
               + n_facilitators p) r4)
    as [F5 D5]; [reflexivity | exact HC | congruence |].
  destruct (create_n (n_community_members p) CommunityMember_init _ r4)
    as [cs r5].
  simpl in F5, D5.
  destruct (create_n_Forall U P
              (fun uid r => let (a, r') := Authority_init uid r in
                 (set_monitoring_capacity (initial_monitoring_capacity p) a,
                  r'))
              (n_authorities p)
              (0 + n_leaders p + n_operatives p + n_brokers p
               + n_facilitators p + n_community_members p) r5)
    as [F6 _]; [reflexivity | intros uid g Hg; exact (HA uid g Hg)
               |congruence|].
  destruct (create_n (n_authorities p) _ _ r5) as [aus r6].
  simpl in F6. simpl.
  repeat (apply Forall_app; split); assumption.
Qed.

Lemma _create_agents_roles (p : Params) (r : Random) :
  map role (fst (_create_agents p r))
  = (repeat Leader (n_leaders p) ++ repeat Operative (n_operatives p)
     ++ repeat Broker (n_brokers p) ++ repeat Facilitator (n_facilitators p)
     ++ repeat CommunityMember (n_community_members p)
     ++ repeat Authority (n_authorities p))%list
  /\ pos (snd (_create_agents p r)) = (pos r + draws_used p)%nat.
Proof.
  unfold _create_agents, draws_used.
  destruct (create_n_roles Leader_init Leader 8 (n_leaders p) O r)
    as [R1 P1]; [intros; split; [reflexivity | simpl; lia]|].
  destruct (create_n (n_leaders p) Leader_init 0 r) as [ls r1].
  destruct (create_n_roles
              (fun uid r => let (a, r') := Operative_init uid r in
                 (set_extra (OperativeX (economic_stress_level p)) a, r'))
              Operative 6 (n_operatives p) (0 + n_leaders p) r1)
    as [R2 P2]; [intros; split; [reflexivity | simpl; lia]|].
  destruct (create_n (n_operatives p) _ (0 + n_leaders p) r1) as [os r2].
  destruct (create_n_roles Broker_init Broker 6 (n_brokers p)
              (0 + n_leaders p + n_operatives p) r2)
    as [R3 P3]; [intros; split; [reflexivity | simpl; lia]|].
  destruct (create_n (n_brokers p) Broker_init _ r2) as [bs r3].
  destruct (create_n_roles Facilitator_init Facilitator 7 (n_facilitators p)
              (0 + n_leaders p + n_operatives p + n_brokers p) r3)
    as [R4 P4]; [intros; split; [reflexivity | simpl; lia]|].
  destruct (create_n (n_facilitators p) Facilitator_init _ r3) as [fs r4].
  destruct (create_n_roles CommunityMember_init CommunityMember 8
              (n_community_members p)
              (0 + n_leaders p + n_operatives p + n_brokers p
               + n_facilitators p) r4)
    as [R5 P5]; [intros; split; [reflexivity | simpl; lia]|].
  destruct (create_n (n_community_members p) CommunityMember_init _ r4)
    as [cs r5].
  destruct (create_n_roles
              (fun uid r => let (a, r') := Authority_init uid r in
                 (set_monitoring_capacity (initial_monitoring_capacity p) a,
                  r'))
              Authority 5 (n_authorities p)
              (0 + n_leaders p + n_operatives p + n_brokers p
               + n_facilitators p + n_community_members p) r5)
    as [R6 P6]; [intros; split; [reflexivity | simpl; lia]|].
  destruct (create_n (n_authorities p) _ _ r5) as [aus r6].
  simpl fst in *. simpl snd in *.
  split; [rewrite !map_app; congruence | lia].
Qed.

Lemma count_role_repeat (r ro : Role) (c : nat) :
  length (filter (fun x => Role_eqb x r) (repeat ro c))
  = if Role_eqb ro r then c else O.
Proof.
  induction c as [|c IH]; simpl; [destruct (Role_eqb ro r); reflexivity|].
  destruct (Role_eqb ro r); simpl; now rewrite IH.
Qed.

Lemma count_active_all_active (m : AIEMModel) (r : Role) :
  Forall (fun a => active a = true) (agents m) ->
  count_active_by_role m r
  = length (filter (fun x => Role_eqb x r) (map role (agents m))).
Proof.
  unfold count_active_by_role. induction 1 as [|a l Ha _ IH]; simpl;
    [reflexivity|].
  rewrite Ha, andb_true_r. destruct (Role_eqb (role a) r); simpl; now rewrite IH.
Qed.

Section ConstructedRegistry.

Variable seeded_stream : Z -> nat -> Q.
Variable watts_strogatz_graph : nat -> nat -> Q -> Z -> Graph.

Let init := AIEMModel_init seeded_stream watts_strogatz_graph.

(** X7. The constructor registers the agents class by class, Leaders
    first and Authorities last, with ids [0, 1, ...] in registration
    order; every agent starts active with no arrest; every Operative
    starts at the configured [economic_stress_level], every Authority at
    the configured [initial_monitoring_capacity] with
    [intervention_resources = 1]; the active count of each role is its
    configured population; and the seeded generator has been read exactly
    [8] times per Leader and CommunityMember, [7] per Facilitator, [6]
    per Operative and Broker and [5] per Authority. *)
Theorem constructor_registry_layout (p : Params) :
  map unique_id (agents (init p)) = seq 0 (total_agents p)
  /\ map role (agents (init p))
     = (repeat Leader (n_leaders p) ++ repeat Operative (n_operatives p)
        ++ repeat Broker (n_brokers p)
        ++ repeat Facilitator (n_facilitators p)
        ++ repeat CommunityMember (n_community_members p)
        ++ repeat Authority (n_authorities p))%list
  /\ Forall (fun a => active a = true /\ arrest_count a = 0%Z
                      /\ extras_as_configured p a) (agents (init p))
  /\ (forall r, count_active_by_role (init p) r = n_of_role p r)
  /\ active_illicit_count (init p)
     = (n_leaders p + n_operatives p + n_brokers p)%nat
  /\ pos (random (init p)) = draws_used p
  /\ draws (random (init p)) = seeded_stream (seed p).
Proof.
  set (r0 := mkRandom (seeded_stream (seed p)) O).
  destruct (AIEMModel_init_fields seeded_stream watts_strogatz_graph p)
    as [Hag _]. fold init r0 in Hag.
  assert (Hrandom : random (init p) = snd (_create_agents p r0)).
  { unfold init, AIEMModel_init. fold r0.
    destruct (_create_agents p r0); reflexivity. }
  destruct (_create_agents_spec p r0) as [Hids [_ _]].
  destruct (_create_agents_roles p r0) as [Hroles Hpos].
  assert (Hall : Forall (fun a => active a = true /\ arrest_count a = 0%Z
                                  /\ extras_as_configured p a)
                   (fst (_create_agents p r0))).
  { apply (_create_agents_Forall (fun _ => True)); auto;
      intros; repeat split; reflexivity. }
  assert (Hdraws : draws (snd (_create_agents p r0)) = draws r0).
  { unfold _create_agents.
    repeat match goal with
    | |- context [create_n ?c ?mk ?u ?g] =>
        let H := fresh "H" in
        pose proof (proj2 (create_n_Forall (fun _ => True) (fun _ => True)
                             mk c u g (fun _ _ => eq_refl)
                             (fun _ _ _ => I) I)) as H;
        destruct (create_n c mk u g); simpl in H
    end.
    simpl. congruence. }
  rewrite Hag, Hrandom.
  assert (Hcount : forall r, count_active_by_role (init p) r = n_of_role p r).
  { intro r. rewrite count_active_all_active.
    - rewrite Hag, Hroles, !filter_app, !length_app, !count_role_repeat.
      destruct r; simpl; lia.
    - rewrite Hag. eapply Forall_impl; [|exact Hall]. simpl. tauto. }
  split; [exact Hids|]. split; [exact Hroles|]. split; [exact Hall|].
  split; [exact Hcount|]. split.
  - unfold active_illicit_count. rewrite !Hcount. reflexivity.
  - split; [rewrite Hpos; reflexivity | rewrite Hdraws; reflexivity].
Qed.

(** X8. When the seeded draws are in the unit interval, every agent is
    created within the ranges of its class: resources in [[0.1, 1]]
    ([[0.5, 1]] for Leaders), social capital in [[0.4, 1]] for Leaders
    and [[0.5, 1]] for Brokers, legitimacy in [[0.5, 1]] for Facilitators
    and [[0.7, 1]] for CommunityMembers, detection exposure in
    [[0.1, 0.5]] for Leaders and [[0, 0.3]] for Facilitators, and
    everything else in [[0, 1]]. *)
Theorem constructor_attribute_ranges (p : Params) :
  (forall k, in01 (seeded_stream (seed p) k)) ->
  Forall init_range (agents (init p)).
Proof.
  intro Hs.
  destruct (AIEMModel_init_fields seeded_stream watts_strogatz_graph p)
    as [Hag _]. fold init in Hag. rewrite Hag.
  apply (_create_agents_Forall (fun f => forall k, in01 (f k))); try exact Hs;
    intros uid g Hg; unit_draws g Hg;
    unfold init_range, between, in01 in *; simpl; repeat split; lra.
Qed.

End ConstructedRegistry.

Lemma constructor_attribute_ranges_witness :
  (forall k, in01 (demo_stream (seed demo_params) k))
  /\ Forall init_range (agents demo_init).
Proof.
  assert (H : forall k, in01 (demo_stream (seed demo_params) k))
    by (destruct demo_unit_params as [_ [_ H]]; exact H).
  split; [exact H|].
  exact (constructor_attribute_ranges demo_stream ring_graph demo_params H).
Defined.

(** ** Relations every run preserves *)

Section Pass.

Variables (n : nat) (B : bool).
Variable R : World -> World -> Prop.

Hypothesis R_refl : forall w, R w w.
Hypothesis R_trans : forall w1 w2 w3, R w1 w2 -> R w2 w3 -> R w1 w3.
Hypothesis R_benign : forall m m', ext m m' -> R (world m) (world m').
Hypothesis R_arrest :
  forall m i j m',
    Inv n B m -> (i < n)%nat -> (j < n)%nat ->
    active (agent_at j m) = true ->
    is_illicit (role (agent_at j m)) = true ->
    role (agent_at i m) = Authority ->
    intervene_agent (unique_id (agent_at j m)) m = Ok m' ->
    R (world m) (world m').

Lemma pass_monitor_agent (i j : nat) (m m' : AIEMModel) :
  (i < n)%nat -> (j < n)%nat -> Inv n B m ->
  role (agent_at i m) = Authority ->
  monitor_agent i j m = Ok m' -> R (world m) (world m').
Proof.
  intros Hi Hj I Hrole. unfold monitor_agent.
  destruct (is_illicit (role (agent_at j m))) eqn:Hill; cbn [andb];
    [|intro H; injection H as <-; apply R_refl].
  destruct (active (agent_at j m)) eqn:Ha;
    [|intro H; injection H as <-; apply R_refl].
  pose proof (ext_draw m) as Hd.
  unfold draw, random_random in *. simpl in Hd.
  set (m1 := set_random _ m) in *.
  destruct (Qltb _ _).
  - destruct (intervene_agent (unique_id (agent_at j m)) m1) as [m2|e] eqn:E2;
      cbn [bind]; [|discriminate].
    intro H. injection H as <-.
    apply (R_trans _ (world m1)); [apply R_benign; exact Hd|].
    apply (R_trans _ (world m2)).
    + apply (R_arrest m1 i j m2); auto. apply (Inv_ext _ _ _ _ I Hd).
    + apply R_benign. apply ext_intervention_resources.
  - intro H. injection H as <-. apply R_benign. exact Hd.
Qed.

Lemma pass_scan (i : nat) (l : list nat) (m0 m m' : AIEMModel) :
  (i < n)%nat -> (forall j, In j l -> (j < n)%nat) ->
  scanning n B i m0 m ->
  for_each l (monitor_agent i) m = Ok m' -> R (world m) (world m').
Proof.
  intros Hi. revert m. induction l as [|j l IH]; intros m Hl S; simpl.
  - intro H. injection H as <-. apply R_refl.
  - assert (Hj : (j < n)%nat) by (apply Hl; left; reflexivity).
    destruct (monitor_agent_Inv n B i j m0 m Hi Hj S) as [m1 [E1 S1]].
    rewrite E1. cbn [bind]. intro H.
    apply (R_trans _ (world m1)).
    + destruct S as [I [Hrole _]].
      apply (pass_monitor_agent i j); assumption.
    + apply IH; [intros; apply Hl; right; assumption | assumption
                |assumption].
Qed.

Lemma pass_Authority_step (i : nat) (m m' : AIEMModel) :
  (i < n)%nat -> Inv n B m -> role (agent_at i m) = Authority ->
  Authority_step i m = Ok m' -> R (world m) (world m').
Proof.
  intros Hi I Hrole. unfold Authority_step, monitor_and_intervene.
  destruct (AbstractAgent_step_ext _ _ _ _ I Hi) as [m1 [-> E1]].
  cbn [bind].
  destruct (for_each (seq 0 (length (agents m1))) (monitor_agent i) m1)
    as [m2|e] eqn:E2; cbn [bind]; [|discriminate].
  intro H. injection H as <-.
  pose proof (Inv_ext _ _ _ _ I E1) as I1.
  apply (R_trans _ (world m1)); [apply R_benign; exact E1|].
  apply (R_trans _ (world m2)).
  - apply (pass_scan i (seq 0 (length (agents m1))) m1 m1 m2 Hi);
      [| |exact E2].
    + intros j Hj. apply in_seq in Hj.
      rewrite (Inv_length _ _ _ I1) in Hj. lia.
    + split; [exact I1|]. split; [|apply quiet_refl].
      rewrite (role_agent_at _ _ _ (ext_roles _ _ E1)). exact Hrole.
  - apply R_benign. apply ext_intervention_resources.
Qed.

Lemma pass_agent_step (i : nat) (m m' : AIEMModel) :
  Inv n B m -> agent_step i m = Ok m' -> R (world m) (world m').
Proof.
  intro I. unfold agent_step.
  destruct (nth_error (agents m) i) as [a|] eqn:E;
    [|intro H; injection H as <-; apply R_refl].
  assert (Hi : (i < n)%nat).
  { rewrite <- (Inv_length _ _ _ I). apply nth_error_Some. congruence. }
  assert (Ha : agent_at i m = a) by (apply nth_error_nth_default; assumption).
  destruct (extra a) eqn:Ex.
  - destruct (Leader_step_ext _ _ _ _ I Hi) as [m1 [-> E1]].
    intro H. injection H as <-. now apply R_benign.
  - destruct (Operative_step_ext _ _ _ _ I Hi) as [m1 [-> E1]].
    intro H. injection H as <-. now apply R_benign.
  - destruct (Broker_step_ext _ _ _ _ I Hi) as [m1 [-> E1]].
    intro H. injection H as <-. now apply R_benign.
  - destruct (Facilitator_step_ext _ _ _ _ I Hi) as [m1 [-> E1]].
    intro H. injection H as <-. now apply R_benign.
  - destruct (CommunityMember_step_ext _ _ _ _ I Hi) as [m1 [-> E1]].
    intro H. injection H as <-. now apply R_benign.
  - apply pass_Authority_step; [assumption | assumption |].
    rewrite Ha. unfold role. rewrite Ex. reflexivity.
Qed.

Lemma pass_activations (l : list nat) (m m' : AIEMModel) :
  Inv n B m -> for_each l agent_step m = Ok m' -> R (world m) (world m').
Proof.
  revert m. induction l as [|i l IH]; intros m I; simpl.
  - intro H. injection H as <-. apply R_refl.
  - destruct (agent_step_Inv n B i m I) as [m1 [E1 [I1 _]]].
    rewrite E1. cbn [bind]. intro H.
    apply (R_trans _ (world m1)); [now apply (pass_agent_step i) | now apply IH].
Qed.

(** A step relates the world with the arrest counter reset to the world
    it ends in. *)
Lemma pass_step (l : list nat) (m m' : AIEMModel) :
  Inv n B m -> step_in_order l m = Ok m' ->
  R (agents m, network m, 0%Z) (world m').
Proof.
  intros I E.
  destruct (step_in_order_end _ _ _ E)
    as [m1 [row [E1 [Hag [HG [Har _]]]]]].
  assert (Hw : world m' = world m1)
    by (unfold world; now rewrite Hag, HG, Har).
  rewrite Hw.
  apply (pass_activations l
           (set_intervene_calls 0%Z
              (set_reports_this_step 0%Z (set_arrests_this_step 0%Z m))));
    [|exact E1].
  destruct I as [W C N Rn Bd]. constructor; simpl; auto. lia.
Qed.

Hypothesis R_reset : forall m, R (world m) (agents m, network m, 0%Z).
Hypothesis R_policy :
  forall t x m, R (world m) (world (apply_policy_intervention t x m)).

Lemma pass_exec (es : list Event) (m m' : AIEMModel) :
  Inv n B m -> (B = true -> Forall nonneg_event es) ->
  exec es m = Ok m' -> R (world m) (world m').
Proof.
  revert m. unfold exec.
  induction es as [|e es IH]; intros m I Hes; simpl.
  - intro H. injection H as <-. apply R_refl.
  - assert (Hhd : B = true -> nonneg_event e)
      by (intro HB; specialize (Hes HB); inversion Hes; assumption).
    assert (Htl : B = true -> Forall nonneg_event es)
      by (intro HB; specialize (Hes HB); inversion Hes; assumption).
    destruct e as [l | t x]; simpl.
    + pose proof (step_in_order_Inv n B l m I) as Hs.
      destruct (step_in_order l m) as [m1|ex] eqn:Es; cbn [bind];
        [|discriminate].
      intro H. apply (R_trans _ (agents m, network m, 0%Z));
        [apply R_reset|].
      apply (R_trans _ (world m1));
        [now apply (pass_step l) | now apply IH].
    + intro H. apply (R_trans _ (world (apply_policy_intervention t x m)));
        [apply R_policy|].
      apply IH; [|assumption|assumption].
      apply apply_policy_intervention_Inv; assumption.
Qed.

End Pass.

(** ** Subgraphs *)

Lemma restrict_all (G : Graph) : restrict (fun _ => true) G = G.
Proof.
  unfold restrict. induction G as [|[v ns] G IH]; simpl; [reflexivity|].
  rewrite IH. f_equal. f_equal.
  induction ns as [|w ns IHns]; simpl; [reflexivity | now rewrite IHns].
Qed.

Lemma restrict_restrict (k1 k2 : nat -> bool) (G : Graph) :
  restrict k2 (restrict k1 G) = restrict (fun v => k1 v && k2 v) G.
Proof.
  unfold restrict. induction G as [|[v ns] G IH]; simpl; [reflexivity|].
  destruct (k1 v); simpl; [|exact IH].
  destruct (k2 v); simpl; [|exact IH].
  rewrite IH. f_equal. f_equal.
  induction ns as [|w ns IHns]; simpl; [reflexivity|].
  destruct (k1 w); simpl; [|exact IHns].
  destruct (k2 w); [now rewrite IHns | exact IHns].
Qed.

Lemma nodes_restrict (keep : nat -> bool) (G : Graph) :
  nodes (restrict keep G) = filter keep (nodes G).
Proof.
  unfold nodes, restrict. induction G as [|p G IH]; simpl; [reflexivity|].
  destruct (keep (fst p)); simpl; now rewrite IH.
Qed.

Lemma neighbors_restrict (keep : nat -> bool) (G : Graph) (v : nat) :
  neighbors (restrict keep G) v
  = if keep v
    then match neighbors G v with
         | Ok ns => Ok (filter keep ns)
         | Raise e => Raise e
         end
    else Raise NetworkXError.
Proof.
  unfold neighbors, restrict. induction G as [|p G IH]; simpl.
  - destruct (keep v); reflexivity.
  - destruct (keep (fst p)) eqn:Ek; simpl.
    + destruct (fst p =? v)%nat eqn:Ev; [|exact IH].
      apply Nat.eqb_eq in Ev. rewrite <- Ev, Ek. reflexivity.
    + destruct (fst p =? v)%nat eqn:Ev; [|exact IH].
      apply Nat.eqb_eq in Ev. rewrite <- Ev, Ek.
      rewrite <- Ev, Ek in IH. exact IH.
Qed.

(** The network an effective call of [intervene_agent] leaves. *)
Lemma intervene_agent_network (x j : nat) (m : AIEMModel) :
  get_agent_by_id m x = Some j -> active (agent_at j m) = true ->
  exists m',
    intervene_agent x m = Ok m'
    /\ network m'
       = if (2 <=? arrest_count (agent_at j m) + 1)%Z
            && has_node (network m) (unique_id (agent_at j m))
         then restrict (fun v => negb (v =? unique_id (agent_at j m))%nat)
                       (network m)
         else network m.
Proof.
  intros Hg Ha. pose proof (get_agent_by_id_lt _ _ _ Hg) as Hj.
  destruct m as [ags G ar rate rp run rnd dc calls].
  unfold intervene_agent, get_agent_by_id, agent_at, update_agent in *.
  simpl in *. rewrite Hg, Ha.
  rewrite (nth_upd_eq j _ ags no_agent Hj). simpl.
  destruct (2 <=? arrest_count (nth j ags no_agent) + 1)%Z; simpl.
  - rewrite upd_upd, nth_upd_eq by assumption. simpl.
    destruct (has_node G (unique_id (nth j ags no_agent))) eqn:Hn.
    + unfold remove_node. rewrite Hn. simpl.
      eexists. split; reflexivity.
    + eexists. split; reflexivity.
  - eexists. split; reflexivity.
Qed.

(** ** Agents and network along a run *)

Lemma grows_refl (s : Skel) : grows s s.
Proof. unfold grows. repeat split; auto; try lia. congruence. Qed.

Lemma grows_trans (s1 s2 s3 : Skel) : grows s1 s2 -> grows s2 s3 -> grows s1 s3.
Proof.
  unfold grows.
  intros [A1 [A2 [A3 [A4 [A5 A6]]]]] [B1 [B2 [B3 [B4 [B5 B6]]]]].
  repeat split; try congruence; auto; try lia.
  intros H1 H3. destruct (sk_active s2) eqn:E2; [|auto].
  rewrite <- A2. auto.
Qed.

Lemma grows_list_refl (l : list Skel) : Forall2 grows l l.
Proof. induction l; constructor; [apply grows_refl | assumption]. Qed.

Lemma grows_list_trans (l1 l2 l3 : list Skel) :
  Forall2 grows l1 l2 -> Forall2 grows l2 l3 -> Forall2 grows l1 l3.
Proof.
  intro H. revert l3. induction H as [|s1 s2 l1 l2 Hs _ IH]; intros l3 H3.
  - inversion H3. constructor.
  - inversion H3 as [|? s3 ? t3 Hs3 Ht3]; subst. constructor.
    + exact (grows_trans _ _ _ Hs Hs3).
    + exact (IH _ Ht3).
Qed.

Lemma grows_list_arrest (l : list Skel) (j : nat) (s : Skel) :
  nth_error l j = Some s -> sk_active s = true -> (sk_arrests s < 2)%Z ->
  is_illicit (sk_role s) = true ->
  Forall2 grows l (upd j arrest_sk l).
Proof.
  revert j. induction l as [|s0 l IH]; intros [|j] Hj Ha Hc Hill; simpl in *;
    try discriminate.
  - injection Hj as ->. constructor; [|apply grows_list_refl].
    unfold grows, arrest_sk. simpl. repeat split; auto; lia.
  - constructor; [apply grows_refl | now apply IH].
Qed.

Lemma evolves_refl (w : World) : evolves w w.
Proof.
  split; [apply grows_list_refl|].
  exists (fun _ => true). now rewrite restrict_all.
Qed.

Lemma evolves_trans (w1 w2 w3 : World) :
  evolves w1 w2 -> evolves w2 w3 -> evolves w1 w3.
Proof.
  intros [A1 [k1 A2]] [B1 [k2 B2]]. split.
  - exact (grows_list_trans _ _ _ A1 B1).
  - exists (fun v => k1 v && k2 v). now rewrite B2, A2, restrict_restrict.
Qed.

Lemma evolves_same_skel (w w' : World) :
  map skel (fst (fst w')) = map skel (fst (fst w)) ->
  snd (fst w') = snd (fst w) -> evolves w w'.
Proof.
  intros Hs HG. split.
  - rewrite Hs. apply grows_list_refl.
  - exists (fun _ => true). now rewrite HG, restrict_all.
Qed.

Lemma evolves_benign (m m' : AIEMModel) : ext m m' -> evolves (world m) (world m').
Proof.
  intros [[F1 F2 _ _ _ _] _]. now apply evolves_same_skel.
Qed.

Lemma evolves_arrest (n : nat) (B : bool) (m : AIEMModel) (i j : nat)
  (m' : AIEMModel) :
  Inv n B m -> (i < n)%nat -> (j < n)%nat ->
  active (agent_at j m) = true ->
  is_illicit (role (agent_at j m)) = true ->
  role (agent_at i m) = Authority ->
  intervene_agent (unique_id (agent_at j m)) m = Ok m' ->
  evolves (world m) (world m').
Proof.
  intros I _ Hj Ha Hill _ E.
  pose proof (Inv_get_agent _ _ _ _ I Hj) as Hg.
  destruct (intervene_agent_active _ _ _ Hg Ha) as [m1 [E1 [Hag _]]].
  destruct (intervene_agent_network _ _ _ Hg Ha) as [m2 [E2 HG]].
  rewrite E in E1, E2. injection E1 as <-. injection E2 as <-.
  split; simpl.
  - rewrite Hag.
    rewrite (map_upd_at skel arrest_sk) by (intros; apply skel_arrest_agent).
    apply (grows_list_arrest _ j (skel (agent_at j m))).
    + apply (Inv_skel_at _ _ _ _ I Hj).
    + exact Ha.
    + apply (wf_arrest _ _ _ (inv_wf _ _ _ I) j (skel (agent_at j m)));
        [apply (Inv_skel_at _ _ _ _ I Hj) | exact Ha].
    + exact Hill.
  - rewrite HG. destruct (_ && _).
    + eexists. reflexivity.
    + exists (fun _ => true). now rewrite restrict_all.
Qed.

(** Along every run of engine calls from a state satisfying the
    invariant, agents grow and the network shrinks to a subgraph. *)
Lemma exec_evolves (n : nat) (es : list Event) (m m' : AIEMModel) :
  Inv n false m -> exec es m = Ok m' -> evolves (world m) (world m').
Proof.
  intros I E.
  apply (pass_exec n false evolves evolves_refl evolves_trans evolves_benign
           (evolves_arrest n false)) with (es := es);
    [| |exact I|discriminate|exact E].
  - intro m0. now apply evolves_same_skel.
  - intros t x m0.
    destruct (apply_policy_intervention_frame t x m0) as [F1 F2 _ _ _ _].
    now apply evolves_same_skel.
Qed.

Lemma grows_list_nth (l l' : list Skel) (j : nat) (s s' : Skel) :
  Forall2 grows l l' -> nth_error l j = Some s -> nth_error l' j = Some s' ->
  grows s s'.
Proof.
  intro H. revert j. induction H as [|x y l l' Hxy _ IH]; intros [|j] Hs Hs';
    simpl in *; try discriminate.
  - injection Hs as <-. injection Hs' as <-. exact Hxy.
  - exact (IH j Hs Hs').
Qed.

Lemma grows_list_length (l l' : list Skel) :
  Forall2 grows l l' -> length l' = length l.
Proof. induction 1; simpl; congruence. Qed.

Lemma count_active_grows (l l' : list Agent) (r : Role) :
  Forall2 grows (map skel l) (map skel l') ->
  (length (filter (fun a => Role_eqb (role a) r && active a) l')
   <= length (filter (fun a => Role_eqb (role a) r && active a) l))%nat.
Proof.
  revert l'. induction l as [|a l IH]; intros [|a' l'] H; simpl in H;
    inversion H as [|? ? ? ? Hg Ht]; subst; simpl; [lia|].
  specialize (IH l' Ht).
  destruct Hg as [_ [Hr [Hact _]]]. simpl in Hr, Hact. rewrite Hr.
  destruct (Role_eqb (role a) r); simpl; [|exact IH].
  destruct (active a'); simpl.
  - rewrite (Hact eq_refl). simpl. lia.
  - destruct (active a); simpl; lia.
Qed.

Lemma agents_grow (m m' : AIEMModel) (j : nat) (a a' : Agent) :
  evolves (world m) (world m') ->
  nth_error (agents m) j = Some a -> nth_error (agents m') j = Some a' ->
  grows (skel a) (skel a').
Proof.
  intros [H _] Ha Ha'. simpl in H.
  apply (grows_list_nth _ _ j _ _ H); now apply map_nth_error.
Qed.

Section RunsOfTheEngine.

Variable seeded_stream : Z -> nat -> Q.
Variable watts_strogatz_graph : nat -> nat -> Q -> Z -> Graph.

Let init := AIEMModel_init seeded_stream watts_strogatz_graph.
Let valid := valid_graph watts_strogatz_graph.

(** The graph the constructor asked the generator for. *)
Let G0 (p : Params) : Graph :=
  watts_strogatz_graph (total_agents p) (network_k p) (network_p p) (seed p).

Lemma init_fresh (p : Params) : Forall fresh (agents (init p)).
Proof.
  destruct (AIEMModel_init_fields seeded_stream watts_strogatz_graph p)
    as [Hag _]. fold init in Hag. rewrite Hag.
  apply (_create_agents_spec p).
Qed.

Lemma init_network (p : Params) : network (init p) = G0 p.
Proof.
  destruct (AIEMModel_init_fields seeded_stream watts_strogatz_graph p)
    as [_ [HG _]]. exact HG.
Qed.

(** Two boundaries of one run, the second after the first. *)
Lemma two_boundaries (p : Params) (es es' : list Event) :
  valid p -> (0 < total_agents p)%nat ->
  exists m m',
    exec es (init p) = Ok m /\ exec es' m = Ok m'
    /\ exec (es ++ es') (init p) = Ok m'
    /\ Inv (total_agents p) false m /\ Inv (total_agents p) false m'
    /\ evolves (world (init p)) (world m)
    /\ evolves (world m) (world m').
Proof.
  intros HG Hn.
  destruct (exec_init_total seeded_stream watts_strogatz_graph p false es
              HG Hn) as [m [E I]]; [discriminate|].
  destruct (exec_init_total seeded_stream watts_strogatz_graph p false
              (es ++ es') HG Hn) as [m' [E' I']]; [discriminate|].
  fold init in E, E'.
  assert (E2 : exec es' m = Ok m').
  { unfold exec in *. rewrite for_each_app, E in E'. exact E'. }
  exists m, m'. split; [exact E|]. split; [exact E2|]. split; [exact E'|].
  split; [exact I|]. split; [exact I'|]. split.
  - apply (exec_evolves (total_agents p) es); [|exact E].
    apply AIEMModel_init_Inv; [exact HG | discriminate].
  - apply (exec_evolves (total_agents p) es'); assumption.
Qed.

(** X9. Between an earlier and a later boundary of a run the registry
    keeps its size, every agent keeps its id and role, an inactive agent
    stays inactive, no [arrest_count] decreases, the node set of the
    network only loses nodes, and no per-role active count increases. *)
Theorem agents_never_come_back (p : Params) (es es' : list Event) :
  valid p -> (0 < total_agents p)%nat ->
  exists m m',
    exec es (init p) = Ok m
    /\ exec (es ++ es') (init p) = Ok m'
    /\ length (agents m') = length (agents m)
    /\ (forall j a a',
          nth_error (agents m) j = Some a ->
          nth_error (agents m') j = Some a' ->
          unique_id a' = unique_id a /\ role a' = role a
          /\ (active a = false -> active a' = false)
          /\ (arrest_count a <= arrest_count a')%Z)
    /\ incl (nodes (network m')) (nodes (network m))
    /\ (forall r, (count_active_by_role m' r <= count_active_by_role m r)%nat).
Proof.
  intros HG Hn.
  destruct (two_boundaries p es es' HG Hn)
    as [m [m' [E [_ [E' [I [I' [_ Hev]]]]]]]].
  exists m, m'. split; [exact E|]. split; [exact E'|]. split; [|split; [|split]].
  - now rewrite (Inv_length _ _ _ I), (Inv_length _ _ _ I').
  - intros j a a' Ha Ha'.
    destruct (agents_grow _ _ _ _ _ Hev Ha Ha') as [H1 [H2 [H3 [H4 _]]]].
    simpl in *. repeat split; auto.
    intro Hf. destruct (active a'); [|reflexivity].
    rewrite (H3 eq_refl) in Hf. discriminate.
  - destruct Hev as [_ [keep Hk]]. simpl in Hk.
    rewrite Hk, nodes_restrict. intros v Hv. apply filter_In in Hv. tauto.
  - intro r. apply count_active_grows. apply Hev.
Qed.

(** X10. At every boundary of a run every [arrest_count] is 0, 1 or 2,
    an agent is inactive exactly when its count is 2, and only Leaders,
    Operatives and Brokers are ever inactive. *)
Theorem arrest_count_between_zero_and_two (p : Params) (es : list Event) :
  valid p -> (0 < total_agents p)%nat ->
  exists m,
    exec es (init p) = Ok m
    /\ forall a, In a (agents m) ->
         (0 <= arrest_count a <= 2)%Z
         /\ (active a = false <-> arrest_count a = 2%Z)
         /\ (active a = false -> is_illicit (role a) = true).
Proof.
  intros HG Hn.
  destruct (two_boundaries p [] es HG Hn)
    as [m0 [m [E0 [_ [E [_ [I [_ Hev]]]]]]]].
  simpl in E. injection E0 as <-.
  exists m. split; [exact E|]. intros a Hin.
  destruct (In_nth_error _ _ Hin) as [j Hj].
  assert (Hlen : (j < length (agents (init p)))%nat).
  { destruct Hev as [Hf _]. apply grows_list_length in Hf. simpl in Hf.
    rewrite !length_map in Hf. rewrite <- Hf. apply nth_error_Some. congruence. }
  destruct (nth_error (agents (init p)) j) as [a0|] eqn:E0;
    [|apply nth_error_None in E0; lia].
  destruct (agents_grow _ _ _ _ _ Hev E0 Hj) as [_ [Hr [_ [H4 [H5 H6]]]]].
  pose proof (init_fresh p) as Hf. rewrite Forall_forall in Hf.
  destruct (Hf a0 (nth_error_In _ _ E0)) as [Ha0 Hc0].
  simpl in *. rewrite Hc0 in H4, H5.
  destruct (Inv_registry_network _ _ _ I) as [Hreg _].
  destruct (Hreg a Hin) as [Hiff _].
  split; [lia|]. split.
  - split; intro H; [apply Hiff in H; lia | apply Hiff; lia].
  - intro H. rewrite Hr. auto.
Qed.

(** X11. The edges are those of the constructed graph restricted to the
    agents still active: at every boundary of a run an active agent's
    neighbours are its initial neighbours that are still active, in the
    initial order, and an inactive agent has no node to look up. *)
Theorem network_is_initial_graph_on_active_agents (p : Params)
  (es : list Event) :
  valid p -> closed_below (total_agents p) (G0 p) ->
  (0 < total_agents p)%nat ->
  exists m,
    exec es (init p) = Ok m
    /\ (forall v, (v < total_agents p)%nat ->
          active (agent_at v m) = true ->
          neighbors (network m) v
          = Ok (filter (fun w => active (agent_at w m)) (adj (G0 p) v)))
    /\ (forall v, (v < total_agents p)%nat ->
          active (agent_at v m) = false ->
          neighbors (network m) v = Raise NetworkXError).
Proof.
  intros HG Hclosed Hn.
  destruct (two_boundaries p [] es HG Hn)
    as [m0 [m [E0 [_ [E [_ [I [_ Hev]]]]]]]].
  simpl in E. injection E0 as <-.
  exists m. split; [exact E|].
  destruct Hev as [_ [keep Hk]]. simpl in Hk. rewrite init_network in Hk.
  pose proof (inv_wf _ _ _ I) as W.
  assert (Hkeep : forall w, (w < total_agents p)%nat ->
            keep w = active (agent_at w m)).
  { intros w Hw.
    pose proof (wf_node _ _ _ W w _ (Inv_skel_at _ _ _ _ I Hw)) as Hiff.
    simpl in Hiff. rewrite Hk, nodes_restrict, filter_In in Hiff.
    assert (Hin : In w (nodes (G0 p))).
    { unfold G0. unfold valid, valid_graph in HG. rewrite HG.
      apply in_seq. lia. }
    destruct (keep w); destruct (active (agent_at w m)); try reflexivity.
    - symmetry. apply Hiff. auto.
    - destruct Hiff as [Hiff _]. destruct (Hiff eq_refl). discriminate. }
  split.
  - intros v Hv Ha. rewrite Hk, neighbors_restrict, (Hkeep v Hv), Ha.
    unfold neighbors, adj.
    destruct (find (fun q => (fst q =? v)%nat) (G0 p)) as [q|] eqn:Ef.
    + f_equal. apply filter_ext_in. intros w Hw.
      apply Hkeep. apply find_some in Ef. destruct Ef as [Hq _].
      exact (Hclosed q w Hq Hw).
    + exfalso. assert (Hin : In v (nodes (G0 p))).
      { unfold G0. unfold valid, valid_graph in HG. rewrite HG.
        apply in_seq. lia. }
      apply in_map_iff in Hin. destruct Hin as [q [Hq1 Hq2]].
      apply (find_none _ _ Ef) in Hq2. apply Nat.eqb_neq in Hq2. congruence.
  - intros v Hv Ha. rewrite Hk, neighbors_restrict, (Hkeep v Hv), Ha.
    reflexivity.
Qed.

End RunsOfTheEngine.

(** ** Engines without an Authority *)

Lemma same_skel_roles (l l' : list Agent) :
  map skel l' = map skel l -> map role l' = map role l.
Proof.
  intro H. change role with (fun a => sk_role (skel a)).
  rewrite <- !(map_map skel sk_role). now rewrite H.
Qed.

Lemma same_skel_unpoliced (l l' : list Agent) :
  map skel l' = map skel l ->
  Forall (fun a => role a <> Authority) l ->
  Forall (fun a => role a <> Authority) l'.
Proof.
  intros H Hl. apply same_skel_roles in H.
  rewrite Forall_forall in *. intros a' Hin.
  apply (in_map role) in Hin. rewrite H in Hin.
  apply in_map_iff in Hin. destruct Hin as [a [Hr Ha]].
  rewrite <- Hr. now apply Hl.
Qed.

Lemma same_skel_fresh (l l' : list Agent) :
  map skel l' = map skel l -> Forall fresh l -> Forall fresh l'.
Proof.
  revert l'. induction l as [|a l IH]; intros [|a' l'] H Hl; simpl in H;
    try discriminate; constructor.
  - pose proof (f_equal (fun t => hd (skel a) t) H) as Hs. simpl in Hs.
    inversion Hl as [|? ? [Ha Hc] _]; subst.
    pose proof (f_equal sk_active Hs) as Hact.
    pose proof (f_equal sk_arrests Hs) as Harr. simpl in Hact, Harr.
    split; congruence.
  - pose proof (f_equal (@tl Skel) H) as Ht. simpl in Ht.
    inversion Hl; subst. now apply IH.
Qed.

Lemma same_skel_counts (m m' : AIEMModel) (r : Role) :
  map skel (agents m') = map skel (agents m) ->
  count_active_by_role m' r = count_active_by_role m r.
Proof.
  intro H. unfold count_active_by_role. apply Nat.le_antisymm.
  - apply count_active_grows. rewrite H. apply grows_list_refl.
  - apply count_active_grows. rewrite H. apply grows_list_refl.
Qed.

Lemma unpoliced_refl (w : World) : unpoliced w w.
Proof. intros _. repeat split. Qed.

Lemma unpoliced_trans (w1 w2 w3 : World) :
  unpoliced w1 w2 -> unpoliced w2 w3 -> unpoliced w1 w3.
Proof.
  intros H12 H23 H1. destruct (H12 H1) as [A1 [A2 A3]].
  destruct (H23 (same_skel_unpoliced _ _ A1 H1)) as [B1 [B2 B3]].
  repeat split; congruence.
Qed.

Lemma unpoliced_benign (m m' : AIEMModel) :
  ext m m' -> unpoliced (world m) (world m').
Proof. intros [[F1 F2 F3 _ _ _] _] _. simpl. auto. Qed.

Lemma unpoliced_arrest (n : nat) (B : bool) (m : AIEMModel) (i j : nat)
  (m' : AIEMModel) :
  Inv n B m -> (i < n)%nat -> (j < n)%nat ->
  active (agent_at j m) = true ->
  is_illicit (role (agent_at j m)) = true ->
  role (agent_at i m) = Authority ->
  intervene_agent (unique_id (agent_at j m)) m = Ok m' ->
  unpoliced (world m) (world m').
Proof.
  intros I Hi _ _ _ Hrole _ Hno. exfalso. simpl in Hno.
  rewrite Forall_forall in Hno.
  apply (Hno (agent_at i m)); [|exact Hrole].
  apply In_agent_at. now rewrite (Inv_length _ _ _ I).
Qed.

(** Without an Authority a run never changes who is active, any arrest
    count, or the network, and no step counts an arrest. *)
Lemma exec_unpoliced (n : nat) (es : list Event) (m m' : AIEMModel) :
  Inv n false m -> Forall (fun a => role a <> Authority) (agents m) ->
  exec es m = Ok m' ->
  map skel (agents m') = map skel (agents m) /\ network m' = network m
  /\ ((0 < active_illicit_count m)%nat -> running m = true ->
      running m' = true).
Proof.
  revert m. unfold exec.
  induction es as [|e es IH]; intros m I Hno; simpl.
  - intro H. injection H as <-. auto.
  - destruct e as [l | t x]; simpl.
    + pose proof (step_in_order_Inv n false l m I) as I1.
      destruct (step_in_order l m) as [m1|ex] eqn:Es; cbn [bind];
        [|discriminate].
      intro H.
      destruct (pass_step n false unpoliced unpoliced_refl unpoliced_trans
                  unpoliced_benign (unpoliced_arrest n false) l m m1 I Es Hno)
        as [A1 [A2 _]]. simpl in A1, A2.
      destruct (IH m1 I1 (same_skel_unpoliced _ _ A1 Hno) H)
        as [B1 [B2 B3]].
      split; [congruence|]. split; [congruence|].
      intros Hc Hr. apply B3.
      * unfold active_illicit_count in *.
        now rewrite !(same_skel_counts _ _ _ A1).
      * destruct (step_in_order_effect _ _ _ _ _ I Es) as [Hrun _].
        rewrite Hrun.
        assert (Hc1 : active_illicit_count m1 = active_illicit_count m)
          by (unfold active_illicit_count;
              now rewrite !(same_skel_counts _ _ _ A1)).
        rewrite Hc1. destruct (active_illicit_count m); [lia | exact Hr].
    + intro H.
      destruct (apply_policy_intervention_frame t x m)
        as [F1 F2 _ _ F5 _].
      destruct (IH (apply_policy_intervention t x m)
                  (apply_policy_intervention_Inv _ _ t x m I
                     (fun Hf => False_ind _ (Bool.diff_false_true Hf)))
                  (same_skel_unpoliced _ _ F1 Hno) H) as [B1 [B2 B3]].
      split; [congruence|]. split; [congruence|].
      intros Hc Hr. apply B3.
      * unfold active_illicit_count in *.
        now rewrite !(same_skel_counts _ _ _ F1).
      * congruence.
Qed.

Lemma roles_without_authority (l : list Agent) (n1 n2 n3 n4 n5 : nat) :
  map role l
  = (repeat Leader n1 ++ repeat Operative n2 ++ repeat Broker n3
     ++ repeat Facilitator n4 ++ repeat CommunityMember n5
     ++ repeat Authority 0)%list ->
  Forall (fun a => role a <> Authority) l.
Proof.
  intro H. rewrite Forall_forall. intros a Hin Hr.
  apply (in_map role) in Hin. rewrite H, Hr in Hin.
  repeat (apply in_app_or in Hin; destruct Hin as [Hin|Hin];
          [apply repeat_spec in Hin; discriminate|]).
  exact Hin.
Qed.

(** ** The Metrics table *)

Lemma exec_rows (n : nat) (es : list Event) (m m' : AIEMModel) :
  Inv n false m -> exec es m = Ok m' ->
  exists rows, datacollector m' = (datacollector m ++ rows)%list
               /\ length rows = steps_in es.
Proof.
  revert m. unfold exec, steps_in.
  induction es as [|e es IH]; intros m I; simpl.
  - intro H. injection H as <-. exists []. now rewrite app_nil_r.
  - destruct e as [l | t x]; simpl.
    + pose proof (step_in_order_Inv n false l m I) as I1.
      destruct (step_in_order l m) as [m1|ex] eqn:Es; cbn [bind];
        [|discriminate].
      intro H. destruct (IH m1 I1 H) as [rows [Hr Hl]].
      destruct (step_in_order_effect _ _ _ _ _ I Es)
        as [_ [[row [Hdc _]] _]].
      exists (row :: rows). split; [|simpl; now rewrite Hl].
      rewrite Hr, Hdc, <- app_assoc. reflexivity.
    + intro H.
      destruct (IH (apply_policy_intervention t x m)
                  (apply_policy_intervention_Inv _ _ t x m I
                     (fun Hf => False_ind _ (Bool.diff_false_true Hf))) H)
        as [rows [Hr Hl]].
      exists rows. split; [|exact Hl].
      rewrite Hr. f_equal.
      apply (fr_data _ _ (apply_policy_intervention_frame t x m)).
Qed.

(** The row a step appends is the snapshot of the state the step ends
    in. *)
Lemma step_in_order_collect (l : list nat) (m m' : AIEMModel) :
  step_in_order l m = Ok m' ->
  exists row, collect m' = Ok row /\ last (datacollector m') row = row
              /\ datacollector m' <> [].
Proof.
  unfold step_in_order. intro H.
  destruct (for_each l agent_step _) as [m1|e]; [|discriminate].
  cbn [bind] in H.
  set (c := active_illicit_count m1) in *.
  set (m2 := if (0 <? c)%nat then _ else _) in *.
  assert (Hm2 : exists q, m2 = set_recent_arrest_rate q m1)
    by (unfold m2; destruct (0 <? c)%nat; eauto).
  destruct Hm2 as [q Hm2]. clearbody m2. subst m2.
  destruct (collect (set_recent_arrest_rate q m1)) as [row|e] eqn:Ec;
    [|discriminate].
  cbn [bind] in H. exists row.
  assert (Hl : forall (d : list MetricsRow), last (d ++ [row]) row = row)
    by (intro d; apply last_last).
  assert (Hne : forall (d : list MetricsRow), (d ++ [row])%list <> [])
    by (intros [|? ?]; discriminate).
  destruct (c =? 0)%nat; injection H as <-; simpl;
    (split; [exact Ec | split; [apply Hl | apply Hne]]).
Qed.

Lemma average_detection_exposure_in01 (m : AIEMModel) :
  bounded m -> in01 (average_detection_exposure m).
Proof.
  intro Bm. unfold average_detection_exposure.
  assert (H : Forall in01 (map detection_exposure (filter active (agents m)))).
  { rewrite Forall_map. rewrite Forall_forall. intros a Ha.
    apply filter_In in Ha. destruct Ha as [Ha _].
    unfold bounded in Bm. rewrite Forall_forall in Bm.
    apply (b_detection_exposure _ (Bm a Ha)). }
  destruct (map detection_exposure (filter active (agents m))) as [|q l] eqn:E.
  - unfold in01. split; lra.
  - apply np_mean_in01; [discriminate | exact H].
Qed.

Section MetricsOfRuns.

Variable seeded_stream : Z -> nat -> Q.
Variable watts_strogatz_graph : nat -> nat -> Q -> Z -> Graph.

Let init := AIEMModel_init seeded_stream watts_strogatz_graph.
Let valid := valid_graph watts_strogatz_graph.

Lemma init_roles (p : Params) :
  map role (agents (init p))
  = (repeat Leader (n_leaders p) ++ repeat Operative (n_operatives p)
     ++ repeat Broker (n_brokers p) ++ repeat Facilitator (n_facilitators p)
     ++ repeat CommunityMember (n_community_members p)
     ++ repeat Authority (n_authorities p))%list.
Proof.
  destruct (AIEMModel_init_fields seeded_stream watts_strogatz_graph p)
    as [Hag _]. fold init in Hag. rewrite Hag.
  apply (_create_agents_roles p).
Qed.

Lemma init_counts (p : Params) (r : Role) :
  count_active_by_role (init p) r = n_of_role p r.
Proof.
  rewrite count_active_all_active.
  - rewrite init_roles, !filter_app, !length_app, !count_role_repeat.
    destruct r; simpl; lia.
  - eapply Forall_impl; [|apply init_fresh]. intros a [Ha _]. exact Ha.
Qed.

(** A boundary of a run and the step taken from it. *)
Lemma boundary_and_step (p : Params) (B : bool) (es : list Event)
  (agent_list : list nat) :
  valid p -> (0 < total_agents p)%nat ->
  (B = true -> unit_params seeded_stream p /\ Forall nonneg_event es) ->
  exists m m',
    exec es (init p) = Ok m /\ step_in_order agent_list m = Ok m'
    /\ Inv (total_agents p) B (init p)
    /\ Inv (total_agents p) B m /\ Inv (total_agents p) B m'.
Proof.
  intros HG Hn HB.
  destruct (exec_init_total seeded_stream watts_strogatz_graph p B es
              HG Hn HB) as [m [E I]].
  pose proof (step_in_order_Inv _ _ agent_list m I) as Hs.
  destruct (step_in_order agent_list m) as [m'|e] eqn:Es; [|lia].
  exists m, m'. split; [exact E|]. split; [exact Es|].
  split; [|split; assumption].
  apply AIEMModel_init_Inv; [exact HG | intro Hb; apply (HB Hb)].
Qed.

(** X12. In an engine built without Authorities no run ever arrests: at
    the end of every step all agents are active with no arrest, the
    network is the constructed graph, the arrest counter and the recorded
    [ArrestsThisStep] are 0, every per-role active count is the
    configured population, and [running] is still [True] when there is at
    least one Leader, Operative or Broker. *)
Theorem without_authorities_nothing_is_arrested (p : Params)
  (es : list Event) (agent_list : list nat) :
  valid p -> (0 < total_agents p)%nat -> n_authorities p = O ->
  exists m m',
    exec es (init p) = Ok m
    /\ step_in_order agent_list m = Ok m'
    /\ Forall (fun a => active a = true /\ arrest_count a = 0%Z) (agents m')
    /\ network m'
       = watts_strogatz_graph (total_agents p) (network_k p) (network_p p)
                              (seed p)
    /\ arrests_this_step m' = 0%Z
    /\ (forall r, count_active_by_role m' r = n_of_role p r)
    /\ ((0 < n_leaders p + n_operatives p + n_brokers p)%nat ->
        running m' = true)
    /\ exists row,
         datacollector m' = (datacollector m ++ [row])%list
         /\ ArrestsThisStep row = 0%Z
         /\ row_illicit row
            = (n_leaders p + n_operatives p + n_brokers p)%nat.
Proof.
  intros HG Hn Hna.
  destruct (boundary_and_step p false es agent_list HG Hn)
    as [m [m' [E [Es [I0 [I I']]]]]]; [discriminate|].
  assert (Hno : Forall (fun a => role a <> Authority) (agents (init p))).
  { apply (roles_without_authority _ (n_leaders p) (n_operatives p)
             (n_brokers p) (n_facilitators p) (n_community_members p)).
    rewrite init_roles, Hna. reflexivity. }
  destruct (exec_unpoliced _ es _ _ I0 Hno E) as [A1 [A2 A3]].
  pose proof (same_skel_unpoliced _ _ A1 Hno) as Hno1.
  destruct (pass_step _ false unpoliced unpoliced_refl unpoliced_trans
              unpoliced_benign (unpoliced_arrest _ false)
              agent_list m m' I Es Hno1) as [B1 [B2 B3]].
  simpl in B1, B2, B3.
  assert (Hskel : map skel (agents m') = map skel (agents (init p)))
    by congruence.
  assert (Hcount : forall r, count_active_by_role m' r = n_of_role p r)
    by (intro r; rewrite (same_skel_counts _ _ r Hskel); apply init_counts).
  assert (Hill : active_illicit_count m'
                 = (n_leaders p + n_operatives p + n_brokers p)%nat)
    by (unfold active_illicit_count; rewrite !Hcount; reflexivity).
  destruct (step_in_order_effect _ _ _ _ _ I Es)
    as [Hrun [[row [Hdc [Hrow Harr]]] _]].
  exists m, m'. split; [exact E|]. split; [exact Es|]. split; [|split].
  - apply (same_skel_fresh _ _ Hskel). apply init_fresh.
  - rewrite B2, A2. apply init_network.
  - split; [exact B3|]. split; [exact Hcount|]. split.
    + intro Hpos. rewrite Hrun, Hill.
      destruct (n_leaders p + n_operatives p + n_brokers p)%nat eqn:Ec;
        [lia|]. simpl. apply A3.
      * unfold active_illicit_count. rewrite !init_counts. simpl. lia.
      * destruct (AIEMModel_init_fields seeded_stream watts_strogatz_graph p)
          as [_ [_ [_ [_ [Hr _]]]]]. exact Hr.
    + exists row. split; [exact Hdc|]. split; [congruence|].
      now rewrite Hrow.
Qed.

(** X13. The Metrics table is append-only with one row per step: after a
    run it has as many rows as the run has steps, interventions add none,
    and continuing the run only appends to the rows already recorded. *)
Theorem metrics_table_is_append_only (p : Params) (es es' : list Event) :
  valid p -> (0 < total_agents p)%nat ->
  exists m m',
    exec es (init p) = Ok m
    /\ exec (es ++ es') (init p) = Ok m'
    /\ length (datacollector m) = steps_in es
    /\ exists rows,
         datacollector m' = (datacollector m ++ rows)%list
         /\ length rows = steps_in es'.
Proof.
  intros HG Hn.
  destruct (two_boundaries seeded_stream watts_strogatz_graph p es es' HG Hn)
    as [m [m' [E [E2 [E' [I _]]]]]].
  fold init in E, E'.
  exists m, m'. split; [exact E|]. split; [exact E'|]. split.
  - destruct (exec_rows _ es _ _
                (AIEMModel_init_Inv seeded_stream watts_strogatz_graph p false
                   HG (fun Hf => False_ind _ (Bool.diff_false_true Hf))) E)
      as [rows [Hr Hl]].
    destruct (AIEMModel_init_fields seeded_stream watts_strogatz_graph p)
      as [_ [_ [_ [_ [_ Hdc]]]]].
    fold init in Hr. rewrite Hr. unfold init. rewrite Hdc. exact Hl.
  - apply (exec_rows _ es' _ _ I E2).
Qed.

(** X14. The row a step records is the state the step ends in: the four
    active counts, the sum of resources over the whole registry, the mean
    detection exposure of the active agents, both per-step counters and
    the two graph statistics of the final network.  The recorded arrests
    are non-negative, no active count exceeds the configured population
    of its role, [recent_arrest_rate] is non-negative, and with
    parameters and draws in the unit interval and non-negative
    intensities the recorded mean exposure is in [[0,1]]. *)
Theorem step_records_final_state (p : Params) (es : list Event)
  (agent_list : list nat) :
  valid p -> (0 < total_agents p)%nat ->
  exists m m' row,
    exec es (init p) = Ok m
    /\ step_in_order agent_list m = Ok m'
    /\ datacollector m' = (datacollector m ++ [row])%list
    /\ ActiveLeaders row = count_active_by_role m' Leader
    /\ ActiveOperatives row = count_active_by_role m' Operative
    /\ ActiveBrokers row = count_active_by_role m' Broker
    /\ ActiveFacilitators row = count_active_by_role m' Facilitator
    /\ TotalResources row = total_resources m'
    /\ AverageDetectionExposure row = average_detection_exposure m'
    /\ ArrestsThisStep row = arrests_this_step m'
    /\ ReportsThisStep row = reports_this_step m'
    /\ NetworkDensity row = density (network m')
    /\ average_clustering (network m') = Ok (AverageClustering row)
    /\ (0 <= ArrestsThisStep row)%Z
    /\ (forall r, (count_active_by_role m' r <= n_of_role p r)%nat)
    /\ 0 <= recent_arrest_rate m'
    /\ (unit_params seeded_stream p -> Forall nonneg_event es ->
        in01 (AverageDetectionExposure row)).
Proof.
  intros HG Hn.
  destruct (boundary_and_step p false es agent_list HG Hn)
    as [m [m' [E [Es [I0 [I I']]]]]]; [discriminate|].
  destruct (step_in_order_effect _ _ _ _ _ I Es)
    as [_ [[row [Hdc _]] _]].
  destruct (step_in_order_collect _ _ _ Es) as [row' [Hc [Hlast _]]].
  assert (Hrow : row' = row).
  { rewrite Hdc in Hlast. rewrite last_last in Hlast. congruence. }
  subst row'.
  unfold collect in Hc.
  destruct (average_clustering (network m')) as [ac|e] eqn:Eac;
    [|discriminate].
  cbn [bind] in Hc. injection Hc as Hc.
  exists m, m', row. split; [exact E|]. split; [exact Es|].
  split; [exact Hdc|]. rewrite <- Hc. simpl.
  repeat (split; [reflexivity|]).
  split; [exact Eac|].
  split; [apply (inv_nonneg _ _ _ I')|]. split; [|split].
  - intro r. rewrite <- (init_counts p r).
    assert (Ev1 : evolves (world (init p)) (world m))
      by (apply (exec_evolves (total_agents p) es); assumption).
    assert (Ev2 : evolves (world m) (world m')).
    { apply (exec_evolves (total_agents p) [EvStep agent_list]);
        [exact I|]. unfold exec. simpl. now rewrite Es. }
    apply count_active_grows.
    apply (evolves_trans _ _ _ Ev1 Ev2).
  - destruct (step_in_order_end _ _ _ Es)
      as [m1 [row1 [_ [_ [_ [Har [_ [_ [_ [_ [_ [_ [_ Hrate]]]]]]]]]]]]].
    rewrite Hrate. destruct (0 <? active_illicit_count m1)%nat eqn:Epos;
      [|apply Qle_refl].
    apply Nat.ltb_lt in Epos. apply Qle_shift_div_l; [now apply Qnat_pos|].
    rewrite Qmult_0_l. change 0 with (inject_Z 0). rewrite <- Zle_Qle.
    rewrite <- Har. apply (inv_nonneg _ _ _ I').
  - intros Hp Hes.
    destruct (boundary_and_step p true es agent_list HG Hn)
      as [mb [mb' [Eb [Esb [_ [_ Ib']]]]]]; [auto|].
    rewrite E in Eb. injection Eb as <-. rewrite Es in Esb.
    injection Esb as <-.
    apply average_detection_exposure_in01.
    apply (inv_bounded _ _ _ Ib'). reflexivity.
Qed.

End MetricsOfRuns.

(** ** Witnesses of the run properties *)

Lemma demo_closed_below :
  closed_below (total_agents demo_params)
    (ring_graph (total_agents demo_params) (network_k demo_params)
                (network_p demo_params) (seed demo_params)).
Proof.
  intros q w Hq Hw. vm_compute in Hq.
  destruct Hq as [<-|[<-|[<-|[]]]]; vm_compute in Hw;
    repeat (destruct Hw as [<-|Hw]; [vm_compute; lia|]); destruct Hw.
Qed.

Lemma agents_never_come_back_witness :
  valid_graph ring_graph demo_params
  /\ (0 < total_agents demo_params)%nat
  /\ exists m m',
       exec [EvStep [2%nat; 0%nat; 1%nat]] demo_init = Ok m
       /\ exec demo_trace demo_init = Ok m'
       /\ length (agents m') = length (agents m)
       /\ incl (nodes (network m')) (nodes (network m))
       /\ forall r, (count_active_by_role m' r <= count_active_by_role m r)%nat.
Proof.
  split; [reflexivity|]. split; [unfold total_agents; simpl; lia|].
  destruct (agents_never_come_back demo_stream ring_graph demo_params
              [EvStep [2%nat; 0%nat; 1%nat]] (tl demo_trace))
    as [m [m' [E [E' [Hl [_ [Hi Hc]]]]]]];
    [reflexivity | unfold total_agents; simpl; lia |].
  exists m, m'. split; [exact E|]. split; [exact E'|].
  split; [exact Hl|]. split; [exact Hi | exact Hc].
Defined.

Lemma arrest_count_between_zero_and_two_witness :
  valid_graph ring_graph demo_params
  /\ (0 < total_agents demo_params)%nat
  /\ exists m,
       exec demo_trace demo_init = Ok m
       /\ forall a, In a (agents m) ->
            (0 <= arrest_count a <= 2)%Z
            /\ (active a = false <-> arrest_count a = 2%Z)
            /\ (active a = false -> is_illicit (role a) = true).
Proof.
  split; [reflexivity|]. split; [unfold total_agents; simpl; lia|].
  apply (arrest_count_between_zero_and_two demo_stream ring_graph
           demo_params demo_trace);
    [reflexivity | unfold total_agents; simpl; lia].
Defined.

Lemma network_is_initial_graph_on_active_agents_witness :
  valid_graph ring_graph demo_params
  /\ (0 < total_agents demo_params)%nat
  /\ exists m,
       exec [EvStep [2%nat; 0%nat; 1%nat]] demo_init = Ok m
       /\ (active (agent_at 1 m) = true ->
           neighbors (network m) 1
           = Ok (filter (fun w => active (agent_at w m))
                        (adj (ring_graph 3 2 0 7) 1)))
       /\ (active (agent_at 0 m) = false ->
           neighbors (network m) 0 = Raise NetworkXError).
Proof.
  split; [reflexivity|]. split; [unfold total_agents; simpl; lia|].
  destruct (network_is_initial_graph_on_active_agents demo_stream ring_graph
              demo_params [EvStep [2%nat; 0%nat; 1%nat]])
    as [m [E [Hact Hin]]];
    [reflexivity | exact demo_closed_below
     | unfold total_agents; simpl; lia |].
  exists m. split; [exact E|]. split.
  - apply (Hact 1%nat). unfold total_agents; simpl; lia.
  - apply (Hin 0%nat). unfold total_agents; simpl; lia.
Defined.

Lemma without_authorities_nothing_is_arrested_witness :
  valid_graph ring_graph c1_params
  /\ (0 < total_agents c1_params)%nat
  /\ n_authorities c1_params = O
  /\ exists m m',
       exec [EvPolicy "monitoring" 1; EvStep [0%nat; 1%nat]]
            (AIEMModel_init c1_stream ring_graph c1_params) = Ok m
       /\ step_in_order [1%nat; 0%nat] m = Ok m'
       /\ Forall (fun a => active a = true /\ arrest_count a = 0%Z) (agents m')
       /\ arrests_this_step m' = 0%Z
       /\ running m' = true.
Proof.
  split; [reflexivity|]. split; [unfold total_agents; simpl; lia|].
  split; [reflexivity|].
  destruct (without_authorities_nothing_is_arrested c1_stream ring_graph
              c1_params [EvPolicy "monitoring" 1; EvStep [0%nat; 1%nat]]
              [1%nat; 0%nat])
    as [m [m' [E [Es [Hf [_ [Ha [_ [Hr _]]]]]]]]];
    [reflexivity | unfold total_agents; simpl; lia | reflexivity |].
  exists m, m'. split; [exact E|]. split; [exact Es|]. split; [exact Hf|].
  split; [exact Ha|]. apply Hr. simpl. lia.
Defined.

Lemma metrics_table_is_append_only_witness :
  valid_graph ring_graph demo_params
  /\ (0 < total_agents demo_params)%nat
  /\ exists m m',
       exec [EvStep [2%nat; 0%nat; 1%nat]; EvPolicy "monitoring" 1]
            demo_init = Ok m
       /\ exec demo_trace demo_init = Ok m'
       /\ length (datacollector m) = 1%nat
       /\ exists rows,
            datacollector m' = (datacollector m ++ rows)%list
            /\ length rows = 2%nat.
Proof.
  split; [reflexivity|]. split; [unfold total_agents; simpl; lia|].
  apply (metrics_table_is_append_only demo_stream ring_graph demo_params
           [EvStep [2%nat; 0%nat; 1%nat]; EvPolicy "monitoring" 1]
           [EvStep [0%nat; 1%nat; 2%nat]; EvStep [0%nat; 1%nat; 2%nat]]);
    [reflexivity | unfold total_agents; simpl; lia].
Defined.

Lemma step_records_final_state_witness :
  valid_graph ring_graph demo_params
  /\ (0 < total_agents demo_params)%nat
  /\ exists m m' row,
       exec demo_trace demo_init = Ok m
       /\ step_in_order [1%nat; 2%nat; 0%nat] m = Ok m'
       /\ datacollector m' = (datacollector m ++ [row])%list
       /\ TotalResources row = total_resources m'
       /\ (0 <= ArrestsThisStep row)%Z
       /\ in01 (AverageDetectionExposure row).
Proof.
  split; [reflexivity|]. split; [unfold total_agents; simpl; lia|].
  destruct (step_records_final_state demo_stream ring_graph demo_params
              demo_trace [1%nat; 2%nat; 0%nat])
    as [m [m' [row [E [Es [Hdc [_ [_ [_ [_ [Ht [_ [_ [_ [_ [_
         [Hz [_ [_ Hu]]]]]]]]]]]]]]]]]]];
    [reflexivity | unfold total_agents; simpl; lia |].
  exists m, m', row. split; [exact E|]. split; [exact Es|].
  split; [exact Hdc|]. split; [exact Ht|]. split; [exact Hz|].
  apply Hu; [apply demo_unit_params|].
  unfold demo_trace. repeat constructor; simpl; lra.
Defined.

(** ** The runner *)






Lemma run_steps_same_schedule (k step : nat) (ivs ivs' : list Intervention)
  (g : Random) (m : AIEMModel) :
  (forall s m0, (step <= s < step + k)%nat ->
                apply_scheduled ivs s m0 = apply_scheduled ivs' s m0) ->
  run_steps k step ivs g m = run_steps k step ivs' g m.
Proof.
  revert step g m. induction k as [|k IH]; intros step g m H; simpl;
    [reflexivity|].
  rewrite (H step m) by lia.
  destruct (AIEMModel_step g (apply_scheduled ivs' step m)) as [[m2|e] g'];
    [|reflexivity].
  apply IH. intros s m0 Hs. apply H. lia.
Qed.

Lemma apply_scheduled_filter (f : Intervention -> bool)
  (ivs : list Intervention) (step : nat) (m : AIEMModel) :
  (forall iv, iv_step iv = step -> f iv = true) ->
  apply_scheduled (filter f ivs) step m = apply_scheduled ivs step m.
Proof.
  intro Hf. unfold apply_scheduled. revert m.
  induction ivs as [|iv l IH]; intro m; simpl; [reflexivity|].
  destruct (f iv) eqn:E; simpl.
  - apply IH.
  - destruct (iv_step iv =? step)%nat eqn:Es; [|apply IH].
    apply Nat.eqb_eq in Es. rewrite (Hf iv Es) in E. discriminate.
Qed.

Section Runner.

Variable seeded_stream : Z -> nat -> Q.
Variable watts_strogatz_graph : nat -> nat -> Q -> Z -> Graph.

Let init := AIEMModel_init seeded_stream watts_strogatz_graph.
Let valid := valid_graph watts_strogatz_graph.
Let run := run_simulation seeded_stream watts_strogatz_graph.


(** X16. An intervention scheduled at a step the run does not reach is
    never applied: the run is the one of the schedule without it. *)
Theorem interventions_after_the_last_step_are_ignored (p : Params)
  (steps : nat) (interventions : list Intervention) (g : Random) :
  run p steps interventions g
  = run p steps
      (filter (fun iv => (iv_step iv <? steps)%nat) interventions) g.
Proof.
  unfold run, run_simulation.
  apply run_steps_same_schedule. intros s m0 Hs. symmetry.
  apply apply_scheduled_filter. intros iv Hiv.
  apply Nat.ltb_lt. lia.
Qed.

End Runner.


(** ** The shuffled order of a step *)

Lemma randbelow_lt (n : nat) (g : Random) :
  half_open g -> (0 < n)%nat ->
  (fst (randbelow n g) < n)%nat /\ half_open (snd (randbelow n g)).
Proof.
  intros Hg Hn. unfold randbelow, random_random. cbn [fst snd].
  split; [|exact Hg].
  destruct (Hg (pos g)) as [H0 H1].
  set (u := draws g (pos g)) in *.
  pose proof (Qnat_pos n Hn) as Hp.
  assert (Hlt : u * Qnat n < Qnat n).
  { rewrite <- (Qmult_1_l (Qnat n)) at 2. apply Qmult_lt_r; assumption. }
  assert (Hge : 0 <= u * Qnat n) by (apply Qmult_le_0_compat; lra).
  pose proof (Qfloor_le (u * Qnat n)) as Hfl.
  assert (Hf0 : (0 <= Qfloor (u * Qnat n))%Z).
  { change 0%Z with (Qfloor 0). apply Qfloor_resp_le. exact Hge. }
  assert (Hfn : (Qfloor (u * Qnat n) < Z.of_nat n)%Z).
  { rewrite Zlt_Qlt. fold (Qnat n).
    generalize dependent (inject_Z (Qfloor (u * Qnat n))). intros. lra. }
  apply Nat2Z.inj_lt. rewrite Z2Nat.id; assumption.
Qed.

Lemma swap_length (i j : nat) (x : list nat) :
  length (swap i j x) = length x.
Proof. unfold swap. now rewrite !length_upd. Qed.

Lemma swap_nth_error (i j k : nat) (x : list nat) :
  (i < length x)%nat -> (j < length x)%nat ->
  nth_error (swap i j x) k = nth_error x (transpose i j k).
Proof.
  intros Hi Hj. unfold swap, transpose.
  destruct (Nat.eqb_spec k i) as [->|Hki].
  - rewrite nth_error_upd_eq.
    rewrite (nth_error_of_lt _ i O) by (now rewrite length_upd).
    rewrite (nth_error_of_lt _ j O) by assumption. reflexivity.
  - rewrite nth_error_upd_neq by congruence.
    destruct (Nat.eqb_spec k j) as [->|Hkj].
    + rewrite nth_error_upd_eq, !(nth_error_of_lt _ _ O) by assumption.
      reflexivity.
    + rewrite nth_error_upd_neq by congruence. reflexivity.
Qed.

Lemma swap_Permutation (i j : nat) (x : list nat) :
  (i < length x)%nat -> (j < length x)%nat -> Permutation x (swap i j x).
Proof.
  intros Hi Hj. apply Permutation_nth_error.
  split; [symmetry; apply swap_length|].
  exists (transpose i j). split.
  - intros a b. unfold transpose.
    destruct (Nat.eqb_spec a i); destruct (Nat.eqb_spec b i);
      destruct (Nat.eqb_spec a j); destruct (Nat.eqb_spec b j); lia.
  - intro k. apply swap_nth_error; assumption.
Qed.

Lemma shuffle_from_Permutation (i : nat) (x : list nat) (g : Random) :
  half_open g -> (i < length x)%nat ->
  Permutation (fst (shuffle_from i x g)) x
  /\ half_open (snd (shuffle_from i x g)).
Proof.
  revert x g. induction i as [|i IH]; intros x g Hg Hi.
  - split; [apply Permutation_refl | exact Hg].
  - cbn [shuffle_from].
    destruct (randbelow_lt (S (S i)) g Hg) as [Hj Hg']; [lia|].
    destruct (randbelow (S (S i)) g) as [j g']. cbn [fst snd] in Hj, Hg'.
    destruct (IH (swap (S i) j x) g' Hg') as [HP Hh];
      [rewrite swap_length; lia|].
    split; [|exact Hh].
    apply (Permutation_trans HP). apply Permutation_sym.
    apply swap_Permutation; lia.
Qed.

Lemma random_shuffle_Permutation (x : list nat) (g : Random) :
  half_open g ->
  Permutation (fst (random_shuffle x g)) x
  /\ half_open (snd (random_shuffle x g)).
Proof.
  intro Hg. unfold random_shuffle. destruct x as [|a x].
  - simpl. split; [apply Permutation_refl | exact Hg].
  - apply shuffle_from_Permutation; [exact Hg | simpl; lia].
Qed.

Lemma run_trace_activates_all (n k step : nat)
  (interventions : list Intervention) (g : Random) :
  half_open g ->
  Forall (activates_all n) (run_trace n k step interventions g).
Proof.
  revert step g. induction k as [|k IH]; intros step g Hg; simpl;
    [constructor|].
  destruct (random_shuffle_Permutation (seq 0 n) g Hg) as [HP Hg'].
  destruct (random_shuffle (seq 0 n) g) as [l g']. simpl in HP, Hg'.
  apply Forall_app. split.
  - unfold policy_events. apply Forall_forall. intros e He.
    apply in_map_iff in He. destruct He as [iv [<- _]]. exact I.
  - constructor; [exact HP | apply IH; exact Hg'].
Qed.

(** X17. With the draws of [random.random()] in [[0, 1)], the order in
    which a step activates the agents is a permutation of the registry:
    each registered agent, active or not, is activated exactly once, in
    [AIEMModel.step] and so in every step [run_simulation] takes. *)
Theorem step_activates_each_agent_once (g : Random) (m : AIEMModel)
  (steps : nat) (interventions : list Intervention) :
  half_open g ->
  (exists agent_list g',
     AIEMModel_step g m = (step_in_order agent_list m, g')
     /\ Permutation agent_list (seq 0 (length (agents m)))
     /\ NoDup agent_list
     /\ (forall i, In i agent_list <-> (i < length (agents m))%nat)
     /\ half_open g')
  /\ Forall (activates_all (length (agents m)))
            (run_trace (length (agents m)) steps 0 interventions g).
Proof.
  intro Hg. split; [|apply run_trace_activates_all; exact Hg].
  unfold AIEMModel_step.
  destruct (random_shuffle_Permutation (seq 0 (length (agents m))) g Hg)
    as [HP Hg'].
  destruct (random_shuffle (seq 0 (length (agents m))) g) as [l g'].
  simpl in HP, Hg'. exists l, g'.
  split; [reflexivity|]. split; [exact HP|]. split; [|split; [|exact Hg']].
  - apply (Permutation_NoDup (Permutation_sym HP)). apply seq_NoDup.
  - intro i. split; intro H.
    + apply (Permutation_in _ HP) in H. apply in_seq in H. lia.
    + apply (Permutation_in _ (Permutation_sym HP)). apply in_seq. lia.
Qed.

Lemma step_activates_each_agent_once_witness :
  half_open (mkRandom (fun _ => 3#4) O)
  /\ exists agent_list g',
       AIEMModel_step (mkRandom (fun _ => 3#4) O) demo_init
       = (step_in_order agent_list demo_init, g')
       /\ Permutation agent_list (seq 0 (length (agents demo_init))).
Proof.
  assert (H : half_open (mkRandom (fun _ => 3#4) O))
    by (intro k; simpl; split; lra).
  split; [exact H|].
  destruct (step_activates_each_agent_once (mkRandom (fun _ => 3#4) O)
              demo_init 0 [] H) as [[l [g' [E [HP _]]]] _].
  exists l, g'. split; [exact E | exact HP].
Defined.

(** ** Draws above the detection and report probabilities *)

Lemma still_refl (m : AIEMModel) : still m m.
Proof. split; reflexivity. Qed.

Lemma still_trans (m1 m2 m3 : AIEMModel) :
  still m1 m2 -> still m2 m3 -> still m1 m3.
Proof. intros [A1 A2] [B1 B2]. split; congruence. Qed.

Lemma still_update_agent (i : nat) (f : Agent -> Agent) (m : AIEMModel) :
  still m (update_agent i f m).
Proof. split; reflexivity. Qed.

Lemma still_draw (m : AIEMModel) : still m (snd (draw m)).
Proof. split; reflexivity. Qed.

Lemma still_fold_left {A : Type} (f : AIEMModel -> A -> AIEMModel)
  (l : list A) (m : AIEMModel) :
  (forall m x, still m (f m x)) -> still m (fold_left f l m).
Proof.
  intro H. revert m. induction l as [|x l IH]; intro m; simpl.
  - apply still_refl.
  - eapply still_trans; [apply H | apply IH].
Qed.

Lemma passes_bind (R : AIEMModel -> AIEMModel -> Prop) (m : AIEMModel)
  (r : result AIEMModel) (k : AIEMModel -> result AIEMModel) :
  (forall m1 m2 m3, R m1 m2 -> R m2 m3 -> R m1 m3) ->
  passes R m r -> (forall m1, passes R m1 (k m1)) ->
  passes R m (bind r k).
Proof.
  intros Ht Hr Hk. destruct r as [m1|e]; simpl; [|exact I].
  specialize (Hk m1). destruct (k m1) as [m2|e]; simpl in *; [|exact I].
  apply (Ht _ _ _ Hr Hk).
Qed.

Lemma update_social_capital_still (i : nat) (m : AIEMModel) :
  passes still m (update_social_capital i m).
Proof.
  unfold update_social_capital.
  destruct (neighbors (network m) _) as [ns|e]; simpl; [|exact I].
  destruct (0 <? length ns)%nat; simpl; [|apply still_refl].
  destruct (flat_map _ ns); simpl;
    [apply still_refl | apply still_update_agent].
Qed.

Lemma adjust_risk_from_environment_still (i : nat) (m : AIEMModel) :
  still m (adjust_risk_from_environment i m).
Proof.
  unfold adjust_risk_from_environment.
  destruct (Qltb _ _); [apply still_update_agent | apply still_refl].
Qed.

Lemma AbstractAgent_step_still (i : nat) (m : AIEMModel) :
  passes still m (AbstractAgent_step i m).
Proof.
  unfold AbstractAgent_step.
  destruct (negb (active (agent_at i m))); [apply still_refl|].
  apply (passes_bind still _ _ _ still_trans);
    [apply update_social_capital_still|].
  intro m1. apply adjust_risk_from_environment_still.
Qed.

Lemma guarded_step_still (i : nat) (m : AIEMModel)
  (act : nat -> AIEMModel -> result AIEMModel) :
  (forall m1, passes still m1 (act i m1)) ->
  passes still m
    (m1 <- AbstractAgent_step i m ;;
     if negb (active (agent_at i m1)) then Ok m1 else act i m1).
Proof.
  intro Hact.
  apply (passes_bind still _ _ _ still_trans);
    [apply AbstractAgent_step_still|].
  intro m1. destruct (negb (active (agent_at i m1)));
    [apply still_refl | apply Hact].
Qed.

Lemma distribute_resources_still (i : nat) (m : AIEMModel) :
  passes still m (distribute_resources i m).
Proof.
  unfold distribute_resources.
  destruct (neighbors (network m) _) as [ns|e]; simpl; [|exact I].
  destruct (_ && _); simpl; [|apply still_refl].
  apply still_fold_left. intros m0 x. unfold distribute_to.
  destruct (get_agent_by_id m0 x); [|apply still_refl].
  destruct (is_operative_or_broker _); [|apply still_refl].
  split; reflexivity.
Qed.

Lemma perform_abstract_activity_still (i : nat) (m : AIEMModel) :
  still m (perform_abstract_activity i m).
Proof.
  unfold perform_abstract_activity.
  destruct (_ && _); [|apply still_refl].
  unfold draw, random_random. destruct (Qltb _ _); split; reflexivity.
Qed.

Lemma mediate_connections_still (i : nat) (m : AIEMModel) :
  passes still m (mediate_connections i m).
Proof.
  unfold mediate_connections.
  destruct (neighbors (network m) _) as [ns|e]; cbn [bind passes];
    [|exact I].
  destruct (2 <=? length ns)%nat; cbn [passes];
    [apply still_update_agent | apply still_refl].
Qed.

Lemma maintain_legitimacy_still (i : nat) (m : AIEMModel) :
  still m (maintain_legitimacy i m).
Proof.
  unfold maintain_legitimacy.
  destruct (Qltb _ _); [split; reflexivity | apply still_refl].
Qed.

Lemma Operative_step_still (i : nat) (m : AIEMModel) :
  passes still m (Operative_step i m).
Proof.
  unfold Operative_step.
  apply (guarded_step_still i m
           (fun i m1 =>
              Ok (perform_abstract_activity i
                    match economic_stress (agent_at i m1) with
                    | Some es =>
                        if Qltb (7#10) es then
                          update_agent i
                            (fun a => set_risk_tolerance
                               (py_min 1 (risk_tolerance a + (5#100))) a) m1
                        else m1
                    | None => m1
                    end))).
  intro m1. cbn [passes].
  eapply still_trans; [|apply perform_abstract_activity_still].
  destruct (economic_stress _); [|apply still_refl].
  destruct (Qltb _ _); [apply still_update_agent | apply still_refl].
Qed.

Lemma the_reporting_propensity_le (a : Agent) :
  bounded_agent a -> the_reporting_propensity a <= 1.
Proof.
  intros [_ _ _ _ Hx]. unfold the_reporting_propensity, reporting_propensity.
  destruct (extra a); simpl in *; try lra. destruct Hx as [_ [_ H]]. exact H.
Qed.

Lemma the_monitoring_capacity_in01 (a : Agent) :
  bounded_agent a -> in01 (the_monitoring_capacity a).
Proof.
  intros [_ _ _ _ Hx]. unfold the_monitoring_capacity, monitoring_capacity.
  destruct (extra a); simpl in *; try (split; lra). exact Hx.
Qed.

Section Calm.

Variables (n : nat) (t : Q).

Lemma still_hush (m m' : AIEMModel) : still m m' -> hush t m m'.
Proof. intros [H1 H2]. split; auto. Qed.

Lemma calm_refl (m : AIEMModel) : calm t m m.
Proof. split; [apply ext_refl | apply still_hush, still_refl]. Qed.

Lemma calm_trans (m1 m2 m3 : AIEMModel) :
  calm t m1 m2 -> calm t m2 m3 -> calm t m1 m3.
Proof.
  intros [E1 [A1 A2]] [E2 [B1 B2]]. split; [eapply ext_trans; eassumption|].
  split; [intro Ht; rewrite (B1 Ht); auto | congruence].
Qed.

Lemma steady_calm (m m' : AIEMModel) :
  steady n t m -> calm t m m' -> steady n t m'.
Proof.
  intros [I Hd] [E [_ Hr]]. split; [apply (Inv_ext _ _ _ _ I E)|].
  intro k. rewrite Hr. apply Hd.
Qed.

Lemma calm_of_ext_still (m : AIEMModel) (r : result AIEMModel) :
  (exists m', r = Ok m' /\ ext m m') -> passes still m r ->
  exists m', r = Ok m' /\ calm t m m'.
Proof.
  intros [m' [-> E]] Hs. exists m'. split; [reflexivity|].
  split; [exact E | apply still_hush; exact Hs].
Qed.

(** A CommunityMember reports with probability at most 0.1. *)
Lemma consider_neighbor_calm (i : nat) (m : AIEMModel) (x : nat) :
  steady n t m -> (i < n)%nat -> calm t m (consider_neighbor i m x).
Proof.
  intros [I Hd] Hi. split; [apply consider_neighbor_ext|].
  unfold consider_neighbor.
  destruct (get_agent_by_id m x); [|apply still_hush, still_refl].
  destruct (Qltb (7#10) _); [|apply still_hush, still_refl].
  unfold draw, random_random.
  set (m1 := set_random _ m).
  destruct (Qltb (draws (random m) (pos (random m))) _) eqn:E;
    [|apply still_hush; split; reflexivity].
  split.
  - intro Ht. exfalso. apply Qltb_true in E.
    change (agent_at i m1) with (agent_at i m) in E.
    assert (Hrp : the_reporting_propensity (agent_at i m) <= 1).
    { apply the_reporting_propensity_le.
      apply bounded_agent_at; [apply (inv_bounded _ _ _ I); reflexivity|].
      now rewrite (Inv_length _ _ _ I). }
    specialize (Hd (pos (random m))).
    generalize dependent (the_reporting_propensity (agent_at i m)).
    generalize dependent (draws (random m) (pos (random m))).
    intros. lra.
  - unfold report_suspicious_activity.
    destruct (get_agent_by_id _ x); reflexivity.
Qed.

Lemma consider_reporting_calm (i : nat) (m : AIEMModel) :
  steady n t m -> (i < n)%nat -> active (agent_at i m) = true ->
  exists m', consider_reporting i m = Ok m' /\ calm t m m'.
Proof.
  intros S Hi Ha. unfold consider_reporting.
  destruct (Inv_lookup _ _ _ _ (proj1 S) Hi Ha) as [ns ->]. simpl.
  eexists; split; [reflexivity|].
  clear Ha. revert m S. induction ns as [|x ns IH]; intros m S; simpl.
  - apply calm_refl.
  - pose proof (consider_neighbor_calm i m x S Hi) as C.
    eapply calm_trans; [exact C|]. apply IH. apply (steady_calm _ _ S C).
Qed.

Lemma CommunityMember_step_calm (i : nat) (m : AIEMModel) :
  steady n t m -> (i < n)%nat ->
  exists m', CommunityMember_step i m = Ok m' /\ calm t m m'.
Proof.
  intros S Hi. unfold CommunityMember_step.
  pose proof (AbstractAgent_step_still i m) as Hs.
  destruct (AbstractAgent_step_ext _ _ _ _ (proj1 S) Hi) as [m1 [E1 X1]].
  rewrite E1 in *. cbn [bind passes] in *.
  assert (C1 : calm t m m1) by (split; [exact X1 | apply still_hush, Hs]).
  destruct (active (agent_at i m1)) eqn:Ha; cbn [negb].
  - destruct (consider_reporting_calm i m1 (steady_calm _ _ S C1) Hi Ha)
      as [m' [-> C2]].
    exists m'. split; [reflexivity | apply (calm_trans _ _ _ C1 C2)].
  - exists m1. split; [reflexivity | exact C1].
Qed.

Hypothesis t_detect : (1#20) <= t.

(** An Authority detects with probability at most 0.05. *)
Lemma monitor_agent_calm (i j : nat) (m : AIEMModel) :
  steady n t m -> (i < n)%nat -> (j < n)%nat ->
  exists m', monitor_agent i j m = Ok m' /\ calm t m m'.
Proof.
  intros [I Hd] Hi Hj. unfold monitor_agent.
  destruct (_ && _); [|exists m; split; [reflexivity | apply calm_refl]].
  unfold draw, random_random.
  set (m1 := set_random _ m).
  assert (C1 : calm t m m1).
  { split; [apply (ext_draw m) | apply still_hush, (still_draw m)]. }
  destruct (Qltb (draws (random m) (pos (random m))) _) eqn:E;
    [|exists m1; split; [reflexivity | exact C1]].
  exfalso. apply Qltb_true in E.
  pose proof (inv_bounded _ _ _ I eq_refl) as Bm.
  assert (Hde : in01 (detection_exposure (agent_at j m))).
  { apply b_detection_exposure. apply bounded_agent_at; [exact Bm|].
    now rewrite (Inv_length _ _ _ I). }
  assert (Hmc : in01 (the_monitoring_capacity (agent_at i m))).
  { apply the_monitoring_capacity_in01. apply bounded_agent_at; [exact Bm|].
    now rewrite (Inv_length _ _ _ I). }
  specialize (Hd (pos (random m))).
  destruct Hde as [D0 D1]. destruct Hmc as [M0 M1].
  generalize dependent (the_monitoring_capacity (agent_at i m)).
  generalize dependent (detection_exposure (agent_at j m)).
  generalize dependent (draws (random m) (pos (random m))).
  intros u Hu de D0 D1 mc E M0 M1.
  assert (Hprod : de * mc <= 1).
  { apply Qle_trans with (1 * mc); [|lra].
    apply Qmult_le_compat_r; assumption. }
  generalize dependent (de * mc). intros. lra.
Qed.

Lemma monitor_and_intervene_calm (i : nat) (m : AIEMModel) :
  steady n t m -> (i < n)%nat ->
  exists m', monitor_and_intervene i m = Ok m' /\ calm t m m'.
Proof.
  intros S Hi. unfold monitor_and_intervene.
  destruct (for_each_inv (fun m1 => steady n t m1 /\ calm t m m1)
              (seq 0 (length (agents m))) (monitor_agent i) m)
    as [m1 [-> [_ C1]]].
  - intros j m1 Hj [S1 C1].
    destruct (monitor_agent_calm i j m1 S1 Hi) as [m2 [E2 C2]].
    + apply in_seq in Hj. rewrite (Inv_length _ _ _ (proj1 S)) in Hj. lia.
    + exists m2. split; [exact E2|].
      split; [apply (steady_calm _ _ S1 C2) | apply (calm_trans _ _ _ C1 C2)].
  - split; [exact S | apply calm_refl].
  - cbn [bind]. eexists; split; [reflexivity|].
    eapply calm_trans; [exact C1|].
    split; [apply ext_intervention_resources
           | apply still_hush, still_update_agent].
Qed.

Lemma Authority_step_calm (i : nat) (m : AIEMModel) :
  steady n t m -> (i < n)%nat ->
  exists m', Authority_step i m = Ok m' /\ calm t m m'.
Proof.
  intros S Hi. unfold Authority_step.
  pose proof (AbstractAgent_step_still i m) as Hs.
  destruct (AbstractAgent_step_ext _ _ _ _ (proj1 S) Hi) as [m1 [E1 X1]].
  rewrite E1 in *. cbn [bind passes] in *.
  assert (C1 : calm t m m1) by (split; [exact X1 | apply still_hush, Hs]).
  destruct (monitor_and_intervene_calm i m1 (steady_calm _ _ S C1) Hi)
    as [m' [-> C2]].
  exists m'. split; [reflexivity | apply (calm_trans _ _ _ C1 C2)].
Qed.

Lemma agent_step_calm (i : nat) (m : AIEMModel) :
  steady n t m -> exists m', agent_step i m = Ok m' /\ calm t m m'.
Proof.
  intro S. pose proof (proj1 S) as I. unfold agent_step.
  destruct (nth_error (agents m) i) as [a|] eqn:E;
    [|exists m; split; [reflexivity | apply calm_refl]].
  assert (Hi : (i < n)%nat).
  { rewrite <- (Inv_length _ _ _ I). apply nth_error_Some. congruence. }
  destruct (extra a).
  - apply calm_of_ext_still; [apply (Leader_step_ext n true); assumption|].
    apply (guarded_step_still i m distribute_resources).
    intro m1. apply distribute_resources_still.
  - apply calm_of_ext_still; [apply (Operative_step_ext n true); assumption|].
    apply Operative_step_still.
  - apply calm_of_ext_still; [apply (Broker_step_ext n true); assumption|].
    apply (guarded_step_still i m mediate_connections).
    intro m1. apply mediate_connections_still.
  - apply calm_of_ext_still;
      [apply (Facilitator_step_ext n true); assumption|].
    apply (guarded_step_still i m (fun i m => Ok (maintain_legitimacy i m))).
    intro m1. apply maintain_legitimacy_still.
  - apply CommunityMember_step_calm; assumption.
  - apply Authority_step_calm; assumption.
Qed.

End Calm.

Lemma step_in_order_calm (n : nat) (t : Q) (agent_list : list nat)
  (m : AIEMModel) :
  (1#20) <= t -> (0 < n)%nat -> steady n t m ->
  exists m' row,
    step_in_order agent_list m = Ok m' /\ steady n t m'
    /\ map skel (agents m') = map skel (agents m)
    /\ network m' = network m
    /\ datacollector m' = (datacollector m ++ [row])%list
    /\ calm_row t row.
Proof.
  intros Ht Hn [I Hd].
  set (m0 := set_intervene_calls 0%Z
               (set_reports_this_step 0%Z (set_arrests_this_step 0%Z m))).
  assert (S0 : steady n t m0).
  { split; [|exact Hd]. destruct I as [W C N R Bd].
    constructor; simpl; auto. lia. }
  destruct (for_each_inv (fun m1 => steady n t m1 /\ calm t m0 m1)
              agent_list agent_step m0) as [m1 [E1 [S1 C1]]].
  - intros x mx _ [Sx Cx].
    destruct (agent_step_calm n t Ht x mx Sx) as [m' [E' C']].
    exists m'. split; [exact E'|].
    split; [apply (steady_calm _ _ _ _ Sx C')
           | apply (calm_trans _ _ _ _ Cx C')].
  - split; [exact S0 | apply calm_refl].
  - pose proof (step_in_order_Inv n true agent_list m I) as I'.
    destruct (step_in_order agent_list m) as [m'|e] eqn:E; [|lia].
    destruct (step_in_order_end _ _ _ E)
      as [m1' [row [E1' [Hag [HG [Har [Hre [_ [Hra [Hdc [_ [Hrow _]]]]]]]]]]]].
    fold m0 in E1'. rewrite E1 in E1'. injection E1' as <-.
    destruct C1 as [[[F1 F2 F3 _ _ F6] _] [Hrep Hdraws]].
    destruct (step_in_order_collect _ _ _ E) as [row' [Hc [Hlast _]]].
    assert (Hrow' : row' = row).
    { rewrite Hdc in Hlast. rewrite last_last in Hlast. congruence. }
    subst row'. unfold collect in Hc.
    destruct (average_clustering (network m')) as [ac|e]; [|discriminate].
    cbn [bind] in Hc. injection Hc as Hc.
    exists m', row. split; [reflexivity|]. split; [|split; [|split; [|split]]].
    + split; [exact I'|]. intro k. rewrite Hra, Hdraws. apply Hd.
    + rewrite Hag, F1. reflexivity.
    + rewrite HG, F2. reflexivity.
    + rewrite Hdc, F6. reflexivity.
    + split.
      * rewrite Hrow, F3. reflexivity.
      * intro Ht'. rewrite <- Hc. simpl. rewrite Hre, (Hrep Ht').
        reflexivity.
Qed.

Lemma apply_policy_intervention_random (ty : string) (x : Q)
  (m : AIEMModel) : random (apply_policy_intervention ty x m) = random m.
Proof.
  unfold apply_policy_intervention.
  repeat match goal with
         | |- context [if ?b then _ else _] => destruct b
         end; reflexivity.
Qed.

Lemma exec_calm (n : nat) (t : Q) (es : list Event) (m : AIEMModel) :
  (1#20) <= t -> (0 < n)%nat -> steady n t m -> Forall nonneg_event es ->
  exists m' rows,
    exec es m = Ok m' /\ steady n t m'
    /\ map skel (agents m') = map skel (agents m)
    /\ network m' = network m
    /\ datacollector m' = (datacollector m ++ rows)%list
    /\ Forall (calm_row t) rows.
Proof.
  intros Ht Hn S Hes. revert m S. unfold exec.
  induction Hes as [|e es He _ IH]; intros m S.
  - exists m, []. simpl. rewrite app_nil_r.
    split; [reflexivity|]. split; [exact S|]. repeat split. constructor.
  - destruct e as [l | ty x]; cbn [for_each exec_event].
    + destruct (step_in_order_calm n t l m Ht Hn S)
        as [m1 [row [-> [S1 [A1 [A2 [A3 A4]]]]]]].
      cbn [bind].
      destruct (IH m1 S1) as [m' [rows [E [S' [B1 [B2 [B3 B4]]]]]]].
      exists m', (row :: rows). split; [exact E|]. split; [exact S'|].
      split; [congruence|]. split; [congruence|].
      split; [rewrite B3, A3, <- app_assoc; reflexivity|].
      constructor; assumption.
    + cbn [bind]. simpl in He.
      destruct (apply_policy_intervention_frame ty x m)
        as [F1 F2 _ _ _ F6].
      destruct (IH (apply_policy_intervention ty x m))
        as [m' [rows [E [S' [B1 [B2 [B3 B4]]]]]]].
      * destruct S as [I Hd]. split.
        -- apply apply_policy_intervention_Inv; [exact I | intros _; exact He].
        -- rewrite apply_policy_intervention_random. exact Hd.
      * exists m', rows. split; [exact E|]. split; [exact S'|].
        split; [congruence|]. split; [congruence|].
        split; [congruence | exact B4].
Qed.

Lemma _create_agents_draws (p : Params) (r : Random) :
  draws (snd (_create_agents p r)) = draws r.
Proof.
  unfold _create_agents.
  repeat match goal with
  | |- context [create_n ?c ?mk ?u ?g] =>
      let H := fresh "H" in
      pose proof (proj2 (create_n_Forall (fun _ => True) (fun _ => True)
                           mk c u g (fun _ _ => eq_refl)
                           (fun _ _ _ => I) I)) as H;
      destruct (create_n c mk u g); simpl in H
  end.
  simpl. congruence.
Qed.

Section CalmRuns.

Variable seeded_stream : Z -> nat -> Q.
Variable watts_strogatz_graph : nat -> nat -> Q -> Z -> Graph.

Let init := AIEMModel_init seeded_stream watts_strogatz_graph.
Let valid := valid_graph watts_strogatz_graph.

Lemma init_steady (p : Params) (t : Q) :
  valid p -> unit_params seeded_stream p ->
  (forall k, t <= seeded_stream (seed p) k) ->
  steady (total_agents p) t (init p).
Proof.
  intros HG Hp Ht. split.
  - apply AIEMModel_init_Inv; [exact HG | intros _; exact Hp].
  - assert (Hr : random (init p)
                 = snd (_create_agents p
                          (mkRandom (seeded_stream (seed p)) O))).
    { unfold init, AIEMModel_init.
      destruct (_create_agents p _); reflexivity. }
    intro k. rewrite Hr, _create_agents_draws. apply Ht.
Qed.

(** X18. An Authority detects an agent with probability
    [detection_exposure * monitoring_capacity * 0.05], at most 0.05, and
    a CommunityMember reports a neighbour with probability
    [reporting_propensity * 0.1], at most 0.1.  So with parameters and
    seeded draws in the unit interval and non-negative intensities: if
    no seeded draw is below 0.05, no run ever arrests (every recorded
    [ArrestsThisStep] is 0, every agent stays active with no arrest, the
    network stays the constructed graph, the active counts stay the
    configured populations); and if no seeded draw is below 0.1, no
    report is ever recorded either. *)
Theorem no_draw_below_the_probability_bound_no_arrest (p : Params)
  (es : list Event) :
  valid p -> (0 < total_agents p)%nat -> unit_params seeded_stream p ->
  Forall nonneg_event es ->
  (forall k, (1#20) <= seeded_stream (seed p) k) ->
  exists m,
    exec es (init p) = Ok m
    /\ Forall (fun a => active a = true /\ arrest_count a = 0%Z) (agents m)
    /\ network m
       = watts_strogatz_graph (total_agents p) (network_k p) (network_p p)
                              (seed p)
    /\ (forall r, count_active_by_role m r = n_of_role p r)
    /\ Forall (fun row => ArrestsThisStep row = 0%Z) (datacollector m)
    /\ ((forall k, (1#10) <= seeded_stream (seed p) k) ->
        Forall (fun row => ReportsThisStep row = 0%Z) (datacollector m)).
Proof.
  intros HG Hn Hp Hes Ht.
  destruct (AIEMModel_init_fields seeded_stream watts_strogatz_graph p)
    as [_ [HG0 [_ [_ [_ Hdc]]]]]. fold init in HG0, Hdc.
  destruct (exec_calm _ _ es _ (Qle_refl _) Hn (init_steady p _ HG Hp Ht) Hes)
    as [m [rows [E [_ [A1 [A2 [A3 A4]]]]]]].
  rewrite Hdc in A3. simpl in A3.
  exists m. split; [exact E|]. split; [|split; [|split; [|split]]].
  - apply (same_skel_fresh _ _ A1).
    apply (init_fresh seeded_stream watts_strogatz_graph).
  - rewrite A2. exact HG0.
  - intro r. rewrite (same_skel_counts _ _ r A1).
    apply (init_counts seeded_stream watts_strogatz_graph).
  - rewrite A3. eapply Forall_impl; [|exact A4]. intros row [H _]. exact H.
  - intro Ht'.
    assert (Hle : (1#20) <= (1#10)) by lra.
    destruct (exec_calm _ (1#10) es _ Hle
                Hn (init_steady p _ HG Hp Ht') Hes)
      as [m2 [rows2 [E2 [_ [_ [_ [B3 B4]]]]]]].
    rewrite E in E2. injection E2 as <-.
    rewrite Hdc in B3. simpl in B3. rewrite B3.
    eapply Forall_impl; [|exact B4]. intros row [_ H]. apply H.
    apply Qle_refl.
Qed.

End CalmRuns.

Lemma no_draw_below_the_probability_bound_no_arrest_witness :
  valid_graph ring_graph demo_params
  /\ (0 < total_agents demo_params)%nat
  /\ unit_params (fun _ _ => 1#2) demo_params
  /\ Forall nonneg_event demo_trace
  /\ (forall k : nat, (1#20) <= (fun (_ : Z) (_ : nat) => 1#2)
                                  (seed demo_params) k)
  /\ exists m,
       exec demo_trace (AIEMModel_init (fun _ _ => 1#2) ring_graph demo_params)
       = Ok m
       /\ Forall (fun row => ArrestsThisStep row = 0%Z) (datacollector m)
       /\ Forall (fun row => ReportsThisStep row = 0%Z) (datacollector m).
Proof.
  assert (Hu : unit_params (fun _ _ => 1#2) demo_params)
    by (unfold unit_params, in01; simpl; repeat split; lra).
  assert (He : Forall nonneg_event demo_trace)
    by (unfold demo_trace; repeat constructor; simpl; lra).
  split; [reflexivity|]. split; [unfold total_agents; simpl; lia|].
  split; [exact Hu|]. split; [exact He|].
  split; [intro k; lra|].
  destruct (no_draw_below_the_probability_bound_no_arrest (fun _ _ => 1#2)
              ring_graph demo_params demo_trace)
    as [m [E [_ [_ [_ [Ha Hr]]]]]];
    [reflexivity | unfold total_agents; simpl; lia | exact Hu | exact He
     | intro k; lra |].
  exists m. split; [exact E|]. split; [exact Ha|].
  apply Hr. intro k. lra.
Defined.

(** ** Resources created and spent by one activation *)






Lemma passes_for_each {A : Type} (R : AIEMModel -> AIEMModel -> Prop)
  (l : list A) (body : A -> AIEMModel -> result AIEMModel) (m : AIEMModel) :
  (forall m0, R m0 m0) ->
  (forall m1 m2 m3, R m1 m2 -> R m2 m3 -> R m1 m3) ->
  (forall x m0, passes R m0 (body x m0)) ->
  passes R m (for_each l body m).
Proof.
  intros Hr Ht Hb. revert m. induction l as [|x l IH]; intro m; simpl.
  - apply Hr.
  - apply (passes_bind R _ _ _ Ht); [apply Hb | apply IH].
Qed.











(** ** Which way resources flow *)

Ltac flows_fields :=
  unfold flows, role, vulnerability, economic_stress, monitoring_capacity,
    reporting_propensity;
  simpl; repeat split; auto;
  try match goal with
      | |- context [match extra ?a with _ => _ end] => destruct (extra a)
      end;
  try apply Qle_refl; try reflexivity.

Lemma flows_refl (q : bool) (a : Agent) : flows q a a.
Proof. destruct q; flows_fields. Qed.

Lemma flows_trans (q : bool) (a b c : Agent) :
  flows q a b -> flows q b c -> flows q a c.
Proof.
  intros [A1 [A2 [A3 [A4 [A5 A6]]]]] [B1 [B2 [B3 [B4 [B5 B6]]]]].
  rewrite A2 in B4, B5.
  split; [congruence|]. split; [congruence|]. split; [congruence|].
  split; [intro H; rewrite (B4 H); auto|]. split.
  - destruct (role a); try destruct q;
      try (eapply Qle_trans; eassumption);
      try (rewrite B5; exact A5).
  - intro Hq. destruct (A6 Hq) as [? [? ?]]. destruct (B6 Hq) as [? [? ?]].
    repeat split; congruence.
Qed.

Lemma flows_weaken (q : bool) (a b : Agent) : flows true a b -> flows q a b.
Proof.
  destruct q; [auto|].
  intros [A1 [A2 [A3 [A4 [A5 A6]]]]]. repeat split; auto; try discriminate.
  destruct (role a); auto. rewrite A5. apply Qle_refl.
Qed.

Lemma drift_refl (q : bool) (m : AIEMModel) : drift q m m.
Proof.
  unfold drift. induction (agents m); constructor; auto using flows_refl.
Qed.

Lemma drift_trans (q : bool) (m1 m2 m3 : AIEMModel) :
  drift q m1 m2 -> drift q m2 m3 -> drift q m1 m3.
Proof.
  unfold drift. generalize (agents m1) (agents m2) (agents m3).
  intros l1 l2 l3 H. revert l3.
  induction H as [|a b l1 l2 Hab _ IH]; intros l3 H3; inversion H3; subst;
    constructor; [eapply flows_trans; eassumption | auto].
Qed.

Lemma drift_update (q : bool) (i : nat) (f : Agent -> Agent)
  (m : AIEMModel) :
  flows q (agent_at i m) (f (agent_at i m)) -> drift q m (update_agent i f m).
Proof.
  unfold drift, update_agent, agent_at. simpl. generalize (agents m).
  intro l. revert i. induction l as [|a l IH]; intros [|i] H; simpl in *.
  - constructor.
  - constructor.
  - constructor; [exact H|].
    clear. induction l; constructor; auto using flows_refl.
  - constructor; [apply flows_refl | apply IH; exact H].
Qed.

Lemma drift_role (q : bool) (m m' : AIEMModel) (i : nat) :
  drift q m m' -> role (agent_at i m') = role (agent_at i m).
Proof.
  unfold drift, agent_at. generalize (agents m) (agents m').
  intros l l' H. revert i.
  induction H as [|a b l l' [_ [Hr _]] _ IH]; intros [|i]; simpl; auto.
Qed.

Lemma drift_nth (q : bool) (m m' : AIEMModel) (j : nat) (a a' : Agent) :
  drift q m m' -> nth_error (agents m) j = Some a ->
  nth_error (agents m') j = Some a' -> flows q a a'.
Proof.
  unfold drift. generalize (agents m) (agents m'). intros l l' H. revert j.
  induction H as [|x y l l' Hxy _ IH]; intros [|j] Ha Ha'; simpl in *;
    try discriminate.
  - congruence.
  - apply (IH j); assumption.
Qed.

Lemma drift_same_agents (q : bool) (m m' : AIEMModel) :
  agents m' = agents m -> drift q m m'.
Proof. unfold drift. intros ->. apply (drift_refl q m). Qed.

Section Drift.

Variable q : bool.

Let passing := passes (drift q).

Lemma passes_drift_bind (m : AIEMModel) (r : result AIEMModel)
  (k : AIEMModel -> result AIEMModel) (P : AIEMModel -> Prop) :
  P m -> (forall m1, P m -> drift q m m1 -> P m1) ->
  passing m r -> (forall m1, P m1 -> passing m1 (k m1)) ->
  passing m (bind r k).
Proof.
  intros Pm HP Hr Hk. destruct r as [m1|e]; simpl; [|exact I].
  specialize (Hk m1 (HP m1 Pm Hr)).
  unfold passing, passes in *. destruct (k m1) as [m2|e]; [|exact I].
  apply (drift_trans q _ _ _ Hr Hk).
Qed.

Lemma update_social_capital_drift (i : nat) (m : AIEMModel) :
  passing m (update_social_capital i m).
Proof.
  unfold update_social_capital.
  destruct (neighbors (network m) _) as [ns|e]; simpl; [|exact I].
  destruct (0 <? length ns)%nat; simpl; [|apply drift_refl].
  destruct (flat_map _ ns); simpl; [apply drift_refl|].
  apply drift_update. destruct q; flows_fields.
Qed.

Lemma adjust_risk_from_environment_drift (i : nat) (m : AIEMModel) :
  drift q m (adjust_risk_from_environment i m).
Proof.
  unfold adjust_risk_from_environment.
  destruct (Qltb _ _); [|apply drift_refl].
  apply drift_update. destruct q; flows_fields.
Qed.

Lemma AbstractAgent_step_drift (i : nat) (m : AIEMModel) :
  passing m (AbstractAgent_step i m).
Proof.
  unfold AbstractAgent_step.
  destruct (negb (active (agent_at i m))); [apply drift_refl|].
  apply (passes_drift_bind _ _ _ (fun _ => True)); auto.
  - apply update_social_capital_drift.
  - intros m1 _. apply adjust_risk_from_environment_drift.
Qed.

(** A step made of the shared pre-step, the guard and the action of the
    class [r]. *)
Lemma guarded_step_drift (r : Role) (i : nat) (m : AIEMModel)
  (act : nat -> AIEMModel -> result AIEMModel) :
  (forall m1, role (agent_at i m1) = r -> passing m1 (act i m1)) ->
  role (agent_at i m) = r ->
  passing m
    (m1 <- AbstractAgent_step i m ;;
     if negb (active (agent_at i m1)) then Ok m1 else act i m1).
Proof.
  intros Hact Hr.
  apply (passes_drift_bind _ _ _ (fun m0 => role (agent_at i m0) = r)).
  - exact Hr.
  - intros m1 H D. rewrite (drift_role q _ _ i D). exact H.
  - apply AbstractAgent_step_drift.
  - intros m1 H1. destruct (negb (active (agent_at i m1)));
      [apply drift_refl | apply Hact; exact H1].
Qed.

Lemma distribute_to_drift (i : nat) (amount : Q) (k : nat) (m : AIEMModel)
  (x : nat) :
  role (agent_at i m) = Leader -> 0 <= amount / Qnat k ->
  drift q m (distribute_to i amount k m x).
Proof.
  intros Hr Hpos. unfold distribute_to.
  destruct (get_agent_by_id m x) as [j|]; [|apply drift_refl].
  destruct (is_operative_or_broker (agent_at j m)) eqn:Ej;
    [|apply drift_refl].
  set (tr := amount / Qnat k) in *. clearbody tr.
  set (m1 := update_agent j _ m).
  assert (D1 : drift q m m1).
  { apply drift_update. unfold is_operative_or_broker in Ej.
    unfold flows, role, vulnerability, economic_stress, monitoring_capacity,
      reporting_propensity. simpl.
    destruct (extra (agent_at j m)); try discriminate;
      repeat split; auto; lra. }
  apply (drift_trans q _ _ _ D1).
  apply drift_update.
  pose proof (drift_role q _ _ i D1) as Hr1. rewrite Hr in Hr1.
  unfold flows. simpl. rewrite Hr1.
  repeat split; auto; try discriminate; try lra.
Qed.

Lemma distribute_resources_drift (i : nat) (m : AIEMModel) :
  role (agent_at i m) = Leader -> passing m (distribute_resources i m).
Proof.
  intro Hr. unfold distribute_resources.
  destruct (neighbors (network m) _) as [ns|e]; simpl; [|exact I].
  destruct ((0 <? length ns)%nat && Qltb _ _) eqn:Ec; simpl;
    [|apply drift_refl].
  apply andb_prop in Ec. destruct Ec as [Hlen Hres].
  apply Nat.ltb_lt in Hlen. apply Qltb_true in Hres.
  remember (length ns) as k eqn:Ek. clear Ek.
  assert (Hpos : 0 <= resources (agent_at i m) * (1#10) / Qnat k).
  { apply Qle_shift_div_l; [now apply Qnat_pos | lra]. }
  remember (resources (agent_at i m) * (1#10)) as amount eqn:Ea.
  clear Ea Hres Hlen.
  revert m Hr. induction ns as [|x ns IH]; intros m Hr; simpl;
    [apply drift_refl|].
  pose proof (distribute_to_drift i amount k m x Hr Hpos) as D.
  apply (drift_trans q _ _ _ D). apply IH.
  rewrite (drift_role q _ _ i D). exact Hr.
Qed.

Lemma perform_abstract_activity_drift (i : nat) (m : AIEMModel) :
  role (agent_at i m) = Operative -> drift q m (perform_abstract_activity i m).
Proof.
  intro Hr. unfold perform_abstract_activity.
  destruct (_ && _); [|apply drift_refl].
  unfold draw, random_random. set (m1 := set_random _ m).
  apply (drift_trans q m m1); [apply drift_same_agents; reflexivity|].
  change (agent_at i m) with (agent_at i m1) in Hr.
  destruct (Qltb _ _); apply drift_update; unfold flows; simpl; rewrite Hr;
    repeat split; auto; try discriminate; try apply Qle_refl; lra.
Qed.

Lemma Operative_step_drift (i : nat) (m : AIEMModel) :
  role (agent_at i m) = Operative -> passing m (Operative_step i m).
Proof.
  unfold Operative_step.
  apply (guarded_step_drift Operative i m
           (fun i m1 =>
              Ok (perform_abstract_activity i
                    match economic_stress (agent_at i m1) with
                    | Some es =>
                        if Qltb (7#10) es then
                          update_agent i
                            (fun a => set_risk_tolerance
                               (py_min 1 (risk_tolerance a + (5#100))) a) m1
                        else m1
                    | None => m1
                    end))).
  intros m1 Hr. unfold passing, passes.
  set (m2 := match economic_stress (agent_at i m1) with
             | Some es => _ | None => m1 end).
  assert (D : drift q m1 m2).
  { unfold m2. destruct (economic_stress _); [|apply drift_refl].
    destruct (Qltb _ _); [|apply drift_refl].
    apply drift_update. destruct q; flows_fields. }
  apply (drift_trans q _ _ _ D). apply perform_abstract_activity_drift.
  rewrite (drift_role q _ _ i D). exact Hr.
Qed.

Lemma Qnat_nonneg (k : nat) : 0 <= Qnat k.
Proof. unfold Qnat. change 0 with (inject_Z 0). rewrite <- Zle_Qle. lia. Qed.

Lemma mediate_connections_drift (i : nat) (m : AIEMModel) :
  role (agent_at i m) = Broker -> passing m (mediate_connections i m).
Proof.
  intro Hr. unfold mediate_connections.
  destruct (neighbors (network m) _) as [ns|e]; [|exact I].
  cbn [bind]. destruct (2 <=? length ns)%nat; [|apply drift_refl].
  unfold passing, passes. apply drift_update.
  pose proof (Qnat_nonneg (length ns)) as Hk.
  unfold flows. simpl. rewrite Hr.
  repeat split; auto; try discriminate. lra.
Qed.

Lemma maintain_legitimacy_drift (i : nat) (m : AIEMModel) :
  role (agent_at i m) = Facilitator -> drift q m (maintain_legitimacy i m).
Proof.
  intro Hr. unfold maintain_legitimacy.
  destruct (Qltb _ _); [|apply drift_refl].
  set (m1 := update_agent i (fun a => set_resources _ a) m).
  assert (D1 : drift q m m1).
  { apply drift_update. unfold flows. simpl. rewrite Hr.
    repeat split; auto; try discriminate. lra. }
  pose proof (drift_role q _ _ i D1) as Hr1. rewrite Hr in Hr1.
  set (m2 := update_agent i (fun a => set_legitimacy _ a) m1).
  assert (D2 : drift q m1 m2).
  { apply drift_update. unfold flows. simpl. rewrite Hr1.
    repeat split; auto; try discriminate; try apply Qle_refl.
    intro H. now destruct H. }
  apply (drift_trans q _ _ _ D1). apply (drift_trans q _ _ _ D2).
  apply drift_update. destruct q; flows_fields.
Qed.

Lemma report_suspicious_activity_drift (x : nat) (m : AIEMModel) :
  drift q m (report_suspicious_activity x m).
Proof.
  unfold report_suspicious_activity.
  set (m1 := set_reports_this_step _ m).
  apply (drift_trans q m m1); [apply drift_same_agents; reflexivity|].
  destruct (get_agent_by_id m1 x); [|apply drift_refl].
  apply drift_update. destruct q; flows_fields.
Qed.

Lemma consider_reporting_drift (i : nat) (m : AIEMModel) :
  passing m (consider_reporting i m).
Proof.
  unfold consider_reporting.
  destruct (neighbors (network m) _) as [ns|e]; simpl; [|exact I].
  revert m. induction ns as [|x ns IH]; intro m; simpl; [apply drift_refl|].
  eapply drift_trans; [|apply IH].
  unfold consider_neighbor.
  destruct (get_agent_by_id m x); [|apply drift_refl].
  destruct (Qltb (7#10) _); [|apply drift_refl].
  unfold draw, random_random. set (m1 := set_random _ m).
  apply (drift_trans q m m1); [apply drift_same_agents; reflexivity|].
  destruct (Qltb _ _); [|apply drift_refl].
  apply report_suspicious_activity_drift.
Qed.

Lemma flows_arrest_agent (a : Agent) : flows q a (arrest_agent a).
Proof.
  unfold arrest_agent.
  destruct (2 <=? arrest_count a + 1)%Z; destruct q; flows_fields.
Qed.

Lemma flows_map_intervention_resources (f : Q -> Q) (a : Agent) :
  flows q a (map_intervention_resources f a).
Proof.
  unfold map_intervention_resources, flows, role, vulnerability,
    economic_stress, monitoring_capacity, reporting_propensity.
  destruct (extra a) eqn:Ex; simpl; rewrite ?Ex;
    repeat split; auto; try apply Qle_refl; try reflexivity;
    destruct q; try apply Qle_refl; reflexivity.
Qed.

Lemma intervene_agent_drift (x : nat) (m : AIEMModel) :
  passing m (intervene_agent x m).
Proof.
  unfold passing.
  destruct (get_agent_by_id m x) as [j|] eqn:Eg.
  - destruct (active (agent_at j m)) eqn:Ea.
    + destruct (intervene_agent_active x j m Eg Ea) as [m' [-> [Hag _]]].
      simpl. apply (drift_trans q m (update_agent j arrest_agent m)).
      * apply drift_update. apply flows_arrest_agent.
      * apply drift_same_agents. exact Hag.
    + rewrite intervene_agent_inactive; [|rewrite Eg; exact Ea].
      apply drift_same_agents. reflexivity.
  - rewrite intervene_agent_inactive; [|rewrite Eg; exact I].
    apply drift_same_agents. reflexivity.
Qed.

Lemma monitor_and_intervene_drift (i : nat) (m : AIEMModel) :
  passing m (monitor_and_intervene i m).
Proof.
  unfold monitor_and_intervene, passing.
  apply (passes_bind (drift q) _ _ _ (drift_trans q)).
  - apply (passes_for_each (drift q) _ _ _ (drift_refl q) (drift_trans q)).
    intros j m0. unfold monitor_agent.
    destruct (_ && _); [|apply drift_refl].
    unfold draw, random_random. set (m1 := set_random _ m0).
    destruct (Qltb _ _); [|apply drift_same_agents; reflexivity].
    change (passes (drift q) m1
              (m2 <- intervene_agent (unique_id (agent_at j m0)) m1 ;;
               Ok (update_agent i
                     (map_intervention_resources (fun r => r - (1#10))) m2))).
    apply (passes_bind (drift q) _ _ _ (drift_trans q)).
    + apply intervene_agent_drift.
    + intro m2. apply drift_update. apply flows_map_intervention_resources.
  - intro m1. apply drift_update. apply flows_map_intervention_resources.
Qed.

Lemma agent_step_drift (i : nat) (m : AIEMModel) :
  passing m (agent_step i m).
Proof.
  unfold agent_step.
  destruct (nth_error (agents m) i) as [a|] eqn:E; [|apply drift_refl].
  assert (Ha : agent_at i m = a) by (apply nth_error_nth_default; assumption).
  assert (Hr : role (agent_at i m) = role a) by (now rewrite Ha).
  unfold role at 2 in Hr.
  destruct (extra a).
  - apply (guarded_step_drift Leader i m distribute_resources); [|exact Hr].
    intros m1. apply distribute_resources_drift.
  - apply Operative_step_drift. exact Hr.
  - apply (guarded_step_drift Broker i m mediate_connections); [|exact Hr].
    intros m1. apply mediate_connections_drift.
  - apply (guarded_step_drift Facilitator i m
             (fun i m => Ok (maintain_legitimacy i m))); [|exact Hr].
    intros m1. apply maintain_legitimacy_drift.
  - apply (guarded_step_drift CommunityMember i m consider_reporting);
      [|exact Hr].
    intros m1 _. apply consider_reporting_drift.
  - unfold Authority_step.
    apply (passes_bind (drift q) _ _ _ (drift_trans q)).
    + apply AbstractAgent_step_drift.
    + intro m1. apply monitor_and_intervene_drift.
Qed.

Lemma step_in_order_drift (agent_list : list nat) (m : AIEMModel) :
  passing m (step_in_order agent_list m).
Proof.
  unfold passing, passes.
  destruct (step_in_order agent_list m) as [m'|e] eqn:E; [|exact I].
  destruct (step_in_order_end _ _ _ E) as [m1 [row [E1 [Hag _]]]].
  pose proof (passes_for_each (drift q) agent_list agent_step
                (set_intervene_calls 0%Z
                   (set_reports_this_step 0%Z (set_arrests_this_step 0%Z m)))
                (drift_refl q) (drift_trans q) agent_step_drift) as D.
  rewrite E1 in D. cbn [passes] in D.
  unfold drift in *. rewrite Hag. exact D.
Qed.

End Drift.

Lemma apply_policy_intervention_drift (ty : string) (x : Q) (m : AIEMModel) :
  0 <= x -> drift false m (apply_policy_intervention ty x m).
Proof.
  intro Hx.
  assert (Hmap : forall f, (forall a, flows false a (f a)) ->
                           drift false m (set_agents (map f (agents m)) m)).
  { intros f Hf. unfold drift. simpl.
    induction (agents m); simpl; constructor; auto. }
  unfold apply_policy_intervention.
  destruct (String.eqb ty "monitoring");
    [|destruct (String.eqb ty "economic_support");
      [|destruct (String.eqb ty "community_engagement")]].
  - apply Hmap. intro a. unfold policy_monitoring.
    destruct (Role_eqb (role a) Authority); [|apply flows_refl].
    unfold flows, role, vulnerability. destruct (extra a) eqn:Ex; simpl;
      rewrite ?Ex; repeat split; auto; try discriminate;
      try apply Qle_refl; reflexivity.
  - apply Hmap. intro a. unfold policy_economic_support.
    destruct (Role_eqb (role a) Operative || Role_eqb (role a) CommunityMember)
      eqn:Er; [|apply flows_refl].
    unfold flows, role, vulnerability in *.
    destruct (extra a) eqn:Ex; simpl in *; rewrite ?Ex;
      try discriminate; repeat split; auto; try discriminate; lra.
  - apply Hmap. intro a. unfold policy_community_engagement.
    destruct (Role_eqb (role a) CommunityMember); [|apply flows_refl].
    unfold flows, role, vulnerability. destruct (extra a) eqn:Ex; simpl;
      rewrite ?Ex; repeat split; auto; try discriminate;
      try apply Qle_refl; reflexivity.
  - apply drift_refl.
Qed.

Lemma exec_drift (q : bool) (es : list Event) (m : AIEMModel) :
  Forall nonneg_event es -> (q = true -> steps_only es) ->
  passes (drift q) m (exec es m).
Proof.
  intros Hes Hq. revert m. unfold exec.
  induction Hes as [|e es He _ IH]; intro m; [apply drift_refl|].
  assert (Hq' : q = true -> steps_only es)
    by (intro H; specialize (Hq H); inversion Hq; assumption).
  cbn [for_each].
  apply (passes_bind (drift q) _ _ _ (drift_trans q)); [|intro m1; auto].
  destruct e as [l|ty x]; cbn [exec_event].
  - apply step_in_order_drift.
  - destruct q.
    + specialize (Hq eq_refl). inversion Hq as [|? ? Hf _]. destruct Hf.
    + apply apply_policy_intervention_drift. exact He.
Qed.

Section FlowsOfRuns.

Variable seeded_stream : Z -> nat -> Q.
Variable watts_strogatz_graph : nat -> nat -> Q -> Z -> Graph.

Let init := AIEMModel_init seeded_stream watts_strogatz_graph.
Let valid := valid_graph watts_strogatz_graph.

(** X20. Resources flow one way.  Between an earlier and a later
    boundary of a run whose interventions in between have non-negative
    intensities: a Leader's and a Facilitator's resources never increase,
    an Operative's, a Broker's and a CommunityMember's never decrease, an
    Authority's stay as they are; nobody's [legitimacy] changes but a
    Facilitator's; [vulnerability] is never written.  When only steps lie
    in between, [economic_stress], [monitoring_capacity] and
    [reporting_propensity] stay as they are too, and so do the resources
    of CommunityMembers: agents never write the levers of the
    interventions. *)
Theorem resources_flow_one_way (p : Params) (es es' : list Event) :
  valid p -> (0 < total_agents p)%nat -> Forall nonneg_event es' ->
  exists m m',
    exec es (init p) = Ok m
    /\ exec (es ++ es') (init p) = Ok m'
    /\ forall j a a',
         nth_error (agents m) j = Some a ->
         nth_error (agents m') j = Some a' ->
         vulnerability a' = vulnerability a
         /\ (role a <> Facilitator -> legitimacy a' = legitimacy a)
         /\ (role a = Leader \/ role a = Facilitator ->
             resources a' <= resources a)
         /\ (role a = Operative \/ role a = Broker
             \/ role a = CommunityMember -> resources a <= resources a')
         /\ (role a = Authority -> resources a' == resources a)
         /\ (steps_only es' ->
             economic_stress a' = economic_stress a
             /\ monitoring_capacity a' = monitoring_capacity a
             /\ reporting_propensity a' = reporting_propensity a
             /\ (role a = CommunityMember -> resources a' == resources a)).
Proof.
  intros HG Hn Hes.
  destruct (two_boundaries seeded_stream watts_strogatz_graph p es es' HG Hn)
    as [m [m' [E [E2 [E' _]]]]].
  fold init in E, E'.
  exists m, m'. split; [exact E|]. split; [exact E'|].
  intros j a a' Ha Ha'.
  pose proof (exec_drift false es' m Hes
                (fun H => False_ind _ (Bool.diff_false_true H))) as D.
  rewrite E2 in D. cbn [passes] in D.
  destruct (drift_nth _ _ _ j a a' D Ha Ha') as [_ [_ [F3 [F4 [F5 _]]]]].
  split; [exact F3|]. split; [exact F4|]. split; [|split; [|split]].
  - intros [H|H]; rewrite H in F5; exact F5.
  - intros [H|[H|H]]; rewrite H in F5; exact F5.
  - intro H. rewrite H in F5. exact F5.
  - intro Hs.
    pose proof (exec_drift true es' m Hes (fun _ => Hs)) as D1.
    rewrite E2 in D1. cbn [passes] in D1.
    destruct (drift_nth _ _ _ j a a' D1 Ha Ha')
      as [_ [_ [_ [_ [G5 G6]]]]].
    destruct (G6 eq_refl) as [G7 [G8 G9]].
    split; [exact G7|]. split; [exact G8|]. split; [exact G9|].
    intro H. rewrite H in G5. exact G5.
Qed.

End FlowsOfRuns.

Lemma resources_flow_one_way_witness :
  valid_graph ring_graph demo_params
  /\ (0 < total_agents demo_params)%nat
  /\ Forall nonneg_event (tl demo_trace)
  /\ exists m m',
       exec [EvStep [2%nat; 0%nat; 1%nat]] demo_init = Ok m
       /\ exec demo_trace demo_init = Ok m'
       /\ forall a a',
            nth_error (agents m) 0 = Some a ->
            nth_error (agents m') 0 = Some a' ->
            role a = Leader -> resources a' <= resources a.
Proof.
  assert (He : Forall nonneg_event (tl demo_trace))
    by (unfold demo_trace; repeat constructor; simpl; lra).
  split; [reflexivity|]. split; [unfold total_agents; simpl; lia|].
  split; [exact He|].
  destruct (resources_flow_one_way demo_stream ring_graph demo_params
              [EvStep [2%nat; 0%nat; 1%nat]] (tl demo_trace))
    as [m [m' [E [E' H]]]];
    [reflexivity | unfold total_agents; simpl; lia | exact He |].
  exists m, m'. split; [exact E|]. split; [exact E'|].
  intros a a' Ha Ha' Hr.
  destruct (H 0%nat a a' Ha Ha') as [_ [_ [Hl _]]].
  apply Hl. left. exact Hr.
Defined.
